(** * The load driver of [run_benchmark.py]

    A shallow embedding of [run_benchmark_thread] and [main] and the
    properties of the worker loop, of the collector and of the summary
    report.

    Modelling choices.
    - Python [int]s are [Z]; [range(n)] is [seq 0 (Z.to_nat n)], so loop
      indices and thread ids are [nat].
    - A duration or a time stamp ([time.time()], a Python [float]) is an exact
      rational, [Qc], with Leibniz equality; the rounding of binary64
      arithmetic is not modelled.
    - Everything a worker cannot decide by itself (the random draws, whether
      the database calls return or raise, the measured times) is read from a
      [worker_world]; the worker is a function of its thread id and of that
      world.
    - The effects of a worker (statements sent, sleeps, log lines) are
      recorded in a trace of [event]s.
    - [all_query_times], a [dict] whose iteration order is the order in which
      the keys were inserted, is an association list.
    - A call that can raise returns a [result]: [ThreadPoolExecutor] with
      [max_workers <= 0], a division by zero, [statistics.mean],
      [statistics.median], [min] and [max] on an empty list.  [time.time]
      and [time.sleep] do not raise.
    - [statistics.mean] sums its data exactly before it divides, and
      [statistics.median] sorts them; here the mean is the exact quotient
      and [sorted] is an insertion sort. *)

From Stdlib Require Import List String Ascii ZArith Lia Bool Arith.
From Stdlib Require Import QArith Qcanon Lqa.
From Stdlib Require Import Permutation.
From Stdlib Require Import DecimalString DecimalNat.
Import ListNotations.

Close Scope Qc_scope.
Close Scope Q_scope.
Open Scope string_scope.
Open Scope list_scope.

(** ** Numbers *)

Module Num.

Definition of_nat (n : nat) : Qc := Q2Qc (inject_Z (Z.of_nat n)).

(** [x < y] and [x <= y] on floats, as booleans. *)
Definition ltb (x y : Qc) : bool :=
  match (x ?= y)%Qc with Lt => true | _ => false end.

Definition leb (x y : Qc) : bool :=
  match (x ?= y)%Qc with Gt => false | _ => true end.

(** The literal [0.1]. *)
Definition tenth : Qc := Q2Qc (1 # 10).

Definition two : Qc := Q2Qc 2.

End Num.

(** ** Strings built by the f-strings *)

(** [str(n)] for a non-negative [int]: its decimal digits. *)
Definition str (n : nat) : string :=
  NilEmpty.string_of_uint (Nat.to_uint n).

(** [f"user_{thread_id}_{i}"] *)
Definition username (thread_id i : nat) : string :=
  ("user_" ++ str thread_id ++ "_" ++ str i)%string.

(** [f"{username}@example.com"] *)
Definition email (username : string) : string :=
  (username ++ "@example.com")%string.

(** ** Configuration (the module-level constants) *)

Record config := {
  DB_PREFIX : string;
  NUM_DATABASES : Z;
  NUM_THREADS : Z;
  QUERIES_PER_THREAD : Z
}.

(** [range(n)] *)
Definition range (n : Z) : list nat := seq 0 (Z.to_nat n).

(** [[f"{DB_PREFIX}test{i}" for i in range(1, NUM_DATABASES + 1)]] *)
Definition DB_NAMES (cfg : config) : list string :=
  map (fun i => (DB_PREFIX cfg ++ "test" ++ str i)%string)
      (seq 1 (Z.to_nat (NUM_DATABASES cfg))).

(** ** The worker *)

Inductive query_type := SELECT | INSERT | UPDATE.

Definition query_type_eqb (a b : query_type) : bool :=
  match a, b with
  | SELECT, SELECT | INSERT, INSERT | UPDATE, UPDATE => true
  | _, _ => false
  end.

(** The statements a worker sends. *)
Inductive statement :=
| SelectUsers
    (* SELECT * FROM users LIMIT 10 *)
| InsertUser (username email first_name last_name status : string)
    (* INSERT INTO users (username, email, first_name, last_name, status) *)
| UpdateStatus.
    (* UPDATE users SET status = 'active' WHERE id = 1 *)

Inductive event :=
| Connect (db_name : string)
| Execute (s : statement)
| Sleep (seconds : Qc)
| LogError (thread_id : nat)
| LogConnectionError (thread_id : nat)
| Close.

(** What the outside decides for one worker.
    - [pick]: the index [random.choice(DB_NAMES)] draws;
    - [connects]: [mysql.connector.connect] and [connection.cursor] return
      ([false]: one of them raises);
    - [draw i]: the query type [random.choice] returns in iteration [i];
    - [outcome i]: [Some t] when the body of the inner [try] of iteration [i]
      runs to its end, [t] being [time.time() - start_time]; [None] when a
      database call of the iteration raises;
    - [closes]: [cursor.close()] and [connection.close()] return. *)
Record worker_world := {
  pick : nat;
  connects : bool;
  draw : nat -> query_type;
  outcome : nat -> option Qc;
  closes : bool
}.

(** [random.choice(l)]: raises [IndexError] on the empty list. *)
Definition random_choice {A} (l : list A) (r : nat) : option A :=
  match l with
  | [] => None
  | _ => nth_error l (r mod List.length l)%nat
  end.

(** The local variables of [run_benchmark_thread], and its trace. *)
Record worker_state := {
  query_times : list (query_type * Qc);
  errors : nat;
  trace : list event
}.

Definition statement_of (query_type : query_type) (thread_id i : nat)
  : statement :=
  match query_type with
  | SELECT => SelectUsers
  | INSERT =>
      let username := username thread_id i in
      let email := email username in
      InsertUser username email "First" "Last" "active"
  | UPDATE => UpdateStatus
  end.

(** One pass through the body of [for i in range(QUERIES_PER_THREAD)]. *)
Definition iteration (thread_id : nat) (w : worker_world)
    (st : worker_state) (i : nat) : worker_state :=
  let query_type := draw w i in
  let sent := Execute (statement_of query_type thread_id i) in
  match outcome w i with
  | Some execution_time =>
      {| query_times := query_times st ++ [(query_type, execution_time)];
         errors := errors st;
         trace := trace st ++ [sent; Sleep Num.tenth] |}
  | None =>
      {| query_times := query_times st;
         errors := (errors st + 1)%nat;
         trace := trace st ++ [sent; LogError thread_id] |}
  end.

Definition query_loop (cfg : config) (thread_id : nat) (w : worker_world)
    (st : worker_state) : worker_state :=
  fold_left (iteration thread_id w) (range (QUERIES_PER_THREAD cfg)) st.

(** What the outer [except] returns: [[], 1]. *)
Definition connection_error (thread_id : nat) (tr : list event)
  : worker_state :=
  {| query_times := []; errors := 1;
     trace := tr ++ [LogConnectionError thread_id] |}.

(** [run_benchmark_thread(thread_id)], with the trace of its effects. *)
Definition run_benchmark_thread_traced (cfg : config) (thread_id : nat)
    (w : worker_world) : worker_state :=
  match random_choice (DB_NAMES cfg) (pick w) with
  | None => connection_error thread_id []
  | Some db_name =>
      if connects w then
        let st :=
          query_loop cfg thread_id w
            {| query_times := []; errors := 0; trace := [Connect db_name] |} in
        if closes w then
          {| query_times := query_times st; errors := errors st;
             trace := trace st ++ [Close] |}
        else connection_error thread_id (trace st)
      else connection_error thread_id [Connect db_name]
  end.

(** The value [run_benchmark_thread(thread_id)] returns. *)
Definition run_benchmark_thread (cfg : config) (thread_id : nat)
    (w : worker_world) : list (query_type * Qc) * nat :=
  let st := run_benchmark_thread_traced cfg thread_id w in
  (query_times st, errors st).

(** ** Exceptions *)

Inductive exn :=
| ValueError
| ZeroDivisionError
| StatisticsError.

(** A computation that returns a value or raises. *)
Definition result (A : Type) : Type := (exn + A)%type.

Definition ret {A} (a : A) : result A := inr a.
Definition raise {A} (e : exn) : result A := inl e.

Definition bind {A B} (m : result A) (k : A -> result B) : result B :=
  match m with
  | inl e => inl e
  | inr a => k a
  end.

Notation "x <- m ;; k" := (bind m (fun x => k))
  (at level 61, m at next level, right associativity).

(** ** The functions of [statistics] and the built-ins the report uses *)

Definition total (data : list Qc) : Qc := fold_left Qcplus data 0%Qc.

(** [x / y] on numbers. *)
Definition truediv (x y : Qc) : result Qc :=
  if Qc_eq_bool y 0%Qc then raise ZeroDivisionError else ret (x / y)%Qc.

(** [statistics.mean(data)]: the exact sum over the number of values. *)
Definition mean (data : list Qc) : result Qc :=
  match data with
  | [] => raise StatisticsError
  | _ :: _ => truediv (total data) (Num.of_nat (List.length data))
  end.

Fixpoint insert (x : Qc) (l : list Qc) : list Qc :=
  match l with
  | [] => [x]
  | y :: l' => if Num.leb x y then x :: l else y :: insert x l'
  end.

(** [sorted(data)] *)
Definition sorted (data : list Qc) : list Qc :=
  fold_right insert [] data.

(** [statistics.median(data)] *)
Definition median (data : list Qc) : result Qc :=
  let data := sorted data in
  let n := List.length data in
  if (n =? 0)%nat then raise StatisticsError
  else if (n mod 2 =? 1)%nat then ret (nth (n / 2) data 0%Qc)
  else
    let i := (n / 2)%nat in
    truediv (nth (i - 1) data 0%Qc + nth i data 0%Qc)%Qc Num.two.

(** [min(data)]: the first of the smallest values. *)
Definition py_min (data : list Qc) : result Qc :=
  match data with
  | [] => raise ValueError
  | x :: rest =>
      ret (fold_left (fun m y => if Num.ltb y m then y else m) rest x)
  end.

(** [max(data)]: the first of the largest values. *)
Definition py_max (data : list Qc) : result Qc :=
  match data with
  | [] => raise ValueError
  | x :: rest =>
      ret (fold_left (fun m y => if Num.ltb m y then y else m) rest x)
  end.

(** ** The collector *)

(** [all_query_times]: query type to the durations measured for it, in the
    order in which the query types were first seen. *)
Definition dict := list (query_type * list Qc).

Fixpoint dict_get (d : dict) (k : query_type) : option (list Qc) :=
  match d with
  | [] => None
  | (k', v) :: d' => if query_type_eqb k k' then Some v else dict_get d' k
  end.

(** [k in d] *)
Definition dict_contains (d : dict) (k : query_type) : bool :=
  match dict_get d k with
  | Some _ => true
  | None => false
  end.

(** [d[k] = v]: a present key keeps its place, a new one goes last. *)
Fixpoint dict_set (d : dict) (k : query_type) (v : list Qc) : dict :=
  match d with
  | [] => [(k, v)]
  | (k', v') :: d' =>
      if query_type_eqb k k' then (k, v) :: d'
      else (k', v') :: dict_set d' k v
  end.

(** The body of [for query_type, execution_time in query_times]. *)
Definition group (all_query_times : dict) (r : query_type * Qc) : dict :=
  let '(query_type, execution_time) := r in
  let all_query_times :=
    if negb (dict_contains all_query_times query_type)
    then dict_set all_query_times query_type []
    else all_query_times in
  match dict_get all_query_times query_type with
  | Some times =>
      dict_set all_query_times query_type (times ++ [execution_time])
  | None => all_query_times
  end.

(** The body of [for future in futures]. *)
Definition collect_one (acc : dict * nat)
    (res : list (query_type * Qc) * nat) : dict * nat :=
  let '(all_query_times, total_errors) := acc in
  let '(query_times, errors) := res in
  let total_errors := (total_errors + errors)%nat in
  (fold_left group query_times all_query_times, total_errors).

Definition collect (results : list (list (query_type * Qc) * nat))
  : dict * nat :=
  fold_left collect_one results ([], 0%nat).

(** ** The report *)

(** The block of log lines of one query type. *)
Record kind_stats := {
  kind : query_type;
  count : nat;
  avg_time : Qc;
  median_time : Qc;
  min_time : Qc;
  max_time : Qc
}.

Record report := {
  all_query_times : dict;
  total_duration : Qc;
  total_queries : nat;
  total_errors : nat;
  queries_per_second : Qc;
  kinds : list kind_stats
}.

(** [sum(len(times) for times in all_query_times.values())] *)
Definition count_queries (d : dict) : nat :=
  fold_left (fun s kv => (s + List.length (snd kv))%nat) d 0%nat.

(** [total_queries / total_duration if total_duration > 0 else 0] *)
Definition throughput (total_queries : nat) (total_duration : Qc)
  : result Qc :=
  if Num.ltb 0%Qc total_duration
  then truediv (Num.of_nat total_queries) total_duration
  else ret 0%Qc.

(** The body of [if times:] in the report loop: the statistics of one query
    type. *)
Definition kind_block (query_type : query_type) (times : list Qc)
  : result kind_stats :=
  avg_time <- mean times ;;
  median_time <- median times ;;
  min_time <- py_min times ;;
  max_time <- py_max times ;;
  ret {| kind := query_type; count := List.length times;
         avg_time := avg_time; median_time := median_time;
         min_time := min_time; max_time := max_time |}.

(** [for query_type, times in all_query_times.items(): if times: ...] *)
Fixpoint report_kinds (items : dict) : result (list kind_stats) :=
  match items with
  | [] => ret []
  | (query_type, times) :: items' =>
      match times with
      | [] => report_kinds items'
      | _ :: _ =>
          block <- kind_block query_type times ;;
          rest <- report_kinds items' ;;
          ret (block :: rest)
      end
  end.

(** The part of [main] after the [with] block. *)
Definition summarise (all_query_times : dict) (total_errors : nat)
    (total_duration : Qc) : result report :=
  let total_queries := count_queries all_query_times in
  queries_per_second <- throughput total_queries total_duration ;;
  kinds <- report_kinds all_query_times ;;
  ret {| all_query_times := all_query_times;
         total_duration := total_duration;
         total_queries := total_queries;
         total_errors := total_errors;
         queries_per_second := queries_per_second;
         kinds := kinds |}.

(** What the outside decides for a run: the clock before and after the
    workers, and each worker's world. *)
Record world := {
  start_time : Qc;
  end_time : Qc;
  worker : nat -> worker_world
}.

(** [future.result()] for the future of [executor.submit(run_benchmark_thread,
    i)]: what worker [i] returns. *)
Definition future_result (cfg : config) (W : world) (i : nat)
  : list (query_type * Qc) * nat :=
  run_benchmark_thread cfg i (worker W i).

(** The values the futures hold, in the order of [futures]. *)
Definition futures (cfg : config) (W : world)
  : list (list (query_type * Qc) * nat) :=
  map (future_result cfg W) (range (NUM_THREADS cfg)).

(** [main()].  [ThreadPoolExecutor(max_workers=n)] raises [ValueError] when
    [n <= 0], before anything is submitted. *)
Definition main (cfg : config) (W : world) : result report :=
  if (NUM_THREADS cfg <=? 0)%Z then raise ValueError
  else
    let '(all_query_times, total_errors) := collect (futures cfg W) in
    let total_duration := (end_time W - start_time W)%Qc in
    summarise all_query_times total_errors total_duration.

(** * The scripts around the load driver

    [cleanup_databases.py] and [generate_testdata.py] run statements one
    after the other on a single connection.  A run is a computation that
    extends a trace of [Db.event]s and returns a value or raises; what the
    server and the terminal answer is read from a world.  An exception is
    kept as the text [str(e)] the handlers log: every handler of the scripts
    is [except Exception].  [connection.cursor()], [cursor.close()],
    [connection.close()] and [input()] are taken to return. *)

Module Db.

(** A value bound to a [%s] placeholder. *)
Inductive value :=
| VStr (s : string)
| VInt (n : Z)
| VFloat (q : Qc).

Inductive event :=
| Connect
    (* mysql.connector.connect(...) *)
| OpenCursor
    (* connection.cursor() *)
| Execute (sql : string) (params : list value)
    (* cursor.execute(sql, params) *)
| Commit
    (* connection.commit() *)
| CloseCursor
    (* cursor.close() *)
| CloseConnection
    (* connection.close() *)
| Input (prompt : string)
    (* input(prompt) *)
| LogInfo (msg : string)
| LogError (msg : string).

(** An exception, with its text. *)
Inductive raised := Error (text : string).

Definition text (e : raised) : string :=
  match e with Error t => t end.

(** A computation on a trace that returns or raises. *)
Definition M (A : Type) : Type :=
  list event -> list event * (raised + A).

Definition ret {A} (a : A) : M A := fun tr => (tr, inr a).

Definition raise {A} (e : raised) : M A := fun tr => (tr, inl e).

Definition bind {A B} (m : M A) (k : A -> M B) : M B :=
  fun tr =>
    match m tr with
    | (tr', inl e) => (tr', inl e)
    | (tr', inr a) => k a tr'
    end.

Definition emit (e : event) : M unit := fun tr => (tr ++ [e], inr tt).

(** [try: body except Exception as e: handler(e)] *)
Definition try_except {A} (body : M A) (handler : raised -> M A) : M A :=
  fun tr =>
    match body tr with
    | (tr', inl e) => handler e tr'
    | (tr', inr a) => (tr', inr a)
    end.

(** [try: body finally: final] *)
Definition try_finally {A} (body : M A) (final : M unit) : M A :=
  fun tr =>
    match body tr with
    | (tr', r) =>
        match final tr' with
        | (tr'', inl e) => (tr'', inl e)
        | (tr'', inr _) => (tr'', r)
        end
    end.

(** [for x in l: body(x)] *)
Fixpoint for_each {A} (l : list A) (body : A -> M unit) : M unit :=
  match l with
  | [] => ret tt
  | x :: l' => bind (body x) (fun _ => for_each l' body)
  end.

(** The outcome of a call of the connector: [None] when it returns, the
    text of the exception when it raises. *)
Definition attempt (outcome : option string) : M unit :=
  match outcome with
  | None => ret tt
  | Some e => raise (Error e)
  end.

(** The trace and the result of a run started on the empty trace. *)
Definition run {A} (m : M A) : list event * (raised + A) := m [].

End Db.

Notation "x <~ m ;; k" := (Db.bind m (fun x => k))
  (at level 61, m at next level, right associativity).

Notation "m ;;; k" := (Db.bind m (fun _ => k))
  (at level 61, right associativity).

(** ** [cleanup_databases.py] *)

Module Cleanup.

Import Db.

(** The settings the script reads from the environment. *)
Record settings := {
  DB_HOST : string;
  DB_PREFIX : string
}.

(** What the outside decides for a run:
    - [connect]: whether [mysql.connector.connect] returns;
    - [show_databases]: whether [SHOW DATABASES] raises, or the first column
      of its rows;
    - [answer]: what [input] returns;
    - [drop db_name]: whether [DROP DATABASE IF EXISTS db_name] returns. *)
Record world := {
  connect : option string;
  show_databases : string + list string;
  answer : string;
  drop : string -> option string
}.

Definition lower_char (c : ascii) : ascii :=
  let n := nat_of_ascii c in
  if ((65 <=? n) && (n <=? 90))%nat then ascii_of_nat (n + 32) else c.

(** [s.lower()], on the ASCII letters. *)
Fixpoint lower (s : string) : string :=
  match s with
  | EmptyString => EmptyString
  | String c s' => String (lower_char c) (lower s')
  end.

Definition connect_to_db (cfg : settings) (W : world) : M unit :=
  try_except
    (emit Connect ;;;
     attempt (connect W) ;;;
     emit (LogInfo ("Connected to " ++ DB_HOST cfg)))
    (fun e =>
       emit (LogError ("Error connecting to database: " ++ text e)) ;;;
       raise e).

Definition list_databases (W : world) : M (list string) :=
  emit OpenCursor ;;;
  try_finally
    (try_except
       (emit (Execute "SHOW DATABASES" []) ;;;
        match show_databases W with
        | inl e => raise (Error e)
        | inr databases => ret databases
        end)
       (fun e =>
          emit (LogError ("Error listing databases: " ++ text e)) ;;;
          raise e))
    (emit CloseCursor).

Definition drop_database (W : world) (db_name : string) : M unit :=
  emit OpenCursor ;;;
  try_finally
    (try_except
       (emit (Execute ("DROP DATABASE IF EXISTS " ++ db_name) []) ;;;
        attempt (drop W db_name) ;;;
        emit (LogInfo ("Dropped database " ++ db_name)))
       (fun e =>
          emit (LogError ("Error dropping database " ++ db_name ++ ": "
                          ++ text e))))
    (emit CloseCursor).

Definition main (cfg : settings) (W : world) : M unit :=
  connect_to_db cfg W ;;;
  databases <~ list_databases W ;;
  let benchmark_dbs := filter (String.prefix (DB_PREFIX cfg)) databases in
  match benchmark_dbs with
  | [] =>
      emit (LogInfo ("No databases found with prefix " ++ DB_PREFIX cfg))
  | _ :: _ =>
      emit (LogInfo ("Found " ++ str (List.length benchmark_dbs)
                     ++ " benchmark databases:")) ;;;
      for_each benchmark_dbs (fun db => emit (LogInfo ("  - " ++ db))) ;;;
      emit (Input ("Do you want to drop these "
                   ++ str (List.length benchmark_dbs)
                   ++ " databases? (y/N): ")) ;;;
      let confirm := answer W in
      if negb (String.eqb (lower confirm) "y")
      then emit (LogInfo "Cleanup cancelled")
      else
        for_each benchmark_dbs (drop_database W) ;;;
        emit CloseConnection ;;;
        emit (LogInfo "Cleanup completed")
  end.

End Cleanup.

(** ** [generate_testdata.py] *)

Module Generate.

Import Db.

(** The settings the script reads from the environment. *)
Record settings := {
  DB_HOST : string;
  DB_PREFIX : string;
  NUM_DATABASES : Z;
  NUM_USERS : Z;
  NUM_PRODUCTS : Z;
  NUM_ORDERS : Z;
  NUM_ORDER_ITEMS : Z
}.

(** A [dict] of column names and values, in the order of insertion. *)
Definition row := list (string * value).

(** What [Faker] and [random] return for one row of each table. *)
Record user_draws := {
  user_name : string;
  user_email : string;
  user_first_name : string;
  user_last_name : string;
  user_status : nat
}.

Record product_draws := {
  product_name : string;
  product_description : string;
  product_price : Qc;
  product_category : nat;
  product_stock : Z
}.

Record order_draws := {
  order_user : nat;
  order_status : nat;
  order_total_amount : Qc;
  order_shipping_address : string;
  order_payment_method : nat
}.

Record order_item_draws := {
  item_quantity : Z;
  item_price : Qc;
  item_order : nat;
  item_product : nat
}.

(** What the outside decides for a run:
    - [connect]: whether [mysql.connector.connect] returns;
    - [respond tr]: whether the call of [cursor.execute] or
      [connection.commit] that ends the trace [tr] returns;
    - [lastrowid tr], [fetchall tr]: what the cursor holds after the trace
      [tr], the rows of [fetchall] by their first column;
    - the draws for the rows of each table of database number [db_num]. *)
Record world := {
  connect : option string;
  respond : list event -> option string;
  lastrowid : list event -> Z;
  fetchall : list event -> list Z;
  users : nat -> nat -> user_draws;
  products : nat -> nat -> product_draws;
  orders : nat -> nat -> order_draws;
  order_items : nat -> nat -> order_item_draws
}.

(** [str(n)] for an [int]. *)
Definition str_int (n : Z) : string :=
  if (n <? 0)%Z then "-" ++ str (Z.to_nat (- n)) else str (Z.to_nat n).

(** [random.choice] on a list that is not empty, [x :: l]; [r] is the index
    drawn. *)
Definition choice {A} (x : A) (l : list A) (r : nat) : A :=
  nth (r mod S (List.length l)) (x :: l) x.

(** [cursor.execute(sql, params)] *)
Definition execute (W : world) (sql : string) (params : list value)
  : M unit :=
  fun tr =>
    let tr' := tr ++ [Execute sql params] in
    match respond W tr' with
    | None => (tr', inr tt)
    | Some e => (tr', inl (Error e))
    end.

(** [connection.commit()] *)
Definition commit (W : world) : M unit :=
  fun tr =>
    let tr' := tr ++ [Commit] in
    match respond W tr' with
    | None => (tr', inr tt)
    | Some e => (tr', inl (Error e))
    end.

(** Reading an attribute of the cursor. *)
Definition ask {A} (f : list event -> A) : M A :=
  fun tr => (tr, inr (f tr)).

Definition connect_to_db (cfg : settings) (W : world) : M unit :=
  try_except
    (emit Connect ;;;
     attempt (connect W) ;;;
     emit (LogInfo ("Connected to " ++ DB_HOST cfg)))
    (fun e =>
       emit (LogError ("Error connecting to database: " ++ text e)) ;;;
       raise e).

Definition create_database (W : world) (db_name : string) : M unit :=
  emit OpenCursor ;;;
  try_finally
    (try_except
       (execute W ("DROP DATABASE IF EXISTS " ++ db_name) [] ;;;
        execute W ("CREATE DATABASE " ++ db_name) [] ;;;
        emit (LogInfo ("Created database " ++ db_name)))
       (fun e =>
          emit (LogError ("Error creating database: " ++ text e)) ;;;
          raise e))
    (emit CloseCursor).

Definition CREATE_USERS : string :=
  "
        CREATE TABLE users (
            id INT AUTO_INCREMENT PRIMARY KEY,
            username VARCHAR(50) NOT NULL,
            email VARCHAR(100) NOT NULL,
            first_name VARCHAR(50),
            last_name VARCHAR(50),
            created_at TIMESTAMP DEFAULT CURRENT_TIMESTAMP,
            status ENUM('active', 'inactive', 'suspended') DEFAULT 'active',
            INDEX idx_email (email),
            INDEX idx_status (status)
        )
        ".

Definition CREATE_PRODUCTS : string :=
  "
        CREATE TABLE products (
            id INT AUTO_INCREMENT PRIMARY KEY,
            name VARCHAR(100) NOT NULL,
            description TEXT,
            price DECIMAL(10,2) NOT NULL,
            category VARCHAR(50),
            stock INT DEFAULT 0,
            created_at TIMESTAMP DEFAULT CURRENT_TIMESTAMP,
            INDEX idx_category (category),
            INDEX idx_price (price)
        )
        ".

Definition CREATE_ORDERS : string :=
  "
        CREATE TABLE orders (
            id INT AUTO_INCREMENT PRIMARY KEY,
            user_id INT NOT NULL,
            order_date TIMESTAMP DEFAULT CURRENT_TIMESTAMP,
            status ENUM('pending', 'processing', 'shipped', 'delivered', 'cancelled') DEFAULT 'pending',
            total_amount DECIMAL(10,2) NOT NULL,
            shipping_address TEXT,
            payment_method VARCHAR(50),
            INDEX idx_user_id (user_id),
            INDEX idx_status (status),
            FOREIGN KEY (user_id) REFERENCES users(id) ON DELETE CASCADE
        )
        ".

Definition CREATE_ORDER_ITEMS : string :=
  "
        CREATE TABLE order_items (
            id INT AUTO_INCREMENT PRIMARY KEY,
            order_id INT NOT NULL,
            product_id INT NOT NULL,
            quantity INT NOT NULL DEFAULT 1,
            price DECIMAL(10,2) NOT NULL,
            INDEX idx_order_id (order_id),
            INDEX idx_product_id (product_id),
            FOREIGN KEY (order_id) REFERENCES orders(id) ON DELETE CASCADE,
            FOREIGN KEY (product_id) REFERENCES products(id) ON DELETE CASCADE
        )
        ".

Definition create_tables (W : world) (db_name : string) : M unit :=
  emit OpenCursor ;;;
  try_finally
    (try_except
       (execute W ("USE " ++ db_name) [] ;;;
        execute W CREATE_USERS [] ;;;
        emit (LogInfo ("Created table " ++ db_name ++ ".users")) ;;;
        execute W CREATE_PRODUCTS [] ;;;
        emit (LogInfo ("Created table " ++ db_name ++ ".products")) ;;;
        execute W CREATE_ORDERS [] ;;;
        emit (LogInfo ("Created table " ++ db_name ++ ".orders")) ;;;
        execute W CREATE_ORDER_ITEMS [] ;;;
        emit (LogInfo ("Created table " ++ db_name ++ ".order_items")))
       (fun e =>
          emit (LogError ("Error creating tables: " ++ text e)) ;;;
          raise e))
    (emit CloseCursor).

(** [range(0, stop, step)]: raises [ValueError] when [step] is zero, is
    empty when [step] is negative. *)
Definition range_step (stop : nat) (step : Z) : M (list nat) :=
  if (step =? 0)%Z then raise (Error "range() arg 3 must not be zero")
  else if (step <? 0)%Z then ret []
  else
    let step := Z.to_nat step in
    ret (map (fun k => k * step)%nat (seq 0 ((stop + step - 1) / step))).

(** [l[i:j]] for [0 <= i <= j]. *)
Definition slice {A} (l : list A) (i j : nat) : list A :=
  firstn (j - i) (skipn i l).

(** The statement and the parameters of one batch. *)
Definition insert_query (table_name columns placeholders : string)
    (batch : list row) : string * list value :=
  let values_list := map (fun _ => "(" ++ placeholders ++ ")")%string batch in
  let params := flat_map (fun data => map snd data) batch in
  ("INSERT INTO " ++ table_name ++ " (" ++ columns ++ ") VALUES "
   ++ String.concat ", " values_list,
   params)%string.

(** [for i in range(0, len(data_list), batch_size)], from the list of the
    values of [i]. *)
Fixpoint insert_batches (W : world) (table_name columns placeholders : string)
    (data_list : list row) (batch_size : Z) (starts : list nat)
    (inserted_ids : list Z) : M (list Z) :=
  match starts with
  | [] => ret inserted_ids
  | i :: starts' =>
      let batch := slice data_list i (i + Z.to_nat batch_size) in
      let '(query, params) :=
        insert_query table_name columns placeholders batch in
      execute W query params ;;;
      first_id <~ ask (lastrowid W) ;;
      insert_batches W table_name columns placeholders data_list batch_size
        starts'
        (inserted_ids ++
         map (fun j => (first_id + Z.of_nat j)%Z)
             (seq 0 (List.length batch)))
  end.

Definition insert_data (W : world) (db_name table_name : string)
    (data_list : list row) (batch_size : Z) : M (list Z) :=
  match data_list with
  | [] => ret []
  | first :: _ =>
      emit OpenCursor ;;;
      try_finally
        (try_except
           (execute W ("USE " ++ db_name) [] ;;;
            let columns := String.concat ", " (map fst first) in
            let placeholders :=
              String.concat ", " (repeat "%s"%string (List.length first)) in
            starts <~ range_step (List.length data_list) batch_size ;;
            inserted_ids <~
              insert_batches W table_name columns placeholders data_list
                batch_size starts [] ;;
            commit W ;;;
            execute W ("SELECT id FROM " ++ table_name ++ " ORDER BY id") [] ;;;
            actual_ids <~ ask (fetchall W) ;;
            emit (LogInfo ("Inserted " ++ str (List.length actual_ids)
                           ++ " rows into " ++ db_name ++ "." ++ table_name))
            ;;;
            ret actual_ids)
           (fun e =>
              emit (LogError ("Error inserting data into " ++ table_name
                              ++ ": " ++ text e)) ;;;
              raise e))
        (emit CloseCursor)
  end.

Definition generate_user_data (count : Z) (d : nat -> user_draws)
  : list row :=
  map (fun i =>
         [("username", VStr (user_name (d i)));
          ("email", VStr (user_email (d i)));
          ("first_name", VStr (user_first_name (d i)));
          ("last_name", VStr (user_last_name (d i)));
          ("status",
           VStr (choice "active" ["inactive"; "suspended"]
                        (user_status (d i))))]%string)
      (range count).

Definition generate_product_data (count : Z) (d : nat -> product_draws)
  : list row :=
  map (fun i =>
         [("name", VStr (product_name (d i)));
          ("description", VStr (product_description (d i)));
          ("price", VFloat (product_price (d i)));
          ("category",
           VStr (choice "Electronics"
                        ["Clothing"; "Books"; "Home"; "Sports"; "Beauty";
                         "Toys"; "Food"; "Health"; "Automotive"]
                        (product_category (d i))));
          ("stock", VInt (product_stock (d i)))]%string)
      (range count).

(** [if not ids: ids = [1]], then [random.choice(ids)]. *)
Definition choose_id (ids : list Z) (r : nat) : Z :=
  match ids with
  | [] => choice 1%Z [] r
  | id :: ids' => choice id ids' r
  end.

Definition generate_order_data (count : Z) (user_ids : list Z)
    (d : nat -> order_draws) : list row :=
  map (fun i =>
         [("user_id", VInt (choose_id user_ids (order_user (d i))));
          ("status",
           VStr (choice "pending"
                        ["processing"; "shipped"; "delivered"; "cancelled"]
                        (order_status (d i))));
          ("total_amount", VFloat (order_total_amount (d i)));
          ("shipping_address", VStr (order_shipping_address (d i)));
          ("payment_method",
           VStr (choice "credit_card"
                        ["paypal"; "bank_transfer"; "cash_on_delivery"]
                        (order_payment_method (d i))))]%string)
      (range count).

Definition generate_order_item_data (count : Z) (order_ids product_ids : list Z)
    (d : nat -> order_item_draws) : list row :=
  map (fun i =>
         let quantity := item_quantity (d i) in
         let price := item_price (d i) in
         [("order_id", VInt (choose_id order_ids (item_order (d i))));
          ("product_id", VInt (choose_id product_ids (item_product (d i))));
          ("quantity", VInt quantity);
          ("price", VFloat price)]%string)
      (range count).

(** The body of [for db_num in range(1, NUM_DATABASES + 1)]. *)
Definition provision (cfg : settings) (W : world) (db_num : nat) : M unit :=
  let db_name := (DB_PREFIX cfg ++ "test" ++ str db_num)%string in
  emit (LogInfo ("Creating database " ++ str db_num ++ "/"
                 ++ str_int (NUM_DATABASES cfg) ++ ": " ++ db_name)) ;;;
  create_database W db_name ;;;
  create_tables W db_name ;;;
  emit (LogInfo ("  Inserting " ++ str_int (NUM_USERS cfg) ++ " users..."))
  ;;;
  user_ids <~ insert_data W db_name "users"
                (generate_user_data (NUM_USERS cfg) (users W db_num)) 1000 ;;
  emit (LogInfo ("  Inserting " ++ str_int (NUM_PRODUCTS cfg)
                 ++ " products...")) ;;;
  product_ids <~ insert_data W db_name "products"
                   (generate_product_data (NUM_PRODUCTS cfg)
                      (products W db_num)) 1000 ;;
  emit (LogInfo ("  Inserting " ++ str_int (NUM_ORDERS cfg) ++ " orders..."))
  ;;;
  order_ids <~ insert_data W db_name "orders"
                 (generate_order_data (NUM_ORDERS cfg) user_ids
                    (orders W db_num)) 1000 ;;
  emit (LogInfo ("  Inserting " ++ str_int (NUM_ORDER_ITEMS cfg)
                 ++ " order items...")) ;;;
  insert_data W db_name "order_items"
    (generate_order_item_data (NUM_ORDER_ITEMS cfg) order_ids product_ids
       (order_items W db_num)) 1000 ;;;
  emit (LogInfo ("Database " ++ db_name ++ " completed successfully")).

Definition main (cfg : settings) (W : world) : M unit :=
  connect_to_db cfg W ;;;
  emit (LogInfo ("Creating " ++ str_int (NUM_DATABASES cfg)
                 ++ " database(s) with test data...")) ;;;
  for_each (seq 1 (Z.to_nat (NUM_DATABASES cfg))) (provision cfg W) ;;;
  emit CloseConnection ;;;
  emit (LogInfo ("All " ++ str_int (NUM_DATABASES cfg)
                 ++ " database(s) created successfully")).

End Generate.

(** * Vocabulary of the properties *)

(** [c] occurs in [s]. *)
Fixpoint occurs (c : ascii) (s : string) : bool :=
  match s with
  | EmptyString => false
  | String c' s' => Ascii.eqb c c' || occurs c s'
  end.

(** The connection phase of a worker goes through: a database name is drawn,
    [connect] and [cursor] return. *)
Definition connected (cfg : config) (w : worker_world) : bool :=
  match random_choice (DB_NAMES cfg) (pick w) with
  | Some _ => connects w
  | None => false
  end.

(** The worker leaves through [return query_times, errors]. *)
Definition completes (cfg : config) (w : worker_world) : bool :=
  connected cfg w && closes w.

(** Iteration [i] runs to the end of its [try] body. *)
Definition succeeded (w : worker_world) (i : nat) : bool :=
  match outcome w i with
  | Some _ => true
  | None => false
  end.

(** The Query Record of iteration [i], if its query succeeds. *)
Definition record_of (w : worker_world) (i : nat)
  : list (query_type * Qc) :=
  match outcome w i with
  | Some t => [(draw w i, t)]
  | None => []
  end.

Definition records (cfg : config) (w : worker_world)
  : list (query_type * Qc) :=
  flat_map (record_of w) (range (QUERIES_PER_THREAD cfg)).

Definition successes (cfg : config) (w : worker_world) : nat :=
  List.length (filter (succeeded w) (range (QUERIES_PER_THREAD cfg))).

Definition failures (cfg : config) (w : worker_world) : nat :=
  List.length
    (filter (fun i => negb (succeeded w i)) (range (QUERIES_PER_THREAD cfg))).

Definition is_sleep (e : event) : bool :=
  match e with
  | Sleep _ => true
  | _ => false
  end.

(** The number of calls of [time.sleep] in a trace. *)
Definition sleeps (tr : list event) : nat :=
  List.length (filter is_sleep tr).

(** The durations held for [k]; none when [k] is not a key. *)
Definition times_of (d : dict) (k : query_type) : list Qc :=
  match dict_get d k with
  | Some times => times
  | None => []
  end.

(** The durations of the records of type [k], in order. *)
Definition durations_of (k : query_type) (qs : list (query_type * Qc))
  : list Qc :=
  map snd (filter (fun r => query_type_eqb (fst r) k) qs).

Definition nonempty_values (d : dict) : Prop :=
  Forall (fun kv => snd kv <> []) d.

(** All Query Records the workers returned, in the order of the merge. *)
Definition all_records (results : list (list (query_type * Qc) * nat))
  : list (query_type * Qc) :=
  List.concat (map fst results).

(** The block of log lines the report holds for query type [k]. *)
Definition kind_line (ks : list kind_stats) (k : query_type)
  : option kind_stats :=
  find (fun s => query_type_eqb k (kind s)) ks.

(** What the report loop prints for [k], read off the dictionary. *)
Definition block_of (d : dict) (k : query_type) : option kind_stats :=
  match dict_get d k with
  | Some times =>
      match kind_block k times with
      | inr s => Some s
      | inl _ => None
      end
  | None => None
  end.

(** [m] is a smallest element of [l]. *)
Definition least (l : list Qc) (m : Qc) : Prop :=
  In m l /\ forall y, In y l -> (m <= y)%Qc.

(** [m] is a largest element of [l]. *)
Definition greatest (l : list Qc) (m : Qc) : Prop :=
  In m l /\ forall y, In y l -> (y <= m)%Qc.

(** [end_time - start_time] *)
Definition run_duration (W : world) : Qc :=
  (end_time W - start_time W)%Qc.

(** The workers that leave through [return query_times, errors]. *)
Definition finished (cfg : config) (W : world) : nat :=
  List.length
    (filter (fun i => completes cfg (worker W i)) (range (NUM_THREADS cfg))).

(** The workers that leave through the outer [except]. *)
Definition aborted (cfg : config) (W : world) : nat :=
  List.length
    (filter (fun i => negb (completes cfg (worker W i)))
            (range (NUM_THREADS cfg))).

(** The number of queries of the run that ran to the end of their [try]
    body and whose worker returned its records. *)
Definition successful_queries (cfg : config) (W : world) : nat :=
  list_sum
    (map (fun i => if completes cfg (worker W i)
                   then successes cfg (worker W i) else 0)
         (range (NUM_THREADS cfg))).

(** The results of all workers but [k], in the order of the merge. *)
Definition other_results (cfg : config) (W : world) (k : nat)
  : list (list (query_type * Qc) * nat) :=
  map (future_result cfg W)
      (filter (fun i => negb (Nat.eqb i k)) (range (NUM_THREADS cfg))).

(** The report the collector makes of the workers' results. *)
Definition report_of (results : list (list (query_type * Qc) * nat))
    (total_duration : Qc) : result report :=
  summarise (fst (collect results)) (snd (collect results)) total_duration.

(** [e] is a statement sent to the database. *)
Definition is_execute (e : event) : bool :=
  match e with
  | Execute _ => true
  | _ => false
  end.

(** The number of statements sent in a trace. *)
Definition executes (tr : list event) : nat :=
  List.length (filter is_execute tr).

(** The user names of the INSERT statements of a trace, in order. *)
Definition inserted_usernames (tr : list event) : list string :=
  flat_map (fun e => match e with
                     | Execute (InsertUser username _ _ _ _) => [username]
                     | _ => []
                     end) tr.

(** The trace of worker [i] in a run. *)
Definition worker_trace (cfg : config) (W : world) (i : nat) : list event :=
  trace (run_benchmark_thread_traced cfg i (worker W i)).

(** [k] is among [ks]. *)
Definition seen (ks : list query_type) (k : query_type) : bool :=
  existsb (query_type_eqb k) ks.

(** The query types of [ks], each once, in the order of their first
    occurrence. *)
Definition first_seen (ks : list query_type) : list query_type :=
  fold_left (fun acc k => if seen acc k then acc else acc ++ [k]) ks [].

(** ** Vocabulary for the scripts *)

(** The statements of a trace, in order. *)
Definition executed (tr : list Db.event) : list string :=
  flat_map (fun e => match e with
                     | Db.Execute sql _ => [sql]
                     | _ => []
                     end) tr.

(** The number of cursors opened, and closed, in a trace. *)
Definition cursors_opened (tr : list Db.event) : nat :=
  List.length (filter (fun e => match e with
                                | Db.OpenCursor => true
                                | _ => false
                                end) tr).

Definition cursors_closed (tr : list Db.event) : nat :=
  List.length (filter (fun e => match e with
                                | Db.CloseCursor => true
                                | _ => false
                                end) tr).

(** [f"DROP DATABASE IF EXISTS {db_name}"] *)
Definition drop_statement (db_name : string) : string :=
  ("DROP DATABASE IF EXISTS " ++ db_name)%string.

(** The events of one call of [drop_database]. *)
Definition drop_events (W : Cleanup.world) (db_name : string)
  : list Db.event :=
  [Db.OpenCursor; Db.Execute (drop_statement db_name) []] ++
  [match Cleanup.drop W db_name with
   | None => Db.LogInfo ("Dropped database " ++ db_name)
   | Some e =>
       Db.LogError ("Error dropping database " ++ db_name ++ ": " ++ e)
   end] ++
  [Db.CloseCursor].

(** The databases the cleanup selects among [databases]. *)
Definition selected (cfg : Cleanup.settings) (databases : list string)
  : list string :=
  filter (String.prefix (Cleanup.DB_PREFIX cfg)) databases.

(** The events of the cleanup up to the listing, when connecting and
    listing go through. *)
Definition listing_events (cfg : Cleanup.settings) : list Db.event :=
  [Db.Connect; Db.LogInfo ("Connected to " ++ Cleanup.DB_HOST cfg);
   Db.OpenCursor; Db.Execute "SHOW DATABASES" []; Db.CloseCursor].

(** The events from the listing to the prompt, when some database is
    selected. *)
Definition prompt_events (dbs : list string) : list Db.event :=
  [Db.LogInfo ("Found " ++ str (List.length dbs) ++ " benchmark databases:")]
  ++ map (fun db => Db.LogInfo ("  - " ++ db)) dbs
  ++ [Db.Input ("Do you want to drop these " ++ str (List.length dbs)
                ++ " databases? (y/N): ")].

(** The statements of a trace with their parameters, in order. *)
Definition statements (tr : list Db.event) : list (string * list Db.value) :=
  flat_map (fun e => match e with
                     | Db.Execute sql params => [(sql, params)]
                     | _ => []
                     end) tr.

(** [f"CREATE DATABASE {db_name}"] *)
Definition create_statement (db_name : string) : string :=
  ("CREATE DATABASE " ++ db_name)%string.

(** [s] without its prefix [p], when it starts with [p]. *)
Fixpoint strip_prefix (p s : string) : option string :=
  match p, s with
  | EmptyString, _ => Some s
  | String a p', String b s' =>
      if Ascii.eqb a b then strip_prefix p' s' else None
  | String _ _, EmptyString => None
  end.

(** The names of the databases for which a trace sends [CREATE DATABASE],
    in order. *)
Definition created_databases (tr : list Db.event) : list string :=
  flat_map (fun sql => match strip_prefix "CREATE DATABASE " sql with
                       | Some db_name => [db_name]
                       | None => []
                       end)
           (executed tr).

(** The server never raises: every [execute] and [commit] returns. *)
Definition quiet (W : Generate.world) : Prop :=
  forall tr, Generate.respond W tr = None.

(** The batches [insert_data] cuts [data_list] into, for a positive batch
    size. *)
Definition batches {A} (data_list : list A) (batch_size : nat)
  : list (list A) :=
  map (fun k => Generate.slice data_list (k * batch_size)
                               (k * batch_size + batch_size))
      (seq 0 ((List.length data_list + batch_size - 1) / batch_size)).

(** The columns and the placeholders [insert_data] derives from the first
    row. *)
Definition columns_of (first : Generate.row) : string :=
  String.concat ", " (map fst first).

Definition placeholders_of (first : Generate.row) : string :=
  String.concat ", " (repeat "%s"%string (List.length first)).

(** The event of the INSERT of one batch. *)
Definition insert_event (table_name : string) (first : Generate.row)
    (batch : list Generate.row) : Db.event :=
  let '(query, params) :=
    Generate.insert_query table_name (columns_of first)
                          (placeholders_of first) batch in
  Db.Execute query params.

(** [row[column]] *)
Fixpoint field (r : Generate.row) (column : string) : option Db.value :=
  match r with
  | [] => None
  | (c, v) :: r' => if String.eqb c column then Some v else field r' column
  end.

(** Every run of [m] extends the trace by events that satisfy [P]. *)
Definition extends {A} (P : list Db.event -> Prop) (m : Db.M A) : Prop :=
  forall tr, exists ev, fst (m tr) = tr ++ ev /\ P ev.

(** As many cursors closed as opened. *)
Definition balanced (ev : list Db.event) : Prop :=
  cursors_closed ev = cursors_opened ev.


(** The events that neither open nor close a cursor or the connection. *)
Definition neutral (e : Db.event) : bool :=
  match e with
  | Db.OpenCursor | Db.CloseCursor | Db.CloseConnection => false
  | _ => true
  end.


(** The event of the batch of [data_list] that starts at [i]. *)
Definition batch_event (table_name : string) (first : Generate.row)
    (data_list : list Generate.row) (batch_size : Z) (i : nat) : Db.event :=
  insert_event table_name first
    (Generate.slice data_list i (i + Z.to_nat batch_size)).

(** Every run of [m] returns, and the events it adds send [CREATE DATABASE]
    for the databases [names], in order. *)
Definition creates {A} (names : list string) (m : Db.M A) : Prop :=
  forall tr, exists ev a,
    m tr = (tr ++ ev, inr a) /\ created_databases ev = names.

(** The number of occurrences of [c] in [s]. *)
Fixpoint count_char (c : ascii) (s : string) : nat :=
  match s with
  | EmptyString => 0
  | String c' s' => (if Ascii.eqb c c' then 1 else 0) + count_char c s'
  end.


(** The first of the calls [calls], made one after the other from the trace
    [tr], that the server lets raise: the trace up to that call and the text
    of its exception; [None] when the server lets every call return. *)
Fixpoint refusal (W : Generate.world) (tr : list Db.event)
    (calls : list Db.event) : option (list Db.event * string) :=
  match calls with
  | [] => None
  | c :: calls' =>
      match Generate.respond W (tr ++ [c]) with
      | Some e => Some (tr ++ [c], e)
      | None => refusal W (tr ++ [c]) calls'
      end
  end.

(** The statements [insert_data] sends before it commits, for a positive
    batch size: [USE], then one INSERT for each batch. *)
Definition insert_calls (db_name table_name : string)
    (data_list : list Generate.row) (batch_size : Z) : list Db.event :=
  Db.Execute ("USE " ++ db_name) [] ::
  map (insert_event table_name (hd [] data_list))
      (batches data_list (Z.to_nat batch_size)).

(** The calls with which [insert_data] ends: the commit, and the SELECT
    whose rows it returns. *)
Definition read_back_calls (table_name : string) : list Db.event :=
  [Db.Commit;
   Db.Execute ("SELECT id FROM " ++ table_name ++ " ORDER BY id") []].

(** * Sample configurations and worlds *)

Module Bench.

Definition cfg : config :=
  {| DB_PREFIX := "bench_"; NUM_DATABASES := 2;
     NUM_THREADS := 2; QUERIES_PER_THREAD := 3 |}.

Definition ms (n : Z) : Qc := Q2Qc (n # 1000).

(** A worker whose second query raises. *)
Definition flaky : worker_world :=
  {| pick := 3; connects := true;
     draw := fun i => match i with 0 => INSERT | 1 => UPDATE | _ => SELECT end;
     outcome := fun i => match i with 1 => None | _ => Some (ms 5) end;
     closes := true |}.

(** A worker that cannot connect. *)
Definition offline : worker_world :=
  {| pick := 0; connects := false;
     draw := fun _ => SELECT; outcome := fun _ => Some (ms 1);
     closes := true |}.

(** A worker all of whose queries return. *)
Definition healthy : worker_world :=
  {| pick := 0; connects := true;
     draw := fun _ => SELECT; outcome := fun _ => Some (ms 1);
     closes := true |}.

(** A worker all of whose queries raise. *)
Definition failing : worker_world :=
  {| pick := 0; connects := true;
     draw := fun _ => SELECT; outcome := fun _ => None;
     closes := true |}.

(** A worker whose [close] raises after two good queries of three. *)
Definition unclosed : worker_world :=
  {| pick := 0; connects := true;
     draw := fun _ => UPDATE;
     outcome := fun i => match i with 0 => None | _ => Some (ms 2) end;
     closes := false |}.

End Bench.

Module Runs.

Import Bench.

(** Worker 0 loses one query of three, worker 1 cannot connect. *)
Definition mixed : world :=
  {| start_time := Q2Qc 100; end_time := Q2Qc 102;
     worker := fun i => match i with 0 => flaky | _ => offline end |}.

(** Every worker connects and closes. *)
Definition steady : world :=
  {| start_time := Q2Qc 100; end_time := Q2Qc 102;
     worker := fun _ => flaky |}.

(** Worker 0 cannot close its connection. *)
Definition leaky : world :=
  {| start_time := Q2Qc 100; end_time := Q2Qc 102;
     worker := fun i => match i with 0 => unclosed | _ => flaky end |}.

(** One worker, one query. *)
Definition single : config :=
  {| DB_PREFIX := "bench_"; NUM_DATABASES := 1;
     NUM_THREADS := 1; QUERIES_PER_THREAD := 1 |}.

(** No worker. *)
Definition nobody : config :=
  {| DB_PREFIX := "bench_"; NUM_DATABASES := 1;
     NUM_THREADS := 0; QUERIES_PER_THREAD := 5 |}.

(** Two workers, no query. *)
Definition idle : config :=
  {| DB_PREFIX := "bench_"; NUM_DATABASES := 1;
     NUM_THREADS := 2; QUERIES_PER_THREAD := 0 |}.

(** Two workers of three queries, and no database to pick. *)
Definition unprovisioned : config :=
  {| DB_PREFIX := "bench_"; NUM_DATABASES := 0;
     NUM_THREADS := 2; QUERIES_PER_THREAD := 3 |}.

End Runs.

Module Merged.

Definition first : list (query_type * Qc) * nat :=
  ([(SELECT, Bench.ms 5)], 0).

Definition second : list (query_type * Qc) * nat :=
  ([(INSERT, Bench.ms 2); (SELECT, Bench.ms 1)], 1).

End Merged.

Module Servers.

(** A server with two benchmark databases among its own; the second cannot
    be dropped. *)
Definition busy (answer : string) : Cleanup.world :=
  {| Cleanup.connect := None;
     Cleanup.show_databases :=
       inr ["information_schema"; "bench_test1"; "mysql"; "bench_test2"];
     Cleanup.answer := answer;
     Cleanup.drop := fun db =>
       if String.eqb db "bench_test2" then Some "access denied" else None |}.

(** A server that refuses the connection. *)
Definition down : Cleanup.world :=
  {| Cleanup.connect := Some "refused";
     Cleanup.show_databases := inr [];
     Cleanup.answer := "y";
     Cleanup.drop := fun _ => None |}.

(** A server that does not answer [SHOW DATABASES]. *)
Definition mute : Cleanup.world :=
  {| Cleanup.connect := None;
     Cleanup.show_databases := inl "timeout";
     Cleanup.answer := "y";
     Cleanup.drop := fun _ => None |}.

Definition bench : Cleanup.settings :=
  {| Cleanup.DB_HOST := "db1"; Cleanup.DB_PREFIX := "bench_" |}.

Definition unprefixed : Cleanup.settings :=
  {| Cleanup.DB_HOST := "db1"; Cleanup.DB_PREFIX := "" |}.

End Servers.

Module Provision.

Import Generate.

Definition small : settings :=
  {| DB_HOST := "db1"; DB_PREFIX := "bench_"; NUM_DATABASES := 2;
     NUM_USERS := 3; NUM_PRODUCTS := 2; NUM_ORDERS := 2;
     NUM_ORDER_ITEMS := 1 |}.

Definition some_user (i : nat) : user_draws :=
  {| user_name := "ann"; user_email := "ann@example.org";
     user_first_name := "Ann"; user_last_name := "Lee";
     user_status := i |}.

Definition some_product (i : nat) : product_draws :=
  {| product_name := "Lamp"; product_description := "A lamp";
     product_price := Q2Qc (995 # 100); product_category := i;
     product_stock := 7 |}.

Definition some_order (i : nat) : order_draws :=
  {| order_user := i; order_status := i;
     order_total_amount := Q2Qc (2550 # 100);
     order_shipping_address := "1 Main St";
     order_payment_method := i |}.

Definition some_item (i : nat) : order_item_draws :=
  {| item_quantity := 2; item_price := Q2Qc (500 # 100);
     item_order := i; item_product := S i |}.

(** A server on which every statement returns; the tables read back hold
    the ids 1, 2 and 3. *)
Definition calm : world :=
  {| connect := None;
     respond := fun _ => None;
     lastrowid := fun _ => 1%Z;
     fetchall := fun _ => [1; 2; 3]%Z;
     users := fun _ => some_user;
     products := fun _ => some_product;
     orders := fun _ => some_order;
     order_items := fun _ => some_item |}.

(** A server that cannot create the second database. *)
Definition full : world :=
  {| connect := None;
     respond := fun tr =>
       match last tr Db.Connect with
       | Db.Execute sql _ =>
           if String.eqb sql "CREATE DATABASE bench_test2"
           then Some "disk full" else None
       | _ => None
       end;
     lastrowid := fun _ => 1%Z;
     fetchall := fun _ => [1; 2; 3]%Z;
     users := fun _ => some_user;
     products := fun _ => some_product;
     orders := fun _ => some_order;
     order_items := fun _ => some_item |}.

(** A server on which no database can be dropped. *)
Definition readonly : world :=
  {| connect := None;
     respond := fun tr =>
       match last tr Db.Connect with
       | Db.Execute sql _ =>
           if String.prefix "DROP DATABASE" sql
           then Some "read only" else None
       | _ => None
       end;
     lastrowid := fun _ => 1%Z;
     fetchall := fun _ => [1; 2; 3]%Z;
     users := fun _ => some_user;
     products := fun _ => some_product;
     orders := fun _ => some_order;
     order_items := fun _ => some_item |}.

(** A server that refuses a statement with exactly one parameter. *)
Definition choosy : world :=
  {| connect := None;
     respond := fun tr =>
       match last tr Db.Connect with
       | Db.Execute _ [_] => Some "odd row"
       | _ => None
       end;
     lastrowid := fun _ => 1%Z;
     fetchall := fun _ => [1; 2; 3]%Z;
     users := fun _ => some_user;
     products := fun _ => some_product;
     orders := fun _ => some_order;
     order_items := fun _ => some_item |}.

(** Five rows of one column. *)
Definition five : list row :=
  map (fun n => [("n", Db.VInt n)]%string) [1; 2; 3; 4; 5]%Z.

End Provision.

(** * Properties *)

(** ** The identities of inserted rows *)

Example str_0 : str 0 = "0"%string.
Proof. reflexivity. Qed.

Example str_120 : str 120 = "120"%string.
Proof. reflexivity. Qed.

Example username_3_14 : username 3 14 = "user_3_14"%string.
Proof. reflexivity. Qed.

Example email_3_14 : email (username 3 14) = "user_3_14@example.com"%string.
Proof. reflexivity. Qed.

Module Text.

Lemma digits_no_underscore (d : Decimal.uint) :
  occurs "_" (NilEmpty.string_of_uint d) = false.
Proof.
  induction d; simpl; auto.
Qed.

Lemma str_no_underscore (n : nat) : occurs "_" (str n) = false.
Proof. apply digits_no_underscore. Qed.

Lemma str_inj (n m : nat) : str n = str m -> n = m.
Proof.
  unfold str. intros H.
  apply DecimalNat.Unsigned.to_uint_inj.
  pose proof (NilEmpty.usu (Nat.to_uint n)) as Hn.
  pose proof (NilEmpty.usu (Nat.to_uint m)) as Hm.
  rewrite H in Hn. congruence.
Qed.

(** Two texts cut at their first [c] are equal piece by piece. *)
Lemma split_at_first (c : ascii) :
  forall a a' b b' : string,
    occurs c a = false -> occurs c a' = false ->
    (a ++ String c b = a' ++ String c b')%string ->
    a = a' /\ b = b'.
Proof.
  induction a as [|x a IH]; intros [|x' a'] b b' Ha Ha' E; simpl in *.
  - injection E as E. auto.
  - injection E as Ec E. subst x'.
    rewrite Ascii.eqb_refl in Ha'. discriminate.
  - injection E as Ec E. subst x.
    rewrite Ascii.eqb_refl in Ha. discriminate.
  - injection E as Ec E. subst x'.
    apply orb_false_iff in Ha as [_ Ha].
    apply orb_false_iff in Ha' as [_ Ha'].
    destruct (IH a' b b' Ha Ha' E) as [-> ->]. auto.
Qed.

Lemma length_append (s t : string) :
  String.length (s ++ t) = (String.length s + String.length t)%nat.
Proof.
  induction s; simpl; auto.
Qed.

Lemma append_inj_l (t : string) :
  forall s s' : string, (s ++ t = s' ++ t)%string -> s = s'.
Proof.
  induction s as [|x s IH]; intros [|x' s'] E; simpl in *.
  - reflexivity.
  - apply (f_equal String.length) in E. simpl in E.
    rewrite length_append in E. lia.
  - apply (f_equal String.length) in E. simpl in E.
    rewrite length_append in E. lia.
  - injection E as -> E. f_equal. auto.
Qed.

End Text.

Lemma username_inj (t i t' i' : nat) :
  username t i = username t' i' -> t = t' /\ i = i'.
Proof.
  unfold username. simpl. intros E. injection E as E.
  apply Text.split_at_first in E; auto using Text.str_no_underscore.
  destruct E as [Ht Hi]. split; apply Text.str_inj; assumption.
Qed.

Lemma email_inj (u u' : string) : email u = email u' -> u = u'.
Proof. apply Text.append_inj_l. Qed.

(** C5: two distinct (worker id, iteration index) pairs give distinct user
    names, distinct e-mail addresses and distinct INSERT statements. *)
Theorem insert_identity_injective (thread_id i thread_id' i' : nat) :
  (thread_id, i) <> (thread_id', i') ->
  username thread_id i <> username thread_id' i' /\
  email (username thread_id i) <> email (username thread_id' i') /\
  statement_of INSERT thread_id i <> statement_of INSERT thread_id' i'.
Proof.
  intros Hne.
  assert (Hu : username thread_id i <> username thread_id' i').
  { intros E. apply username_inj in E as [-> ->]. now apply Hne. }
  repeat split.
  - exact Hu.
  - intros E. apply email_inj in E. contradiction.
  - intros E. apply Hu.
    change (statement_of INSERT thread_id i)
      with (InsertUser (username thread_id i) (email (username thread_id i))
              "First" "Last" "active") in E.
    change (statement_of INSERT thread_id' i')
      with (InsertUser (username thread_id' i')
              (email (username thread_id' i')) "First" "Last" "active") in E.
    congruence.
Qed.

Lemma insert_identity_injective_witness :
  (1, 23) <> (12, 3) /\
  username 1 23 <> username 12 3 /\
  email (username 1 23) <> email (username 12 3) /\
  statement_of INSERT 1 23 <> statement_of INSERT 12 3.
Proof.
  assert (H : (1, 23) <> (12, 3)) by discriminate.
  split; [exact H | exact (insert_identity_injective 1 23 12 3 H)].
Defined.

(** ** The worker loop *)

Example flaky_run :
  run_benchmark_thread_traced Bench.cfg 7 Bench.flaky =
  {| query_times := [(INSERT, Bench.ms 5); (SELECT, Bench.ms 5)];
     errors := 1;
     trace :=
       [Connect "bench_test2";
        Execute (InsertUser "user_7_0" "user_7_0@example.com"
                            "First" "Last" "active");
        Sleep Num.tenth;
        Execute UpdateStatus; LogError 7;
        Execute SelectUsers; Sleep Num.tenth;
        Close] |}.
Proof. reflexivity. Qed.

Example offline_run :
  run_benchmark_thread Bench.cfg 1 Bench.offline = ([], 1).
Proof. reflexivity. Qed.

Section Loop.

Variables (thread_id : nat) (w : worker_world).

Lemma loop_query_times (l : list nat) (st : worker_state) :
  query_times (fold_left (iteration thread_id w) l st) =
  query_times st ++ flat_map (record_of w) l.
Proof.
  revert st. induction l as [|i l IH]; intros st; simpl.
  - now rewrite app_nil_r.
  - rewrite IH. unfold iteration, record_of.
    destruct (outcome w i); simpl; [now rewrite <- app_assoc | reflexivity].
Qed.

Lemma loop_errors (l : list nat) (st : worker_state) :
  errors (fold_left (iteration thread_id w) l st) =
  errors st + List.length (filter (fun i => negb (succeeded w i)) l).
Proof.
  revert st. induction l as [|i l IH]; intros st; simpl.
  - lia.
  - rewrite IH. unfold iteration, succeeded.
    destruct (outcome w i); simpl; lia.
Qed.

Lemma sleeps_app (tr tr' : list event) :
  sleeps (tr ++ tr') = sleeps tr + sleeps tr'.
Proof.
  unfold sleeps. now rewrite filter_app, length_app.
Qed.

Lemma iteration_sleeps (st : worker_state) (i : nat) :
  sleeps (trace (iteration thread_id w st i)) =
  sleeps (trace st) + (if succeeded w i then 1 else 0).
Proof.
  unfold iteration, succeeded.
  destruct (outcome w i); simpl; rewrite sleeps_app; reflexivity.
Qed.

Lemma loop_sleeps (l : list nat) (st : worker_state) :
  sleeps (trace (fold_left (iteration thread_id w) l st)) =
  sleeps (trace st) + List.length (filter (succeeded w) l).
Proof.
  revert st. induction l as [|i l IH]; intros st; simpl.
  - lia.
  - rewrite IH, iteration_sleeps.
    destruct (succeeded w i); simpl; lia.
Qed.

(** Every iteration leaves one Query Record or one error. *)
Lemma records_or_failures (l : list nat) :
  List.length (flat_map (record_of w) l) +
  List.length (filter (fun i => negb (succeeded w i)) l) = List.length l.
Proof.
  induction l as [|i l IH]; simpl; [reflexivity|].
  rewrite length_app. unfold record_of, succeeded in *.
  destruct (outcome w i); simpl; lia.
Qed.

Lemma records_are_successes (l : list nat) :
  List.length (flat_map (record_of w) l) =
  List.length (filter (succeeded w) l).
Proof.
  induction l as [|i l IH]; simpl; [reflexivity|].
  rewrite length_app. unfold record_of, succeeded in *.
  destruct (outcome w i); simpl; lia.
Qed.

End Loop.

Lemma length_range (n : Z) : List.length (range n) = Z.to_nat n.
Proof. apply length_seq. Qed.

Lemma records_plus_failures (cfg : config) (w : worker_world) :
  List.length (records cfg w) + failures cfg w =
  Z.to_nat (QUERIES_PER_THREAD cfg).
Proof.
  unfold records, failures.
  now rewrite records_or_failures, length_range.
Qed.

Lemma length_records (cfg : config) (w : worker_world) :
  List.length (records cfg w) = successes cfg w.
Proof. apply records_are_successes. Qed.

(** A worker that gets through returns its records and its error count. *)
Lemma run_completes (cfg : config) (thread_id : nat) (w : worker_world) :
  completes cfg w = true ->
  run_benchmark_thread cfg thread_id w = (records cfg w, failures cfg w).
Proof.
  unfold completes, connected, run_benchmark_thread,
    run_benchmark_thread_traced, query_loop.
  destruct (random_choice (DB_NAMES cfg) (pick w)); [|discriminate].
  destruct (connects w); [|discriminate].
  destruct (closes w); [|discriminate].
  intros _. simpl. now rewrite loop_query_times, loop_errors.
Qed.

(** A worker that leaves through the outer [except] returns [[], 1]. *)
Lemma run_fails (cfg : config) (thread_id : nat) (w : worker_world) :
  completes cfg w = false ->
  run_benchmark_thread cfg thread_id w = ([], 1).
Proof.
  unfold completes, connected, run_benchmark_thread,
    run_benchmark_thread_traced.
  destruct (random_choice (DB_NAMES cfg) (pick w)); [|reflexivity].
  destruct (connects w); [|reflexivity].
  destruct (closes w); [discriminate|reflexivity].
Qed.

(** ** Order and division on durations *)

Module NumFacts.

Lemma ltb_lt (x y : Qc) : Num.ltb x y = true <-> (x < y)%Qc.
Proof.
  unfold Num.ltb. rewrite Qclt_alt.
  destruct (x ?= y)%Qc; split; congruence.
Qed.

Lemma ltb_ge (x y : Qc) : Num.ltb x y = false <-> (y <= x)%Qc.
Proof.
  split; intros H.
  - apply Qcnot_lt_le. intros L. apply ltb_lt in L. congruence.
  - destruct (Num.ltb x y) eqn:E; [|reflexivity].
    apply ltb_lt in E. now apply Qcle_not_lt in H.
Qed.

Lemma leb_le (x y : Qc) : Num.leb x y = true <-> (x <= y)%Qc.
Proof.
  unfold Num.leb. rewrite Qcle_alt.
  destruct (x ?= y)%Qc; split; congruence.
Qed.

Lemma leb_gt (x y : Qc) : Num.leb x y = false <-> (y < x)%Qc.
Proof.
  split; intros H.
  - apply Qcnot_le_lt. intros L. apply leb_le in L. congruence.
  - destruct (Num.leb x y) eqn:E; [|reflexivity].
    apply leb_le in E. now apply Qclt_not_le in H.
Qed.

Lemma eq_bool_neq (x y : Qc) : x <> y -> Qc_eq_bool x y = false.
Proof.
  unfold Qc_eq_bool. destruct (Qc_eq_dec x y); congruence.
Qed.

Lemma eq_bool_eq (x y : Qc) : Qc_eq_bool x y = true <-> x = y.
Proof.
  unfold Qc_eq_bool. destruct (Qc_eq_dec x y); split; congruence.
Qed.

Lemma of_nat_S_nonzero (n : nat) : Num.of_nat (S n) <> 0%Qc.
Proof.
  unfold Num.of_nat. intros E. apply Q2Qc_eq_iff in E.
  unfold Qeq in E. simpl in E. lia.
Qed.

Lemma positive_nonzero (x : Qc) : (0 < x)%Qc -> x <> 0%Qc.
Proof.
  intros H E. subst x. revert H. apply Qcle_not_lt, Qcle_refl.
Qed.

Lemma two_nonzero : Qc_eq_bool Num.two 0%Qc = false.
Proof. reflexivity. Qed.

Lemma zero_div (x : Qc) : (0 / x)%Qc = 0%Qc.
Proof. unfold Qcdiv. apply Qcmult_0_l. Qed.

(** Division by a non-zero number does not raise. *)
Lemma truediv_nonzero (x y : Qc) :
  y <> 0%Qc -> truediv x y = inr (x / y)%Qc.
Proof.
  intros H. unfold truediv. now rewrite eq_bool_neq.
Qed.

End NumFacts.

(** ** The dictionary of durations *)

Lemma query_type_eqb_spec (a b : query_type) :
  reflect (a = b) (query_type_eqb a b).
Proof.
  destruct a, b; simpl; constructor; congruence.
Qed.

Lemma query_type_eqb_refl (a : query_type) : query_type_eqb a a = true.
Proof. now destruct a. Qed.

Section Dict.

Implicit Types (d : dict) (k : query_type) (v : list Qc).

Lemma dict_get_set_same d k v : dict_get (dict_set d k v) k = Some v.
Proof.
  induction d as [|[k' v'] d IH]; simpl.
  - now rewrite query_type_eqb_refl.
  - destruct (query_type_eqb k k') eqn:E; simpl.
    + now rewrite query_type_eqb_refl.
    + now rewrite E.
Qed.

Lemma dict_get_set_other d k k' v :
  k' <> k -> dict_get (dict_set d k v) k' = dict_get d k'.
Proof.
  intros Hne. induction d as [|[k0 v0] d IH]; simpl.
  - destruct (query_type_eqb_spec k' k); congruence.
  - destruct (query_type_eqb_spec k k0) as [->|Hk]; simpl.
    + destruct (query_type_eqb_spec k' k0); congruence.
    + destruct (query_type_eqb_spec k' k0); congruence.
Qed.

Lemma dict_set_set d k v v' :
  dict_set (dict_set d k v) k v' = dict_set d k v'.
Proof.
  induction d as [|[k0 v0] d IH]; simpl.
  - now rewrite query_type_eqb_refl.
  - destruct (query_type_eqb k k0) eqn:E; simpl.
    + now rewrite query_type_eqb_refl.
    + now rewrite E, IH.
Qed.

(** Grouping one record appends its duration to the list of its type. *)
Lemma group_eq d k (t : Qc) :
  group d (k, t) = dict_set d k (times_of d k ++ [t]).
Proof.
  unfold group, dict_contains, times_of.
  destruct (dict_get d k) as [times|] eqn:E; simpl.
  - now rewrite E.
  - now rewrite dict_get_set_same, dict_set_set.
Qed.

Lemma times_of_group d k (t : Qc) k' :
  times_of (group d (k, t)) k' =
  times_of d k' ++ (if query_type_eqb k k' then [t] else []).
Proof.
  rewrite group_eq. unfold times_of at 1.
  destruct (query_type_eqb_spec k k') as [->|Hne].
  - now rewrite dict_get_set_same.
  - rewrite dict_get_set_other by congruence.
    fold (times_of d k'). now rewrite app_nil_r.
Qed.

Lemma times_of_fold_group (qs : list (query_type * Qc)) d k :
  times_of (fold_left group qs d) k = times_of d k ++ durations_of k qs.
Proof.
  revert d. induction qs as [|[k' t] qs IH]; intros d; cbn [fold_left].
  - unfold durations_of. simpl. now rewrite app_nil_r.
  - rewrite IH, times_of_group. unfold durations_of. simpl.
    destruct (query_type_eqb k' k); simpl;
      [now rewrite <- app_assoc | now rewrite app_nil_r].
Qed.

Lemma nonempty_values_set d k v :
  v <> [] -> nonempty_values d -> nonempty_values (dict_set d k v).
Proof.
  intros Hv. unfold nonempty_values.
  induction d as [|[k0 v0] d IH]; intros H; simpl.
  - constructor; auto.
  - inversion H; subst.
    destruct (query_type_eqb k k0); constructor; auto.
Qed.

Lemma nonempty_values_group d (r : query_type * Qc) :
  nonempty_values d -> nonempty_values (group d r).
Proof.
  destruct r as [k t]. rewrite group_eq.
  apply nonempty_values_set. now destruct (times_of d k).
Qed.

Lemma nonempty_values_fold_group (qs : list (query_type * Qc)) d :
  nonempty_values d -> nonempty_values (fold_left group qs d).
Proof.
  revert d. induction qs as [|r qs IH]; intros d H; simpl; auto.
  apply IH, nonempty_values_group, H.
Qed.

(** With no empty list stored, a key is present exactly when it has
    durations. *)
Lemma dict_get_times_of d k :
  nonempty_values d ->
  dict_get d k = match times_of d k with
                 | [] => None
                 | times => Some times
                 end.
Proof.
  unfold times_of. intros H.
  destruct (dict_get d k) as [times|] eqn:E; [|reflexivity].
  destruct times; [|reflexivity].
  exfalso. induction d as [|[k0 v0] d IH]; simpl in E; [discriminate|].
  inversion H; subst. simpl in *.
  destruct (query_type_eqb k k0); [congruence | auto].
Qed.

End Dict.

(** ** Counting the merged records *)

Lemma count_queries_sum (d : dict) :
  count_queries d = list_sum (map (fun kv => List.length (snd kv)) d).
Proof.
  unfold count_queries.
  assert (G : forall a,
    fold_left (fun s kv => s + List.length (snd kv)) d a =
    a + list_sum (map (fun kv => List.length (snd kv)) d)).
  { induction d as [|kv d IH]; intros a; simpl; [lia|]. rewrite IH. lia. }
  apply G.
Qed.

Lemma count_queries_set (d : dict) (k : query_type) (v : list Qc) :
  count_queries (dict_set d k v) + List.length (times_of d k) =
  count_queries d + List.length v.
Proof.
  rewrite !count_queries_sum. unfold times_of.
  induction d as [|[k0 v0] d IH]; simpl.
  - lia.
  - destruct (query_type_eqb k k0); simpl; lia.
Qed.

Lemma count_queries_group (d : dict) (r : query_type * Qc) :
  count_queries (group d r) = S (count_queries d).
Proof.
  destruct r as [k t]. rewrite group_eq.
  pose proof (count_queries_set d k (times_of d k ++ [t])) as H.
  rewrite length_app in H. simpl in H. lia.
Qed.

Lemma count_queries_fold_group (qs : list (query_type * Qc)) (d : dict) :
  count_queries (fold_left group qs d) = count_queries d + List.length qs.
Proof.
  revert d. induction qs as [|r qs IH]; intros d; cbn [fold_left].
  - simpl. lia.
  - rewrite IH, count_queries_group. simpl. lia.
Qed.

(** The merge groups the records of all workers and sums their errors. *)
Lemma collect_eq (results : list (list (query_type * Qc) * nat)) :
  collect results =
  (fold_left group (all_records results) [], list_sum (map snd results)).
Proof.
  unfold collect, all_records.
  assert (G : forall d e,
    fold_left collect_one results (d, e) =
    (fold_left group (List.concat (map fst results)) d,
     e + list_sum (map snd results))).
  { induction results as [|[qs n] rs IH]; intros d e; cbn [fold_left].
    - simpl. f_equal. lia.
    - unfold collect_one at 2. rewrite IH. simpl.
      rewrite fold_left_app. f_equal. lia. }
  apply G.
Qed.

Lemma collect_nonempty_values
    (results : list (list (query_type * Qc) * nat)) :
  nonempty_values (fst (collect results)).
Proof.
  rewrite collect_eq. apply nonempty_values_fold_group. constructor.
Qed.

Lemma collect_count (results : list (list (query_type * Qc) * nat)) :
  count_queries (fst (collect results)) =
  List.length (all_records results).
Proof.
  rewrite collect_eq. simpl. now rewrite count_queries_fold_group.
Qed.

Lemma length_all_records (results : list (list (query_type * Qc) * nat)) :
  List.length (all_records results) =
  list_sum (map (fun res => List.length (fst res)) results).
Proof.
  unfold all_records.
  induction results as [|res rs IH]; simpl; [reflexivity|].
  now rewrite length_app, IH.
Qed.

(** ** The statistics never raise on a non-empty list *)

Lemma insert_length (x : Qc) (l : list Qc) :
  List.length (insert x l) = S (List.length l).
Proof.
  induction l as [|y l IH]; simpl; [reflexivity|].
  destruct (Num.leb x y); simpl; auto.
Qed.

Lemma sorted_length (data : list Qc) :
  List.length (sorted data) = List.length data.
Proof.
  induction data as [|x data IH]; simpl; [reflexivity|].
  now rewrite insert_length, IH.
Qed.

Lemma mean_nonempty (t : Qc) (ts : list Qc) :
  mean (t :: ts) =
  inr (total (t :: ts) / Num.of_nat (S (List.length ts)))%Qc.
Proof.
  unfold mean. apply NumFacts.truediv_nonzero, NumFacts.of_nat_S_nonzero.
Qed.

Lemma median_nonempty (t : Qc) (ts : list Qc) :
  exists m, median (t :: ts) = inr m.
Proof.
  unfold median. rewrite sorted_length. cbn [List.length].
  destruct (S (List.length ts) =? 0)%nat eqn:E0.
  { apply Nat.eqb_eq in E0. discriminate. }
  destruct (S (List.length ts) mod 2 =? 1)%nat.
  - eexists. reflexivity.
  - unfold truediv. rewrite NumFacts.two_nonzero. eexists. reflexivity.
Qed.

Lemma kind_block_nonempty (k : query_type) (t : Qc) (ts : list Qc) :
  exists s, kind_block k (t :: ts) = inr s /\
            kind s = k /\ count s = S (List.length ts).
Proof.
  unfold kind_block. rewrite mean_nonempty.
  destruct (median_nonempty t ts) as [m ->].
  simpl. eexists. split; [reflexivity|]. split; reflexivity.
Qed.

Lemma kind_block_kind (k : query_type) (times : list Qc) (s : kind_stats) :
  kind_block k times = inr s ->
  kind s = k /\ count s = List.length times.
Proof.
  unfold kind_block, bind.
  destruct (mean times); [discriminate|].
  destruct (median times); [discriminate|].
  destruct (py_min times); [discriminate|].
  destruct (py_max times); [discriminate|].
  intros [= <-]. split; reflexivity.
Qed.

(** The report loop never raises. *)
Lemma report_kinds_total (d : dict) : exists ks, report_kinds d = inr ks.
Proof.
  induction d as [|[k times] d [ks IH]]; simpl.
  - eexists. reflexivity.
  - destruct times as [|t ts].
    + eauto.
    + destruct (kind_block_nonempty k t ts) as [s [-> _]].
      simpl. rewrite IH. simpl. eexists. reflexivity.
Qed.

Lemma report_kinds_lookup (d : dict) (ks : list kind_stats) :
  nonempty_values d -> report_kinds d = inr ks ->
  forall k, kind_line ks k = block_of d k.
Proof.
  unfold kind_line, block_of. revert ks.
  induction d as [|[k0 times] d IH]; intros ks Hd E k; simpl in *.
  - injection E as <-. reflexivity.
  - inversion Hd as [|? ? Hne Hd']; subst. simpl in Hne.
    destruct times as [|t ts]; [congruence|].
    destruct (kind_block k0 (t :: ts)) as [e|s] eqn:Es; [discriminate|].
    simpl in E.
    destruct (report_kinds d) as [e|ks'] eqn:Er; [discriminate|].
    simpl in E. injection E as <-. simpl.
    apply kind_block_kind in Es as Hs. destruct Hs as [Hk _]. rewrite Hk.
    destruct (query_type_eqb_spec k k0) as [->|Hne'].
    + now rewrite Es.
    + now apply IH.
Qed.

(** ** The statistics do not depend on the order of the durations *)

Ltac order_props :=
  repeat match goal with
  | H : Num.leb _ _ = true |- _ => apply NumFacts.leb_le in H
  | H : Num.leb _ _ = false |- _ => apply NumFacts.leb_gt in H
  | H : Num.ltb _ _ = true |- _ => apply NumFacts.ltb_lt in H
  | H : Num.ltb _ _ = false |- _ => apply NumFacts.ltb_ge in H
  end.

Ltac order_absurd := exfalso; unfold Qcle, Qclt in *; lra.

Ltac order_same :=
  match goal with
  | H1 : (?a <= ?b)%Qc, H2 : (?b <= ?a)%Qc |- _ =>
      rewrite (Qcle_antisym _ _ H1 H2); reflexivity
  end.

Section Order.

(** A fold whose steps commute gives the same result on a permutation. *)
Lemma fold_left_permutation {A B} (f : A -> B -> A) :
  (forall a x y, f (f a x) y = f (f a y) x) ->
  forall l l', Permutation l l' ->
  forall a, fold_left f l a = fold_left f l' a.
Proof.
  intros Hf l l' P.
  induction P as [|x l l' P IH|x y l|l l' l'' P1 IH1 P2 IH2];
    intros a; simpl.
  - reflexivity.
  - apply IH.
  - now rewrite Hf.
  - now rewrite IH1, IH2.
Qed.

Lemma total_permutation (l l' : list Qc) :
  Permutation l l' -> total l = total l'.
Proof.
  intros P. unfold total. apply fold_left_permutation; [|exact P].
  intros a x y.
  now rewrite <- !Qcplus_assoc, (Qcplus_comm x y).
Qed.

Lemma insert_insert (x y : Qc) (l : list Qc) :
  insert x (insert y l) = insert y (insert x l).
Proof.
  induction l as [|z l IH]; simpl.
  - destruct (Num.leb x y) eqn:Exy, (Num.leb y x) eqn:Eyx;
      order_props; first [reflexivity | order_same | order_absurd].
  - destruct (Num.leb y z) eqn:Eyz, (Num.leb x z) eqn:Exz; simpl;
      rewrite ?Eyz, ?Exz;
      destruct (Num.leb x y) eqn:Exy, (Num.leb y x) eqn:Eyx; simpl;
      rewrite ?Eyz, ?Exz; order_props;
      first [ reflexivity | rewrite IH; reflexivity
            | order_same | order_absurd ].
Qed.

Lemma sorted_permutation (l l' : list Qc) :
  Permutation l l' -> sorted l = sorted l'.
Proof.
  intros P. unfold sorted.
  induction P as [|x l l' P IH|x y l|l l' l'' P1 IH1 P2 IH2]; simpl.
  - reflexivity.
  - now rewrite IH.
  - apply insert_insert.
  - now rewrite IH1.
Qed.

Lemma fold_min_least (rest : list Qc) (x : Qc) :
  least (x :: rest)
    (fold_left (fun m y => if Num.ltb y m then y else m) rest x).
Proof.
  revert x. induction rest as [|y rest IH]; intros x; simpl.
  - split; [now left|]. intros z [<-|[]]. apply Qcle_refl.
  - destruct (IH (if Num.ltb y x then y else x)) as [Hin Hle].
    split.
    + destruct Hin as [Hin|Hin]; [|now right; right].
      rewrite <- Hin. destruct (Num.ltb y x); simpl; auto.
    + assert (Hx' : (fold_left (fun m y0 => if Num.ltb y0 m then y0 else m)
                       rest (if Num.ltb y x then y else x)
                     <= (if Num.ltb y x then y else x))%Qc)
        by (apply Hle; now left).
      intros z [<-|[<-|Hz]].
      * eapply Qcle_trans; [exact Hx'|].
        destruct (Num.ltb y x) eqn:E; order_props;
          [now apply Qclt_le_weak | apply Qcle_refl].
      * eapply Qcle_trans; [exact Hx'|].
        destruct (Num.ltb y x) eqn:E; order_props;
          [apply Qcle_refl | assumption].
      * apply Hle. now right.
Qed.

Lemma fold_max_greatest (rest : list Qc) (x : Qc) :
  greatest (x :: rest)
    (fold_left (fun m y => if Num.ltb m y then y else m) rest x).
Proof.
  revert x. induction rest as [|y rest IH]; intros x; simpl.
  - split; [now left|]. intros z [<-|[]]. apply Qcle_refl.
  - destruct (IH (if Num.ltb x y then y else x)) as [Hin Hle].
    split.
    + destruct Hin as [Hin|Hin]; [|now right; right].
      rewrite <- Hin. destruct (Num.ltb x y); simpl; auto.
    + assert (Hx' : ((if Num.ltb x y then y else x)
                     <= fold_left (fun m y0 => if Num.ltb m y0 then y0 else m)
                          rest (if Num.ltb x y then y else x))%Qc)
        by (apply Hle; now left).
      intros z [<-|[<-|Hz]].
      * eapply Qcle_trans; [|exact Hx'].
        destruct (Num.ltb x y) eqn:E; order_props;
          [now apply Qclt_le_weak | apply Qcle_refl].
      * eapply Qcle_trans; [|exact Hx'].
        destruct (Num.ltb x y) eqn:E; order_props;
          [apply Qcle_refl | assumption].
      * apply Hle. now right.
Qed.

Lemma least_permutation (l l' : list Qc) (m m' : Qc) :
  Permutation l l' -> least l m -> least l' m' -> m = m'.
Proof.
  intros P [Hin Hle] [Hin' Hle'].
  apply Qcle_antisym.
  - apply Hle. eapply Permutation_in; [symmetry; exact P | exact Hin'].
  - apply Hle'. eapply Permutation_in; [exact P | exact Hin].
Qed.

Lemma greatest_permutation (l l' : list Qc) (m m' : Qc) :
  Permutation l l' -> greatest l m -> greatest l' m' -> m = m'.
Proof.
  intros P [Hin Hle] [Hin' Hle'].
  apply Qcle_antisym.
  - apply Hle'. eapply Permutation_in; [exact P | exact Hin].
  - apply Hle. eapply Permutation_in; [symmetry; exact P | exact Hin'].
Qed.

Lemma py_min_permutation (l l' : list Qc) :
  Permutation l l' -> py_min l = py_min l'.
Proof.
  intros P. destruct l as [|x l], l' as [|x' l'].
  - reflexivity.
  - apply Permutation_nil in P. discriminate.
  - symmetry in P. apply Permutation_nil in P. discriminate.
  - simpl. f_equal.
    eapply least_permutation; [exact P | apply fold_min_least ..].
Qed.

Lemma py_max_permutation (l l' : list Qc) :
  Permutation l l' -> py_max l = py_max l'.
Proof.
  intros P. destruct l as [|x l], l' as [|x' l'].
  - reflexivity.
  - apply Permutation_nil in P. discriminate.
  - symmetry in P. apply Permutation_nil in P. discriminate.
  - simpl. f_equal.
    eapply greatest_permutation; [exact P | apply fold_max_greatest ..].
Qed.

Lemma mean_permutation (l l' : list Qc) :
  Permutation l l' -> mean l = mean l'.
Proof.
  intros P. pose proof (Permutation_length P) as Hlen.
  pose proof (total_permutation _ _ P) as Htot.
  destruct l as [|x l], l' as [|x' l']; try discriminate; [reflexivity|].
  unfold mean. now rewrite Htot, Hlen.
Qed.

Lemma median_permutation (l l' : list Qc) :
  Permutation l l' -> median l = median l'.
Proof.
  intros P. unfold median. now rewrite (sorted_permutation _ _ P).
Qed.

Lemma kind_block_permutation (k : query_type) (l l' : list Qc) :
  Permutation l l' -> kind_block k l = kind_block k l'.
Proof.
  intros P. unfold kind_block.
  now rewrite (mean_permutation _ _ P), (median_permutation _ _ P),
    (py_min_permutation _ _ P), (py_max_permutation _ _ P),
    (Permutation_length P).
Qed.

End Order.

(** ** Keys of the dictionary and blocks of the report *)

Lemma dict_contains_keys (d : dict) (k : query_type) :
  dict_contains d k = true <-> In k (map fst d).
Proof.
  unfold dict_contains.
  induction d as [|[k0 v0] d IH]; simpl.
  - split; [discriminate | contradiction].
  - destruct (query_type_eqb_spec k k0) as [->|Hne].
    + split; auto.
    + rewrite IH. split; [auto | intros [E|H]; congruence].
Qed.

Lemma keys_set (d : dict) (k : query_type) (v : list Qc) :
  map fst (dict_set d k v) =
  if dict_contains d k then map fst d else map fst d ++ [k].
Proof.
  unfold dict_contains.
  induction d as [|[k0 v0] d IH]; simpl.
  - reflexivity.
  - destruct (query_type_eqb_spec k k0) as [->|Hne]; simpl.
    + reflexivity.
    + rewrite IH. now destruct (dict_get d k).
Qed.

Lemma keys_group_NoDup (d : dict) (r : query_type * Qc) :
  NoDup (map fst d) -> NoDup (map fst (group d r)).
Proof.
  destruct r as [k t]. rewrite group_eq, keys_set. intros H.
  destruct (dict_contains d k) eqn:E; [exact H|].
  apply NoDup_app; [exact H | repeat constructor; auto |].
  intros x Hx [<-|[]].
  apply dict_contains_keys in Hx. congruence.
Qed.

Lemma keys_fold_group_NoDup (qs : list (query_type * Qc)) (d : dict) :
  NoDup (map fst d) -> NoDup (map fst (fold_left group qs d)).
Proof.
  revert d. induction qs as [|r qs IH]; intros d H; cbn [fold_left]; auto.
  apply IH, keys_group_NoDup, H.
Qed.

Lemma collect_keys_NoDup (results : list (list (query_type * Qc) * nat)) :
  NoDup (map fst (fst (collect results))).
Proof.
  rewrite collect_eq. apply keys_fold_group_NoDup. constructor.
Qed.

(** With no empty list stored, the report has one block per key, in the
    order of the keys. *)
Lemma report_kinds_keys (d : dict) (ks : list kind_stats) :
  nonempty_values d -> report_kinds d = inr ks -> map kind ks = map fst d.
Proof.
  revert ks. induction d as [|[k0 times] d IH]; intros ks Hd E; simpl in *.
  - injection E as <-. reflexivity.
  - inversion Hd as [|? ? Hne Hd']; subst. simpl in Hne.
    destruct times as [|t ts]; [congruence|].
    destruct (kind_block k0 (t :: ts)) as [e|s] eqn:Es; [discriminate|].
    simpl in E.
    destruct (report_kinds d) as [e|ks'] eqn:Er; [discriminate|].
    simpl in E. injection E as <-. simpl.
    apply kind_block_kind in Es as [-> _]. f_equal. now apply IH.
Qed.

Lemma kind_line_In (ks : list kind_stats) (s : kind_stats) :
  NoDup (map kind ks) -> In s ks -> kind_line ks (kind s) = Some s.
Proof.
  unfold kind_line. induction ks as [|s0 ks IH]; simpl; [contradiction|].
  intros Hnd [->|Hin].
  - now rewrite query_type_eqb_refl.
  - inversion Hnd as [|? ? Hnotin Hnd']; subst.
    destruct (query_type_eqb_spec (kind s) (kind s0)) as [E|_]; [|auto].
    exfalso. apply Hnotin. rewrite <- E. now apply in_map.
Qed.

Lemma kind_line_Some (ks : list kind_stats) (k : query_type)
    (s : kind_stats) :
  kind_line ks k = Some s -> In s ks /\ kind s = k.
Proof.
  unfold kind_line. intros H. apply find_some in H as [Hin Hk].
  split; [exact Hin|].
  destruct (query_type_eqb_spec k (kind s)); congruence.
Qed.

(** ** Merging permuted results *)

Lemma filter_permutation {A} (f : A -> bool) (l l' : list A) :
  Permutation l l' -> Permutation (filter f l) (filter f l').
Proof.
  intros P.
  induction P as [|x l l' P IH|x y l|l l' l'' P1 IH1 P2 IH2]; simpl.
  - constructor.
  - destruct (f x); auto.
  - destruct (f x), (f y); auto using Permutation_refl. constructor.
  - eapply Permutation_trans; eassumption.
Qed.

Lemma durations_of_permutation (k : query_type)
    (qs qs' : list (query_type * Qc)) :
  Permutation qs qs' -> Permutation (durations_of k qs) (durations_of k qs').
Proof.
  intros P. unfold durations_of.
  apply Permutation_map, filter_permutation, P.
Qed.

Lemma all_records_permutation
    (rs rs' : list (list (query_type * Qc) * nat)) :
  Permutation rs rs' -> Permutation (all_records rs) (all_records rs').
Proof.
  intros P. unfold all_records.
  induction P as [|x l l' P IH|x y l|l l' l'' P1 IH1 P2 IH2]; simpl.
  - constructor.
  - now apply Permutation_app_head.
  - rewrite !app_assoc. apply Permutation_app_tail, Permutation_app_comm.
  - eapply Permutation_trans; eassumption.
Qed.

(** The durations merged for [k] are those of the records of type [k]. *)
Lemma collect_times_of (results : list (list (query_type * Qc) * nat))
    (k : query_type) :
  times_of (fst (collect results)) k = durations_of k (all_records results).
Proof.
  rewrite collect_eq. simpl. now rewrite times_of_fold_group.
Qed.

Lemma collect_dict_get (results : list (list (query_type * Qc) * nat))
    (k : query_type) :
  dict_get (fst (collect results)) k =
  match durations_of k (all_records results) with
  | [] => None
  | times => Some times
  end.
Proof.
  rewrite dict_get_times_of by apply collect_nonempty_values.
  now rewrite collect_times_of.
Qed.

Lemma collect_errors (results : list (list (query_type * Qc) * nat)) :
  snd (collect results) = list_sum (map snd results).
Proof. now rewrite collect_eq. Qed.

(** ** The run *)

Lemma throughput_value (n : nat) (d : Qc) :
  throughput n d =
  inr (if Num.ltb 0%Qc d then (Num.of_nat n / d)%Qc else 0%Qc).
Proof.
  unfold throughput. destruct (Num.ltb 0%Qc d) eqn:E; [|reflexivity].
  apply NumFacts.truediv_nonzero, NumFacts.positive_nonzero.
  now apply NumFacts.ltb_lt.
Qed.

(** The report is always produced, and it is this one. *)
Lemma summarise_value (d : dict) (e : nat) (dur : Qc) :
  exists ks,
    report_kinds d = inr ks /\
    summarise d e dur =
    inr {| all_query_times := d;
           total_duration := dur;
           total_queries := count_queries d;
           total_errors := e;
           queries_per_second :=
             if Num.ltb 0%Qc dur
             then (Num.of_nat (count_queries d) / dur)%Qc else 0%Qc;
           kinds := ks |}.
Proof.
  destruct (report_kinds_total d) as [ks Hks].
  exists ks. split; [exact Hks|].
  unfold summarise. rewrite throughput_value. simpl. now rewrite Hks.
Qed.

Lemma main_raises (cfg : config) (W : world) :
  (NUM_THREADS cfg <= 0)%Z -> main cfg W = inl ValueError.
Proof.
  intros H. unfold main.
  destruct (Z.leb_spec (NUM_THREADS cfg) 0); [reflexivity | lia].
Qed.

Lemma main_summarise (cfg : config) (W : world) :
  (0 < NUM_THREADS cfg)%Z ->
  main cfg W =
  summarise (fst (collect (futures cfg W))) (snd (collect (futures cfg W)))
            (run_duration W).
Proof.
  intros H. unfold main.
  destruct (Z.leb_spec (NUM_THREADS cfg) 0); [lia|].
  now destruct (collect (futures cfg W)).
Qed.

(** With at least one worker, [main] returns, and this is its report. *)
Lemma main_value (cfg : config) (W : world) :
  (0 < NUM_THREADS cfg)%Z ->
  exists ks,
    report_kinds (fst (collect (futures cfg W))) = inr ks /\
    main cfg W =
    inr {| all_query_times := fst (collect (futures cfg W));
           total_duration := run_duration W;
           total_queries := count_queries (fst (collect (futures cfg W)));
           total_errors := snd (collect (futures cfg W));
           queries_per_second :=
             if Num.ltb 0%Qc (run_duration W)
             then (Num.of_nat (count_queries (fst (collect (futures cfg W))))
                   / run_duration W)%Qc
             else 0%Qc;
           kinds := ks |}.
Proof.
  intros H. rewrite main_summarise by exact H. apply summarise_value.
Qed.

(** ** What the workers hand to the collector *)

Section Workers.

Variables (cfg : config) (W : world).

Lemma results_records (l : list nat) :
  List.length (all_records (map (future_result cfg W) l)) =
  list_sum
    (map (fun i => if completes cfg (worker W i)
                   then successes cfg (worker W i) else 0) l).
Proof.
  rewrite length_all_records, map_map. f_equal.
  apply map_ext. intros i. unfold future_result.
  destruct (completes cfg (worker W i)) eqn:E.
  - rewrite run_completes by exact E. apply length_records.
  - now rewrite run_fails by exact E.
Qed.

Lemma list_sum_cons (n : nat) (l : list nat) :
  list_sum (n :: l) = n + list_sum l.
Proof. reflexivity. Qed.

Lemma results_accounted (l : list nat) :
  List.length (all_records (map (future_result cfg W) l)) + list_sum (map snd (map (future_result cfg W) l)) =
  List.length (filter (fun i => completes cfg (worker W i)) l)
    * Z.to_nat (QUERIES_PER_THREAD cfg)
  + List.length (filter (fun i => negb (completes cfg (worker W i))) l).
Proof.
  rewrite length_all_records.
  induction l as [|i l IH]; [reflexivity|].
  cbn [map list_sum filter]. unfold future_result at 1 3.
  destruct (completes cfg (worker W i)) eqn:E.
  - rewrite run_completes by exact E. cbn [fst snd List.length negb].
    rewrite !list_sum_cons.
    pose proof (records_plus_failures cfg (worker W i)). lia.
  - rewrite run_fails by exact E.
    cbn [fst snd List.length negb]. rewrite !list_sum_cons. lia.
Qed.

Lemma no_abort_all_finished :
  aborted cfg W = 0 -> finished cfg W = Z.to_nat (NUM_THREADS cfg).
Proof.
  unfold aborted, finished. rewrite <- (length_range (NUM_THREADS cfg)).
  induction (range (NUM_THREADS cfg)) as [|i l IH]; simpl; [reflexivity|].
  destruct (completes cfg (worker W i)); simpl; [|discriminate].
  intros H. now rewrite IH.
Qed.

End Workers.

(** ** Accounting of the attempted queries *)

(** C1, as stated, fails: with two workers of three queries each, one of
    which cannot connect, the report counts 2 records and 2 errors, not 6. *)
Lemma attempts_accounted_counterexample :
  exists r, main Bench.cfg Runs.mixed = inr r /\
    total_queries r = 2 /\ total_errors r = 2 /\
    Z.of_nat (total_queries r + total_errors r) <>
    (NUM_THREADS Bench.cfg * QUERIES_PER_THREAD Bench.cfg)%Z.
Proof.
  eexists. split; [reflexivity|].
  repeat split. discriminate.
Qed.

(** C1, amended: a run with at least one worker completes, and the number of
    its Query Records plus its error count is [Q] for every worker that
    returned normally plus 1 for every worker that left through the outer
    handler; it is [W * Q] when no worker left that way, whichever queries
    failed. *)
Theorem attempts_accounted (cfg : config) (W : world) :
  (0 < NUM_THREADS cfg)%Z -> (0 <= QUERIES_PER_THREAD cfg)%Z ->
  exists r, main cfg W = inr r /\
    total_queries r + total_errors r =
      finished cfg W * Z.to_nat (QUERIES_PER_THREAD cfg) + aborted cfg W /\
    (aborted cfg W = 0 ->
     Z.of_nat (total_queries r + total_errors r) =
     (NUM_THREADS cfg * QUERIES_PER_THREAD cfg)%Z).
Proof.
  intros HW HQ. destruct (main_value cfg W HW) as [ks [_ Hr]].
  eexists. split; [exact Hr|]. cbn [total_queries total_errors].
  assert (Hsum :
    count_queries (fst (collect (futures cfg W))) +
    snd (collect (futures cfg W)) =
    finished cfg W * Z.to_nat (QUERIES_PER_THREAD cfg) + aborted cfg W).
  { rewrite collect_count, collect_errors. apply results_accounted. }
  split; [exact Hsum|].
  intros Hab. rewrite Hsum, Hab, (no_abort_all_finished cfg W Hab). lia.
Qed.

Lemma attempts_accounted_witness :
  (0 < NUM_THREADS Bench.cfg)%Z /\ (0 <= QUERIES_PER_THREAD Bench.cfg)%Z /\
  exists r, main Bench.cfg Runs.steady = inr r /\
    Z.of_nat (total_queries r + total_errors r) =
    (NUM_THREADS Bench.cfg * QUERIES_PER_THREAD Bench.cfg)%Z.
Proof.
  assert (HW : (0 < NUM_THREADS Bench.cfg)%Z) by reflexivity.
  assert (HQ : (0 <= QUERIES_PER_THREAD Bench.cfg)%Z) by discriminate.
  split; [exact HW|]. split; [exact HQ|].
  destruct (attempts_accounted Bench.cfg Runs.steady HW HQ)
    as [r [Hr [_ Hall]]].
  exists r. split; [exact Hr|]. apply Hall. reflexivity.
Defined.

(** ** A worker that cannot connect *)

Lemma filter_all {A} (f : A -> bool) (l : list A) :
  (forall x, In x l -> f x = true) -> filter f l = l.
Proof.
  induction l as [|x l IH]; intros H; simpl; [reflexivity|].
  rewrite (H x) by now left. f_equal. apply IH. intros y Hy. apply H. now right.
Qed.

Lemma range_split (n : Z) (k : nat) :
  k < Z.to_nat n ->
  range n = seq 0 k ++ k :: seq (S k) (Z.to_nat n - S k).
Proof.
  intros H. unfold range.
  replace (Z.to_nat n) with (k + S (Z.to_nat n - S k)) at 1 by lia.
  now rewrite seq_app.
Qed.

Lemma range_without (n : Z) (k : nat) :
  k < Z.to_nat n ->
  filter (fun i => negb (Nat.eqb i k)) (range n) =
  seq 0 k ++ seq (S k) (Z.to_nat n - S k).
Proof.
  intros H. rewrite (range_split n k H), filter_app. simpl.
  rewrite Nat.eqb_refl. simpl.
  rewrite !filter_all; [reflexivity | |].
  - intros x Hx. apply in_seq in Hx.
    apply negb_true_iff, Nat.eqb_neq. lia.
  - intros x Hx. apply in_seq in Hx.
    apply negb_true_iff, Nat.eqb_neq. lia.
Qed.

(** A result [[], n] changes nothing in the merged dictionary and adds [n]
    to the error count. *)
Lemma collect_without_records
    (l1 l2 : list (list (query_type * Qc) * nat)) (n : nat) :
  collect (l1 ++ ([], n) :: l2) =
  (fst (collect (l1 ++ l2)), snd (collect (l1 ++ l2)) + n).
Proof.
  rewrite !collect_eq. unfold all_records.
  rewrite !map_app, !concat_app, !list_sum_app. simpl.
  f_equal. lia.
Qed.

Lemma connect_failure_aborts (cfg : config) (w : worker_world) :
  connects w = false -> completes cfg w = false.
Proof.
  intros H. unfold completes, connected. rewrite H.
  now destruct (random_choice (DB_NAMES cfg) (pick w)).
Qed.

(** C2: when the connection attempt of worker [k] fails, that worker returns
    no Query Record and one error, the run completes, and its merged
    dictionary, query count and report blocks are those of the other workers
    alone, its error count theirs plus one. *)
Theorem failed_connection_is_local (cfg : config) (W : world) (k : nat) :
  k < Z.to_nat (NUM_THREADS cfg) ->
  connects (worker W k) = false ->
  run_benchmark_thread cfg k (worker W k) = ([], 1) /\
  exists r, main cfg W = inr r /\
    all_query_times r = fst (collect (other_results cfg W k)) /\
    total_errors r = snd (collect (other_results cfg W k)) + 1 /\
    total_queries r = count_queries (fst (collect (other_results cfg W k))) /\
    report_kinds (fst (collect (other_results cfg W k))) = inr (kinds r).
Proof.
  intros Hk Hc.
  assert (Hrun : run_benchmark_thread cfg k (worker W k) = ([], 1))
    by now apply run_fails, connect_failure_aborts.
  split; [exact Hrun|].
  assert (HW : (0 < NUM_THREADS cfg)%Z) by lia.
  destruct (main_value cfg W HW) as [ks [Hks Hr]].
  assert (Hcol : collect (futures cfg W) =
                 (fst (collect (other_results cfg W k)),
                  snd (collect (other_results cfg W k)) + 1)).
  { unfold futures, other_results.
    rewrite (range_without _ k Hk), (range_split _ k Hk).
    rewrite !map_app. cbn [map]. unfold future_result at 2. rewrite Hrun.
    apply collect_without_records. }
  rewrite Hcol in Hr, Hks. cbn [fst snd] in Hr, Hks.
  eexists. split; [exact Hr|]. cbn. repeat split. exact Hks.
Qed.

Lemma failed_connection_is_local_witness :
  1 < Z.to_nat (NUM_THREADS Bench.cfg) /\
  connects (worker Runs.mixed 1) = false /\
  run_benchmark_thread Bench.cfg 1 (worker Runs.mixed 1) = ([], 1) /\
  exists r, main Bench.cfg Runs.mixed = inr r /\
    all_query_times r =
      [(INSERT, [Bench.ms 5]); (SELECT, [Bench.ms 5])] /\
    total_errors r = 2.
Proof.
  assert (Hk : 1 < Z.to_nat (NUM_THREADS Bench.cfg)) by (simpl; lia).
  assert (Hc : connects (worker Runs.mixed 1) = false) by reflexivity.
  split; [exact Hk|]. split; [exact Hc|].
  destruct (failed_connection_is_local Bench.cfg Runs.mixed 1 Hk Hc)
    as [Hrun [r [Hr [Hd [He _]]]]].
  split; [exact Hrun|].
  exists r. split; [exact Hr|]. split.
  - rewrite Hd. reflexivity.
  - rewrite He. reflexivity.
Defined.

(** ** The delay between queries *)

(** What the loop does in general: an iteration whose query returns ends
    with the sleep of 0.1 s, an iteration whose query raises ends with the
    log line of the handler; a worker that connected has slept once for each
    query that returned. *)
Lemma sleeps_of_a_worker (cfg : config) (thread_id : nat) (w : worker_world) :
  (forall st i,
     trace (iteration thread_id w st i) =
     trace st ++
       [Execute (statement_of (draw w i) thread_id i);
        if succeeded w i then Sleep Num.tenth else LogError thread_id]) /\
  sleeps (trace (run_benchmark_thread_traced cfg thread_id w)) =
    (if connected cfg w then successes cfg w else 0).
Proof.
  split.
  - intros st i. unfold iteration, succeeded.
    now destruct (outcome w i).
  - unfold run_benchmark_thread_traced, connected, successes, query_loop.
    destruct (random_choice (DB_NAMES cfg) (pick w)); [|reflexivity].
    destruct (connects w); [|reflexivity].
    destruct (closes w); cbn [trace connection_error];
      rewrite sleeps_app, loop_sleeps; unfold sleeps; simpl; lia.
Qed.

(** C3: the delay is to follow every query, and the comment above
    [time.sleep(0.1)] gives its purpose, not to hammer the database.  The
    code does not do so: the call is the last statement of the [try] body,
    so a query that raises jumps over it.  With one worker and one query,
    a worker whose query raises logs the error, counts it and closes
    without having slept, where a worker whose query returns sleeps before
    it closes. *)
Theorem failed_query_skips_the_delay :
  Z.to_nat (QUERIES_PER_THREAD Runs.single) = 1 /\
  outcome Bench.failing 0 = None /\
  trace (run_benchmark_thread_traced Runs.single 0 Bench.failing) =
    [Connect "bench_test1"; Execute SelectUsers; LogError 0; Close] /\
  run_benchmark_thread Runs.single 0 Bench.failing = ([], 1) /\
  sleeps (trace (run_benchmark_thread_traced Runs.single 0 Bench.failing))
    = 0 /\
  outcome Bench.healthy 0 = Some (Bench.ms 1) /\
  trace (run_benchmark_thread_traced Runs.single 0 Bench.healthy) =
    [Connect "bench_test1"; Execute SelectUsers; Sleep Num.tenth; Close].
Proof.
  repeat split.
Qed.

(** ** A failure after the query loop *)

(** C9: when closing the cursor or the connection raises, the worker returns
    [[], 1], whatever records and errors its loop had accumulated. *)
Theorem close_failure_discards_results (cfg : config) (thread_id : nat)
    (w : worker_world) :
  connected cfg w = true -> closes w = false ->
  run_benchmark_thread cfg thread_id w = ([], 1) /\
  exists db_name,
    random_choice (DB_NAMES cfg) (pick w) = Some db_name /\
    let st := query_loop cfg thread_id w
                {| query_times := []; errors := 0;
                   trace := [Connect db_name] |} in
    query_times st = records cfg w /\ errors st = failures cfg w.
Proof.
  intros Hc Hcl. split.
  - apply run_fails. unfold completes. now rewrite Hc, Hcl.
  - unfold connected in Hc.
    destruct (random_choice (DB_NAMES cfg) (pick w)) as [db|];
      [|discriminate].
    exists db. split; [reflexivity|]. unfold query_loop. simpl.
    now rewrite loop_query_times, loop_errors.
Qed.

Lemma close_failure_discards_results_witness :
  connected Bench.cfg Bench.unclosed = true /\
  closes Bench.unclosed = false /\
  records Bench.cfg Bench.unclosed =
    [(UPDATE, Bench.ms 2); (UPDATE, Bench.ms 2)] /\
  failures Bench.cfg Bench.unclosed = 1 /\
  run_benchmark_thread Bench.cfg 4 Bench.unclosed = ([], 1).
Proof.
  assert (Hc : connected Bench.cfg Bench.unclosed = true) by reflexivity.
  assert (Hcl : closes Bench.unclosed = false) by reflexivity.
  split; [exact Hc|]. split; [exact Hcl|].
  split; [reflexivity|]. split; [reflexivity|].
  exact (proj1 (close_failure_discards_results Bench.cfg 4 Bench.unclosed
                  Hc Hcl)).
Defined.

(** ** Runs without workers or without queries *)

Lemma no_queries_no_records (cfg : config) (W : world) :
  QUERIES_PER_THREAD cfg = 0%Z -> all_records (futures cfg W) = [].
Proof.
  intros HQ. apply length_zero_iff_nil.
  unfold futures. rewrite results_records.
  induction (range (NUM_THREADS cfg)) as [|i l IH]; [reflexivity|].
  cbn [map]. rewrite list_sum_cons, IH.
  unfold successes. rewrite HQ.
  now destruct (completes cfg (worker W i)).
Qed.

(** C4, as stated, fails: with no worker the thread pool cannot be built and
    [main] raises. *)
Lemma run_without_queries_counterexample :
  NUM_THREADS Runs.nobody = 0%Z /\
  main Runs.nobody Runs.steady = inl ValueError /\
  ~ (exists r, main Runs.nobody Runs.steady = inr r).
Proof.
  split; [reflexivity|]. split; [reflexivity|].
  intros [r Hr]. discriminate Hr.
Qed.

(** C4, amended: with [Q = 0] and at least one worker the run completes with
    no Query Record, no report block and a throughput of zero, nothing being
    divided by zero, and its error count is the number of workers that left
    through the outer handler; with [W = 0] the run raises [ValueError]
    before any worker starts. *)
Theorem run_without_queries (cfg : config) (W : world) :
  (NUM_THREADS cfg = 0 \/ QUERIES_PER_THREAD cfg = 0)%Z ->
  if (NUM_THREADS cfg <=? 0)%Z then main cfg W = inl ValueError
  else
    exists r, main cfg W = inr r /\
      all_query_times r = [] /\ total_queries r = 0 /\
      queries_per_second r = 0%Qc /\ kinds r = [] /\
      total_errors r = aborted cfg W.
Proof.
  intros H. destruct (Z.leb_spec (NUM_THREADS cfg) 0) as [HW|HW].
  - now apply main_raises.
  - assert (HQ : QUERIES_PER_THREAD cfg = 0%Z) by lia.
    destruct (main_value cfg W HW) as [ks [Hks Hr]].
    pose proof (no_queries_no_records cfg W HQ) as Hrec.
    assert (Hd : fst (collect (futures cfg W)) = []).
    { rewrite collect_eq, Hrec. reflexivity. }
    assert (He : snd (collect (futures cfg W)) = aborted cfg W).
    { rewrite collect_errors.
      pose proof (results_accounted cfg W (range (NUM_THREADS cfg))) as Hacc.
      fold (futures cfg W) in Hacc. rewrite Hrec, HQ in Hacc.
      unfold aborted. simpl in Hacc. lia. }
    rewrite Hd in Hks, Hr. rewrite He in Hr.
    simpl in Hks. injection Hks as <-.
    eexists. split; [exact Hr|]. cbn.
    repeat split.
    destruct (Num.ltb 0%Qc (run_duration W)); [|reflexivity].
    apply NumFacts.zero_div.
Qed.

Lemma run_without_queries_witness :
  (NUM_THREADS Runs.idle = 0 \/ QUERIES_PER_THREAD Runs.idle = 0)%Z /\
  exists r, main Runs.idle Runs.mixed = inr r /\
    all_query_times r = [] /\ total_queries r = 0 /\
    queries_per_second r = 0%Qc /\ kinds r = [] /\
    total_errors r = aborted Runs.idle Runs.mixed.
Proof.
  assert (H : (NUM_THREADS Runs.idle = 0 \/ QUERIES_PER_THREAD Runs.idle = 0)%Z)
    by (right; reflexivity).
  split; [exact H|].
  exact (run_without_queries Runs.idle Runs.mixed H).
Defined.

Example idle_run_errors : aborted Runs.idle Runs.mixed = 1.
Proof. reflexivity. Qed.

(** ** Throughput *)

(** C6: the reported throughput is the number of queries over the duration
    of the run when that duration is positive, and zero otherwise. *)
Theorem throughput_definition (cfg : config) (W : world) :
  (0 < NUM_THREADS cfg)%Z ->
  exists r, main cfg W = inr r /\
    total_duration r = (end_time W - start_time W)%Qc /\
    ((0 < total_duration r)%Qc ->
     queries_per_second r =
     (Num.of_nat (total_queries r) / total_duration r)%Qc) /\
    ((total_duration r <= 0)%Qc -> queries_per_second r = 0%Qc).
Proof.
  intros HW. destruct (main_value cfg W HW) as [ks [_ Hr]].
  eexists. split; [exact Hr|]. cbn.
  split; [reflexivity|]. split; intros Hd.
  - apply NumFacts.ltb_lt in Hd. now rewrite Hd.
  - apply NumFacts.ltb_ge in Hd. now rewrite Hd.
Qed.

Lemma throughput_definition_witness :
  (0 < NUM_THREADS Bench.cfg)%Z /\
  exists r, main Bench.cfg Runs.mixed = inr r /\
    total_duration r = Q2Qc 2 /\ total_queries r = 2 /\
    queries_per_second r = 1%Qc.
Proof.
  assert (HW : (0 < NUM_THREADS Bench.cfg)%Z) by reflexivity.
  split; [exact HW|].
  destruct (throughput_definition Bench.cfg Runs.mixed HW)
    as [r [Hr [Hd [Hpos _]]]].
  exists r. split; [exact Hr|].
  assert (Hq : total_queries r = 2).
  { pose proof Hr as Hr'. vm_compute in Hr'.
    injection Hr' as <-. reflexivity. }
  assert (Hd2 : total_duration r = Q2Qc 2).
  { rewrite Hd. apply Qc_is_canon. reflexivity. }
  split; [exact Hd2|]. split; [exact Hq|].
  rewrite Hpos.
  - rewrite Hq, Hd2. apply Qc_is_canon. reflexivity.
  - rewrite Hd2. reflexivity.
Defined.

(** ** The total query count *)

(** C10: the reported total query count is the sum of the lengths of the
    lists of durations, which is the number of successful queries of the
    workers that returned their records; failed attempts are in neither that
    count nor the numerator of the throughput. *)
Theorem total_queries_counts_successes (cfg : config) (W : world) :
  (0 < NUM_THREADS cfg)%Z ->
  exists r, main cfg W = inr r /\
    total_queries r =
      list_sum (map (fun kv => List.length (snd kv)) (all_query_times r)) /\
    total_queries r = successful_queries cfg W /\
    throughput (successful_queries cfg W) (total_duration r) =
      inr (queries_per_second r).
Proof.
  intros HW. destruct (main_value cfg W HW) as [ks [_ Hr]].
  eexists. split; [exact Hr|]. cbn.
  assert (Hc : count_queries (fst (collect (futures cfg W))) =
               successful_queries cfg W).
  { rewrite collect_count. apply results_records. }
  split; [apply count_queries_sum|]. split; [exact Hc|].
  now rewrite throughput_value, Hc.
Qed.

Lemma total_queries_counts_successes_witness :
  (0 < NUM_THREADS Bench.cfg)%Z /\
  exists r, main Bench.cfg Runs.leaky = inr r /\
    total_queries r = 2 /\ total_errors r = 2.
Proof.
  assert (HW : (0 < NUM_THREADS Bench.cfg)%Z) by reflexivity.
  split; [exact HW|].
  destruct (total_queries_counts_successes Bench.cfg Runs.leaky HW)
    as [r [Hr [_ [Hs _]]]].
  exists r. split; [exact Hr|]. split.
  - rewrite Hs. reflexivity.
  - pose proof Hr as Hr'. vm_compute in Hr'.
    injection Hr' as <-. reflexivity.
Defined.

(** ** The blocks of the report *)

Lemma kind_block_inv (k : query_type) (times : list Qc) (s : kind_stats) :
  kind_block k times = inr s ->
  mean times = inr (avg_time s) /\ median times = inr (median_time s) /\
  py_min times = inr (min_time s) /\ py_max times = inr (max_time s).
Proof.
  unfold kind_block, bind.
  destruct (mean times); [discriminate|].
  destruct (median times); [discriminate|].
  destruct (py_min times); [discriminate|].
  destruct (py_max times); [discriminate|].
  intros [= <-]. repeat split.
Qed.

Lemma block_of_Some (d : dict) (k : query_type) (s : kind_stats) :
  block_of d k = Some s ->
  exists times, dict_get d k = Some times /\ kind_block k times = inr s.
Proof.
  unfold block_of. destruct (dict_get d k) as [times|]; [|discriminate].
  destruct (kind_block k times) as [e|s'] eqn:E; [discriminate|].
  intros [= <-]. eauto.
Qed.

Lemma dict_get_nonempty (d : dict) (k : query_type) (times : list Qc) :
  nonempty_values d -> dict_get d k = Some times -> times <> [].
Proof.
  intros Hd E. rewrite (dict_get_times_of d k Hd) in E.
  destruct (times_of d k); [discriminate|]. injection E as <-. discriminate.
Qed.

Section Report.

Variables (d : dict) (ks : list kind_stats).
Hypothesis values : nonempty_values d.
Hypothesis keys : NoDup (map fst d).
Hypothesis printed : report_kinds d = inr ks.

Lemma report_NoDup : NoDup (map kind ks).
Proof. now rewrite (report_kinds_keys d ks values printed). Qed.

Lemma block_printed (s : kind_stats) :
  In s ks -> block_of d (kind s) = Some s.
Proof.
  intros Hin. rewrite <- (report_kinds_lookup d ks values printed).
  apply kind_line_In; [apply report_NoDup | exact Hin].
Qed.

(** A query type has a block exactly when it has a list of durations. *)
Lemma block_iff_recorded (k : query_type) :
  (exists s, In s ks /\ kind s = k) <->
  (exists t ts, dict_get d k = Some (t :: ts)).
Proof.
  split.
  - intros [s [Hin <-]].
    apply block_printed, block_of_Some in Hin as [times [Hget _]].
    pose proof (dict_get_nonempty d _ _ values Hget) as Hne.
    destruct times as [|t ts]; [congruence|]. eauto.
  - intros [t [ts Hget]].
    destruct (kind_block_nonempty k t ts) as [s [Hs _]].
    exists s. apply kind_line_Some.
    rewrite (report_kinds_lookup d ks values printed).
    unfold block_of. now rewrite Hget, Hs.
Qed.

(** The figures of a block are the statistics of the durations of its
    query type. *)
Lemma block_figures (s : kind_stats) :
  In s ks ->
  exists times,
    dict_get d (kind s) = Some times /\
    count s = List.length times /\ 1 <= count s /\
    mean times = inr (avg_time s) /\
    median times = inr (median_time s) /\
    py_min times = inr (min_time s) /\
    py_max times = inr (max_time s).
Proof.
  intros Hin.
  apply block_printed, block_of_Some in Hin as [times [Hget Hs]].
  exists times. split; [exact Hget|].
  pose proof (dict_get_nonempty d _ _ values Hget) as Hne.
  destruct (kind_block_kind _ _ _ Hs) as [_ Hcount].
  split; [exact Hcount|]. split.
  - rewrite Hcount. destruct times; [congruence | simpl; lia].
  - now apply kind_block_inv in Hs.
Qed.

End Report.

(** C7: the report holds a block (mean, median, min, max) for a query type
    exactly when the merged dictionary holds at least one duration for it,
    at most one block per type; the figures of a block are computed from
    those durations, and a type without a recorded duration is not a key of
    the dictionary and has no block. *)
Theorem kinds_reported_iff_recorded (cfg : config) (W : world) :
  (0 < NUM_THREADS cfg)%Z ->
  exists r, main cfg W = inr r /\
    NoDup (map kind (kinds r)) /\
    (forall k,
       (exists s, In s (kinds r) /\ kind s = k) <->
       (exists t ts, dict_get (all_query_times r) k = Some (t :: ts))) /\
    (forall k,
       dict_get (all_query_times r) k =
       match durations_of k (all_records (futures cfg W)) with
       | [] => None
       | times => Some times
       end) /\
    (forall s, In s (kinds r) ->
       exists times,
         dict_get (all_query_times r) (kind s) = Some times /\
         count s = List.length times /\ 1 <= count s /\
         mean times = inr (avg_time s) /\
         median times = inr (median_time s) /\
         py_min times = inr (min_time s) /\
         py_max times = inr (max_time s)).
Proof.
  intros HW. destruct (main_value cfg W HW) as [ks [Hks Hr]].
  eexists. split; [exact Hr|]. cbn [kinds all_query_times].
  pose proof (collect_nonempty_values (futures cfg W)) as Hv.
  pose proof (collect_keys_NoDup (futures cfg W)) as Hk.
  split; [exact (report_NoDup _ _ Hv Hk Hks)|].
  split; [exact (block_iff_recorded _ _ Hv Hk Hks)|].
  split; [intros k; apply collect_dict_get|].
  exact (block_figures _ _ Hv Hk Hks).
Qed.

Lemma kinds_reported_iff_recorded_witness :
  (0 < NUM_THREADS Bench.cfg)%Z /\
  exists r, main Bench.cfg Runs.mixed = inr r /\
    map kind (kinds r) = [INSERT; SELECT] /\
    ~ (exists s, In s (kinds r) /\ kind s = UPDATE).
Proof.
  assert (HW : (0 < NUM_THREADS Bench.cfg)%Z) by reflexivity.
  split; [exact HW|].
  destruct (kinds_reported_iff_recorded Bench.cfg Runs.mixed HW)
    as [r [Hr [_ [Hiff [Hget _]]]]].
  exists r. split; [exact Hr|]. split.
  - pose proof Hr as Hr'. vm_compute in Hr'.
    injection Hr' as <-. reflexivity.
  - intros Hs. apply Hiff in Hs as [t [ts Hs]].
    rewrite Hget in Hs. discriminate Hs.
Defined.

(** ** The order of the merge *)

Lemma main_report_of (cfg : config) (W : world) :
  (0 < NUM_THREADS cfg)%Z ->
  main cfg W = report_of (futures cfg W) (run_duration W).
Proof. apply main_summarise. Qed.

Section Merge.

Variables rs rs' : list (list (query_type * Qc) * nat).
Hypothesis permuted : Permutation rs rs'.

Lemma collect_count_permutation :
  count_queries (fst (collect rs)) = count_queries (fst (collect rs')).
Proof.
  rewrite !collect_count.
  apply Permutation_length, all_records_permutation, permuted.
Qed.

Lemma collect_errors_permutation :
  snd (collect rs) = snd (collect rs').
Proof.
  rewrite !collect_errors.
  apply Permutation_list_sum, Permutation_map, permuted.
Qed.

Lemma block_of_permutation (k : query_type) :
  block_of (fst (collect rs)) k = block_of (fst (collect rs')) k.
Proof.
  unfold block_of. rewrite !collect_dict_get.
  pose proof (durations_of_permutation k _ _
                (all_records_permutation _ _ permuted)) as P.
  destruct (durations_of k (all_records rs)) as [|t ts],
           (durations_of k (all_records rs')) as [|t' ts'].
  - reflexivity.
  - apply Permutation_nil in P. discriminate.
  - symmetry in P. apply Permutation_nil in P. discriminate.
  - now rewrite (kind_block_permutation k _ _ P).
Qed.

End Merge.

Lemma kinds_included (rs rs' : list (list (query_type * Qc) * nat))
    (ks ks' : list kind_stats) :
  Permutation rs rs' ->
  report_kinds (fst (collect rs)) = inr ks ->
  report_kinds (fst (collect rs')) = inr ks' ->
  forall s, In s ks -> In s ks'.
Proof.
  intros P Hks Hks' s Hin.
  apply (block_printed _ _ (collect_nonempty_values rs)
           (collect_keys_NoDup rs) Hks) in Hin.
  rewrite (block_of_permutation rs rs' P) in Hin.
  rewrite <- (report_kinds_lookup _ _ (collect_nonempty_values rs') Hks')
    in Hin.
  now apply kind_line_Some in Hin.
Qed.

(** C8: the reports made of two lists of worker results that are
    permutations of each other have the same query count, error count and
    throughput, the same block for every query type, and the same blocks up
    to their order. *)
Theorem merge_order_irrelevant
    (rs rs' : list (list (query_type * Qc) * nat)) (total_duration : Qc) :
  Permutation rs rs' ->
  exists r r',
    report_of rs total_duration = inr r /\
    report_of rs' total_duration = inr r' /\
    total_queries r = total_queries r' /\
    total_errors r = total_errors r' /\
    queries_per_second r = queries_per_second r' /\
    (forall k, kind_line (kinds r) k = kind_line (kinds r') k) /\
    Permutation (kinds r) (kinds r').
Proof.
  intros P. unfold report_of.
  destruct (summarise_value (fst (collect rs)) (snd (collect rs))
              total_duration) as [ks [Hks Hr]].
  destruct (summarise_value (fst (collect rs')) (snd (collect rs'))
              total_duration) as [ks' [Hks' Hr']].
  do 2 eexists. split; [exact Hr|]. split; [exact Hr'|].
  cbn [total_queries total_errors queries_per_second kinds].
  pose proof (collect_count_permutation rs rs' P) as Hc.
  split; [exact Hc|].
  split; [exact (collect_errors_permutation rs rs' P)|].
  split; [now rewrite Hc|].
  split.
  - intros k.
    rewrite (report_kinds_lookup _ _ (collect_nonempty_values rs) Hks).
    rewrite (report_kinds_lookup _ _ (collect_nonempty_values rs') Hks').
    apply block_of_permutation, P.
  - apply NoDup_Permutation.
    + eapply NoDup_map_inv,
        (report_NoDup _ _ (collect_nonempty_values rs)
           (collect_keys_NoDup rs) Hks).
    + eapply NoDup_map_inv,
        (report_NoDup _ _ (collect_nonempty_values rs')
           (collect_keys_NoDup rs') Hks').
    + intros s. split.
      * apply (kinds_included rs rs' ks ks' P Hks Hks').
      * apply (kinds_included rs' rs ks' ks (Permutation_sym P) Hks' Hks).
Qed.

(** The dictionaries of two merge orders differ in the order of their keys
    and of their durations. *)
Example merge_orders_differ :
  fst (collect [Merged.first; Merged.second]) =
    [(SELECT, [Bench.ms 5; Bench.ms 1]); (INSERT, [Bench.ms 2])] /\
  fst (collect [Merged.second; Merged.first]) =
    [(INSERT, [Bench.ms 2]); (SELECT, [Bench.ms 1; Bench.ms 5])].
Proof. split; reflexivity. Qed.

Lemma merge_order_irrelevant_witness :
  Permutation [Merged.first; Merged.second] [Merged.second; Merged.first] /\
  exists r r',
    report_of [Merged.first; Merged.second] (Q2Qc 2) = inr r /\
    report_of [Merged.second; Merged.first] (Q2Qc 2) = inr r' /\
    total_queries r = total_queries r' /\
    total_errors r = total_errors r' /\
    queries_per_second r = queries_per_second r' /\
    (forall k, kind_line (kinds r) k = kind_line (kinds r') k) /\
    Permutation (kinds r) (kinds r').
Proof.
  assert (P : Permutation [Merged.first; Merged.second]
                          [Merged.second; Merged.first]) by apply perm_swap.
  split; [exact P|].
  exact (merge_order_irrelevant _ _ (Q2Qc 2) P).
Defined.

(** * Further properties of the load driver *)

(** ** The names of the benchmark databases *)

Lemma prefix_append (p s : string) : String.prefix p (p ++ s) = true.
Proof.
  induction p as [|c p IH]; simpl.
  - now destruct s.
  - destruct (ascii_dec c c); [exact IH | congruence].
Qed.

Lemma append_inj_r (p : string) :
  forall s s' : string, (p ++ s = p ++ s')%string -> s = s'.
Proof.
  induction p as [|c p IH]; intros s s' E; simpl in E; [exact E|].
  injection E as E. auto.
Qed.

Lemma db_name_inj (prefix : string) (i j : nat) :
  (prefix ++ "test" ++ str i = prefix ++ "test" ++ str j)%string -> i = j.
Proof.
  intros E. apply append_inj_r in E. simpl in E.
  injection E as E. now apply Text.str_inj.
Qed.

(** X1: The candidate databases of the load driver: as many as
    [NUM_DATABASES] (none when it is not positive), the [i]-th being
    [<prefix>test<i+1>], pairwise distinct, each starting with the prefix. *)
Theorem DB_NAMES_distinct_prefixed (cfg : config) :
  List.length (DB_NAMES cfg) = Z.to_nat (NUM_DATABASES cfg) /\
  (forall i, i < Z.to_nat (NUM_DATABASES cfg) ->
     nth_error (DB_NAMES cfg) i =
     Some (DB_PREFIX cfg ++ "test" ++ str (S i))%string) /\
  NoDup (DB_NAMES cfg) /\
  Forall (fun name => String.prefix (DB_PREFIX cfg) name = true)
         (DB_NAMES cfg).
Proof.
  unfold DB_NAMES. repeat split.
  - now rewrite length_map, length_seq.
  - intros i Hi.
    rewrite nth_error_map, nth_error_seq.
    destruct (Nat.ltb_spec i (Z.to_nat (NUM_DATABASES cfg))); [|lia].
    reflexivity.
  - apply Finite.Injective_map_NoDup; [|apply seq_NoDup].
    intros i j E. now apply db_name_inj in E.
  - apply Forall_forall. intros name Hin.
    apply in_map_iff in Hin as [i [<- _]]. apply prefix_append.
Qed.

Example DB_NAMES_bench :
  DB_NAMES Bench.cfg = ["bench_test1"; "bench_test2"]%string.
Proof. reflexivity. Qed.

(** ** Statements sent by a worker *)

Lemma executes_app (tr tr' : list event) :
  executes (tr ++ tr') = executes tr + executes tr'.
Proof.
  unfold executes. now rewrite filter_app, length_app.
Qed.

Lemma loop_executes (thread_id : nat) (w : worker_world) (l : list nat)
    (st : worker_state) :
  executes (trace (fold_left (iteration thread_id w) l st)) =
  executes (trace st) + List.length l.
Proof.
  revert st. induction l as [|i l IH]; intros st; cbn [fold_left].
  - simpl. lia.
  - rewrite IH. unfold iteration.
    destruct (outcome w i); cbn [trace]; rewrite executes_app;
      unfold executes; simpl; lia.
Qed.

(** The statements a worker sends, counted. *)
Lemma run_executes (cfg : config) (thread_id : nat)
    (w : worker_world) :
  executes (trace (run_benchmark_thread_traced cfg thread_id w)) =
  if connected cfg w then Z.to_nat (QUERIES_PER_THREAD cfg) else 0.
Proof.
  unfold run_benchmark_thread_traced, connected, query_loop.
  destruct (random_choice (DB_NAMES cfg) (pick w)); [|reflexivity].
  destruct (connects w); [|reflexivity].
  destruct (closes w); cbn [trace connection_error];
    rewrite executes_app, loop_executes, length_range;
    unfold executes; simpl; lia.
Qed.

(** X2: A worker that connected sends one statement per iteration, [Q] in
    all (none when [Q] is not positive), whichever of them fail: a failed
    query is neither retried nor does it end the loop.  A worker that did
    not connect sends none. *)
Theorem one_statement_per_iteration (cfg : config) (thread_id : nat)
    (w : worker_world) :
  executes (trace (run_benchmark_thread_traced cfg thread_id w)) =
  if connected cfg w then Z.to_nat (QUERIES_PER_THREAD cfg) else 0.
Proof. apply run_executes. Qed.

(** ** No database to choose from *)

Lemma random_choice_nil {A} (r : nat) : @random_choice A [] r = None.
Proof. reflexivity. Qed.

Lemma no_database_aborts (cfg : config) (w : worker_world) :
  (NUM_DATABASES cfg <= 0)%Z -> completes cfg w = false.
Proof.
  intros H. unfold completes, connected, DB_NAMES.
  replace (Z.to_nat (NUM_DATABASES cfg)) with 0 by lia. reflexivity.
Qed.

Lemma all_abort_results (cfg : config) (W : world) (l : list nat) :
  (forall i, completes cfg (worker W i) = false) ->
  map (future_result cfg W) l = map (fun _ => ([], 1)) l.
Proof.
  intros H. apply map_ext. intros i. unfold future_result.
  apply run_fails, H.
Qed.

Lemma all_records_aborted (A : Type) (l : list A) :
  all_records (map (fun _ => ([], 1)) l) = [].
Proof.
  unfold all_records. induction l as [|x l IH]; simpl; auto.
Qed.

Lemma errors_aborted (A : Type) (l : list A) :
  list_sum (map snd (map (fun _ : A => (@nil (query_type * Qc), 1)) l)) =
  List.length l.
Proof.
  induction l as [|x l IH]; simpl; auto.
Qed.

(** X3: With [NUM_DATABASES <= 0] there is no name to draw: every worker
    leaves through the outer handler before it connects, and the run reports
    no query, no block and one error per worker. *)
Theorem no_database_no_query (cfg : config) (W : world) :
  (NUM_DATABASES cfg <= 0)%Z -> (0 < NUM_THREADS cfg)%Z ->
  (forall i, run_benchmark_thread cfg i (worker W i) = ([], 1)) /\
  (forall i, executes (worker_trace cfg W i) = 0) /\
  exists r, main cfg W = inr r /\
    all_query_times r = [] /\ total_queries r = 0 /\ kinds r = [] /\
    total_errors r = Z.to_nat (NUM_THREADS cfg).
Proof.
  intros HN HW.
  assert (Hab : forall i, completes cfg (worker W i) = false)
    by (intros i; now apply no_database_aborts).
  split; [intros i; apply run_fails, Hab|].
  split.
  { intros i. unfold worker_trace. rewrite run_executes.
    specialize (Hab i). unfold completes in Hab.
    unfold connected in *. unfold DB_NAMES in *.
    replace (Z.to_nat (NUM_DATABASES cfg)) with 0 by lia. reflexivity. }
  destruct (main_value cfg W HW) as [ks [Hks Hr]].
  assert (Hd : fst (collect (futures cfg W)) = []).
  { rewrite collect_eq. unfold futures.
    rewrite (all_abort_results cfg W _ Hab), all_records_aborted.
    reflexivity. }
  assert (He : snd (collect (futures cfg W)) = Z.to_nat (NUM_THREADS cfg)).
  { rewrite collect_errors. unfold futures.
    rewrite (all_abort_results cfg W _ Hab), errors_aborted.
    apply length_range. }
  rewrite Hd in Hks, Hr. rewrite He in Hr.
  simpl in Hks. injection Hks as <-.
  eexists. split; [exact Hr|]. cbn. repeat split.
Qed.

Lemma no_database_no_query_witness :
  (NUM_DATABASES Runs.unprovisioned <= 0)%Z /\
  (0 < NUM_THREADS Runs.unprovisioned)%Z /\
  exists r, main Runs.unprovisioned Runs.steady = inr r /\
    total_queries r = 0 /\ total_errors r = 2.
Proof.
  assert (HN : (NUM_DATABASES Runs.unprovisioned <= 0)%Z) by discriminate.
  assert (HW : (0 < NUM_THREADS Runs.unprovisioned)%Z) by reflexivity.
  split; [exact HN|]. split; [exact HW|].
  destruct (no_database_no_query Runs.unprovisioned Runs.steady HN HW)
    as [_ [_ [r [Hr [_ [Hq [_ He]]]]]]].
  exists r. split; [exact Hr|]. split; [exact Hq | exact He].
Defined.

(** ** The user names inserted during a run *)

Lemma inserted_usernames_app (tr tr' : list event) :
  inserted_usernames (tr ++ tr') =
  inserted_usernames tr ++ inserted_usernames tr'.
Proof. apply flat_map_app. Qed.

(** The iterations of a worker that draw INSERT. *)
Lemma loop_inserted_usernames (thread_id : nat) (w : worker_world)
    (l : list nat) (st : worker_state) :
  inserted_usernames (trace (fold_left (iteration thread_id w) l st)) =
  inserted_usernames (trace st) ++
  map (username thread_id)
      (filter (fun i => query_type_eqb (draw w i) INSERT) l).
Proof.
  revert st. induction l as [|i l IH]; intros st; cbn [fold_left].
  - simpl. now rewrite app_nil_r.
  - rewrite IH. unfold iteration. cbn [filter].
    destruct (outcome w i); cbn [trace]; rewrite inserted_usernames_app;
      destruct (draw w i); simpl; rewrite ?app_nil_r, <- ?app_assoc;
      reflexivity.
Qed.

Lemma run_inserted_usernames (cfg : config) (thread_id : nat)
    (w : worker_world) :
  inserted_usernames (trace (run_benchmark_thread_traced cfg thread_id w)) =
  if connected cfg w
  then map (username thread_id)
           (filter (fun i => query_type_eqb (draw w i) INSERT)
                   (range (QUERIES_PER_THREAD cfg)))
  else [].
Proof.
  unfold run_benchmark_thread_traced, connected, query_loop.
  destruct (random_choice (DB_NAMES cfg) (pick w)); [|reflexivity].
  destruct (connects w); [|reflexivity].
  destruct (closes w); cbn [trace connection_error];
    rewrite inserted_usernames_app, loop_inserted_usernames; simpl;
    now rewrite app_nil_r.
Qed.

Lemma NoDup_filter {A} (f : A -> bool) (l : list A) :
  NoDup l -> NoDup (filter f l).
Proof.
  induction 1 as [|x l Hx Hl IH]; simpl; [constructor|].
  destruct (f x); [|exact IH].
  constructor; [|exact IH]. intros Hin. apply Hx.
  now apply filter_In in Hin.
Qed.

(** Lists made from distinct indices, duplicate-free and pairwise disjoint,
    are duplicate-free once concatenated. *)
Lemma NoDup_flat_map {A B} (f : A -> list B) (l : list A) :
  NoDup l ->
  (forall a, In a l -> NoDup (f a)) ->
  (forall a a' b, In a l -> In a' l -> In b (f a) -> In b (f a') -> a = a') ->
  NoDup (flat_map f l).
Proof.
  induction 1 as [|x l Hx Hl IH]; intros Hnd Hdisj; simpl; [constructor|].
  apply NoDup_app.
  - apply Hnd. now left.
  - apply IH.
    + intros a Ha. apply Hnd. now right.
    + intros a a' b Ha Ha'. apply Hdisj; now right.
  - intros b Hb Hb'. apply in_flat_map in Hb' as [a [Ha Hb']].
    apply Hx. rewrite (Hdisj x a b); auto; [now left | now right].
Qed.

(** X4: No two INSERT statements of a run carry the same user name,
    whichever workers send them and whether or not they succeed. *)
Theorem inserted_usernames_distinct (cfg : config) (W : world) :
  NoDup (flat_map (fun i => inserted_usernames (worker_trace cfg W i))
                  (range (NUM_THREADS cfg))).
Proof.
  apply NoDup_flat_map.
  - apply seq_NoDup.
  - intros i _. unfold worker_trace. rewrite run_inserted_usernames.
    destruct (connected cfg (worker W i)); [|constructor].
    apply Finite.Injective_map_NoDup.
    + intros a b E. now apply username_inj in E.
    + apply NoDup_filter, seq_NoDup.
  - intros i i' u _ _. unfold worker_trace.
    rewrite !run_inserted_usernames.
    destruct (connected cfg (worker W i)); [|contradiction].
    destruct (connected cfg (worker W i')); [|contradiction].
    intros Hi Hi'.
    apply in_map_iff in Hi as [a [<- _]].
    apply in_map_iff in Hi' as [a' [E _]].
    now apply username_inj in E.
Qed.

Example inserted_usernames_steady :
  flat_map (fun i => inserted_usernames (worker_trace Bench.cfg Runs.steady i))
           (range (NUM_THREADS Bench.cfg)) =
  ["user_0_0"; "user_1_0"]%string.
Proof. reflexivity. Qed.

(** ** The figures of the report *)

Lemma report_kinds_counts (d : dict) (ks : list kind_stats) :
  report_kinds d = inr ks ->
  list_sum (map count ks) = count_queries d.
Proof.
  rewrite count_queries_sum. revert ks.
  induction d as [|[k0 times] d IH]; intros ks E; simpl in *.
  - injection E as <-. reflexivity.
  - destruct times as [|t ts]; [now apply IH|].
    destruct (kind_block k0 (t :: ts)) as [e|s] eqn:Es; [discriminate|].
    simpl in E.
    destruct (report_kinds d) as [e|ks'] eqn:Er; [discriminate|].
    simpl in E. injection E as <-. simpl.
    apply kind_block_kind in Es as [_ ->]. simpl.
    now rewrite (IH ks' eq_refl).
Qed.

(** X5: The counts of the blocks of the report add up to the total query
    count. *)
Theorem block_counts_add_up (cfg : config) (W : world) :
  (0 < NUM_THREADS cfg)%Z ->
  exists r, main cfg W = inr r /\
    list_sum (map count (kinds r)) = total_queries r.
Proof.
  intros HW. destruct (main_value cfg W HW) as [ks [Hks Hr]].
  eexists. split; [exact Hr|]. cbn [kinds total_queries].
  now apply report_kinds_counts.
Qed.

Lemma block_counts_add_up_witness :
  (0 < NUM_THREADS Bench.cfg)%Z /\
  exists r, main Bench.cfg Runs.steady = inr r /\
    map count (kinds r) = [2; 2] /\ total_queries r = 4.
Proof.
  assert (HW : (0 < NUM_THREADS Bench.cfg)%Z) by reflexivity.
  split; [exact HW|].
  destruct (block_counts_add_up Bench.cfg Runs.steady HW) as [r [Hr Hsum]].
  exists r. split; [exact Hr|].
  assert (Hc : map count (kinds r) = [2; 2]).
  { pose proof Hr as Hr'. vm_compute in Hr'.
    injection Hr' as <-. reflexivity. }
  split; [exact Hc|]. rewrite <- Hsum, Hc. reflexivity.
Defined.

(** X6: The error count of a run: the failed queries of the workers that
    returned normally, and one for every other worker. *)
Theorem total_errors_by_worker (cfg : config) (W : world) :
  (0 < NUM_THREADS cfg)%Z ->
  exists r, main cfg W = inr r /\
    total_errors r =
    list_sum
      (map (fun i => if completes cfg (worker W i)
                     then failures cfg (worker W i) else 1)
           (range (NUM_THREADS cfg))).
Proof.
  intros HW. destruct (main_value cfg W HW) as [ks [_ Hr]].
  eexists. split; [exact Hr|]. cbn [total_errors].
  rewrite collect_errors. unfold futures. rewrite map_map. f_equal.
  apply map_ext. intros i. unfold future_result.
  destruct (completes cfg (worker W i)) eqn:E.
  - now rewrite run_completes.
  - now rewrite run_fails.
Qed.

Lemma total_errors_by_worker_witness :
  (0 < NUM_THREADS Bench.cfg)%Z /\
  exists r, main Bench.cfg Runs.leaky = inr r /\ total_errors r = 2.
Proof.
  assert (HW : (0 < NUM_THREADS Bench.cfg)%Z) by reflexivity.
  split; [exact HW|].
  destruct (total_errors_by_worker Bench.cfg Runs.leaky HW) as [r [Hr He]].
  exists r. split; [exact Hr|]. rewrite He. reflexivity.
Defined.

(** ** The order of the blocks *)

Lemma seen_keys (d : dict) (k : query_type) :
  seen (map fst d) k = dict_contains d k.
Proof.
  unfold seen, dict_contains.
  induction d as [|[k0 v0] d IH]; simpl; [reflexivity|].
  destruct (query_type_eqb k k0); simpl; [reflexivity | exact IH].
Qed.

Lemma keys_fold_group (qs : list (query_type * Qc)) (d : dict) :
  map fst (fold_left group qs d) =
  fold_left (fun acc k => if seen acc k then acc else acc ++ [k])
            (map fst qs) (map fst d).
Proof.
  revert d. induction qs as [|[k t] qs IH]; intros d; cbn [fold_left map].
  - reflexivity.
  - rewrite IH, group_eq, keys_set, seen_keys. cbn [fst].
    now destruct (dict_contains d k).
Qed.

(** X7: The dictionary lists the query types, and the report its blocks, in
    the order in which the types first occur in the merged records: worker
    after worker, and for each worker in the order of its iterations. *)
Theorem blocks_in_first_seen_order (cfg : config) (W : world) :
  (0 < NUM_THREADS cfg)%Z ->
  exists r, main cfg W = inr r /\
    map fst (all_query_times r) =
      first_seen (map fst (all_records (futures cfg W))) /\
    map kind (kinds r) = map fst (all_query_times r).
Proof.
  intros HW. destruct (main_value cfg W HW) as [ks [Hks Hr]].
  eexists. split; [exact Hr|]. cbn [kinds all_query_times].
  split.
  - rewrite collect_eq. cbn [fst]. apply keys_fold_group.
  - apply report_kinds_keys; [apply collect_nonempty_values | exact Hks].
Qed.

Lemma blocks_in_first_seen_order_witness :
  (0 < NUM_THREADS Bench.cfg)%Z /\
  exists r, main Bench.cfg Runs.leaky = inr r /\
    map kind (kinds r) = [INSERT; SELECT].
Proof.
  assert (HW : (0 < NUM_THREADS Bench.cfg)%Z) by reflexivity.
  split; [exact HW|].
  destruct (blocks_in_first_seen_order Bench.cfg Runs.leaky HW)
    as [r [Hr [Hd Hk]]].
  exists r. split; [exact Hr|]. rewrite Hk, Hd. reflexivity.
Defined.

(** ** The figures of a block are consistent *)

Section Bounds.

Lemma half_between (lo hi a b : Qc) :
  (lo <= a)%Qc -> (lo <= b)%Qc -> (a <= hi)%Qc -> (b <= hi)%Qc ->
  (lo <= (a + b) / Num.two)%Qc /\ ((a + b) / Num.two <= hi)%Qc.
Proof.
  unfold Qcle, Qcdiv, Qcmult, Qcplus, Qcinv, Num.two, Q2Qc. cbn [this].
  rewrite !Qred_correct. intros. split.
  - apply Qle_shift_div_l; [reflexivity | lra].
  - apply Qle_shift_div_r; [reflexivity | lra].
Qed.

Lemma fold_plus_acc (l : list Qc) (a : Qc) :
  fold_left Qcplus l a = (a + total l)%Qc.
Proof.
  unfold total. revert a. induction l as [|x l IH]; intros a; simpl.
  - now rewrite Qcplus_0_r.
  - rewrite IH, (IH (0 + x)%Qc). ring.
Qed.

Lemma total_cons (x : Qc) (l : list Qc) : total (x :: l) = (x + total l)%Qc.
Proof.
  unfold total at 1. simpl. rewrite fold_plus_acc. ring.
Qed.

Lemma of_nat_S (n : nat) : Num.of_nat (S n) = (Num.of_nat n + 1)%Qc.
Proof.
  apply Qc_is_canon. unfold Num.of_nat, Qcplus, Q2Qc. cbn [this].
  rewrite !Qred_correct. rewrite Nat2Z.inj_succ, <- Z.add_1_r, inject_Z_plus.
  reflexivity.
Qed.

Lemma of_nat_S_positive (n : nat) : (0 < Num.of_nat (S n))%Qc.
Proof.
  unfold Qclt, Num.of_nat, Q2Qc. cbn [this]. rewrite !Qred_correct.
  unfold Qlt. simpl. lia.
Qed.

Lemma total_lower (lo : Qc) (l : list Qc) :
  (forall y, In y l -> (lo <= y)%Qc) ->
  (lo * Num.of_nat (List.length l) <= total l)%Qc.
Proof.
  induction l as [|x l IH]; intros H.
  - unfold total. simpl. rewrite Qcmult_0_r. apply Qcle_refl.
  - cbn [List.length]. rewrite total_cons, of_nat_S.
    replace (lo * (Num.of_nat (List.length l) + 1))%Qc
      with (lo + lo * Num.of_nat (List.length l))%Qc by ring.
    apply Qcplus_le_compat; [apply H; now left|].
    apply IH. intros y Hy. apply H. now right.
Qed.

Lemma total_upper (hi : Qc) (l : list Qc) :
  (forall y, In y l -> (y <= hi)%Qc) ->
  (total l <= hi * Num.of_nat (List.length l))%Qc.
Proof.
  induction l as [|x l IH]; intros H.
  - unfold total. simpl. rewrite Qcmult_0_r. apply Qcle_refl.
  - cbn [List.length]. rewrite total_cons, of_nat_S.
    replace (hi * (Num.of_nat (List.length l) + 1))%Qc
      with (hi + hi * Num.of_nat (List.length l))%Qc by ring.
    apply Qcplus_le_compat; [apply H; now left|].
    apply IH. intros y Hy. apply H. now right.
Qed.

(** The mean of a non-empty list lies between its bounds. *)
Lemma mean_between (lo hi : Qc) (l : list Qc) (m : Qc) :
  (forall y, In y l -> (lo <= y)%Qc) ->
  (forall y, In y l -> (y <= hi)%Qc) ->
  mean l = inr m -> (lo <= m)%Qc /\ (m <= hi)%Qc.
Proof.
  intros Hlo Hhi E. destruct l as [|x l]; [discriminate|].
  rewrite mean_nonempty in E. injection E as <-.
  pose proof (of_nat_S_positive (List.length l)) as Hpos.
  pose proof (NumFacts.of_nat_S_nonzero (List.length l)) as Hnz.
  assert (Hq : (total (x :: l) / Num.of_nat (S (List.length l))
                * Num.of_nat (S (List.length l)))%Qc = total (x :: l))
    by (field; exact Hnz).
  split.
  - apply (Qcmult_lt_0_le_reg_r _ _ _ Hpos). rewrite Hq.
    apply (total_lower lo (x :: l) Hlo).
  - apply (Qcmult_lt_0_le_reg_r _ _ _ Hpos). rewrite Hq.
    apply (total_upper hi (x :: l) Hhi).
Qed.

Lemma insert_In (x y : Qc) (l : list Qc) :
  In y (insert x l) <-> y = x \/ In y l.
Proof.
  induction l as [|z l IH]; simpl.
  - intuition.
  - destruct (Num.leb x z); simpl; [intuition|].
    rewrite IH. intuition.
Qed.

Lemma sorted_In (y : Qc) (l : list Qc) : In y (sorted l) <-> In y l.
Proof.
  induction l as [|x l IH]; simpl; [reflexivity|].
  rewrite insert_In, IH. intuition.
Qed.

(** The median of a non-empty list lies between its bounds. *)
Lemma median_between (lo hi : Qc) (l : list Qc) (m : Qc) :
  (forall y, In y l -> (lo <= y)%Qc) ->
  (forall y, In y l -> (y <= hi)%Qc) ->
  median l = inr m -> (lo <= m)%Qc /\ (m <= hi)%Qc.
Proof.
  intros Hlo Hhi. unfold median.
  assert (Hnth : forall i, i < List.length (sorted l) ->
                 In (nth i (sorted l) 0%Qc) l)
    by (intros i Hi; apply sorted_In, nth_In, Hi).
  destruct (List.length (sorted l) =? 0)%nat eqn:E0; [discriminate|].
  apply Nat.eqb_neq in E0.
  assert (Hhalf : List.length (sorted l) / 2 < List.length (sorted l))
    by (apply Nat.div_lt; lia).
  remember (List.length (sorted l) / 2) as h eqn:Eh. clear Eh.
  destruct (List.length (sorted l) mod 2 =? 1)%nat.
  - intros [= <-]. split; [apply Hlo | apply Hhi]; apply Hnth, Hhalf.
  - unfold truediv. rewrite NumFacts.two_nonzero. intros [= <-].
    apply half_between; [apply Hlo | apply Hlo | apply Hhi | apply Hhi];
      apply Hnth; lia.
Qed.

End Bounds.

(** X8: In every block of the report the minimum and the maximum are
    durations of that query type, and the mean and the median lie between
    them. *)
Theorem block_figures_ordered (cfg : config) (W : world) :
  (0 < NUM_THREADS cfg)%Z ->
  exists r, main cfg W = inr r /\
    forall s, In s (kinds r) ->
      In (min_time s) (times_of (all_query_times r) (kind s)) /\
      In (max_time s) (times_of (all_query_times r) (kind s)) /\
      (min_time s <= avg_time s <= max_time s)%Qc /\
      (min_time s <= median_time s <= max_time s)%Qc.
Proof.
  intros HW. destruct (main_value cfg W HW) as [ks [Hks Hr]].
  eexists. split; [exact Hr|]. cbn [kinds all_query_times].
  intros s Hin.
  destruct (block_figures _ _ (collect_nonempty_values (futures cfg W))
              (collect_keys_NoDup (futures cfg W)) Hks s Hin)
    as [times [Hget [_ [_ [Hmean [Hmed [Hmin Hmax]]]]]]].
  unfold times_of. rewrite Hget.
  destruct times as [|t ts]; [discriminate|].
  simpl in Hmin, Hmax. injection Hmin as Hmin. injection Hmax as Hmax.
  destruct (fold_min_least ts t) as [Hlo_in Hlo].
  destruct (fold_max_greatest ts t) as [Hhi_in Hhi].
  rewrite Hmin in Hlo_in, Hlo. rewrite Hmax in Hhi_in, Hhi.
  split; [exact Hlo_in|]. split; [exact Hhi_in|].
  split.
  - exact (mean_between _ _ _ _ Hlo Hhi Hmean).
  - exact (median_between _ _ _ _ Hlo Hhi Hmed).
Qed.

Lemma block_figures_ordered_witness :
  (0 < NUM_THREADS Bench.cfg)%Z /\
  exists r, main Bench.cfg Runs.leaky = inr r /\
    forall s, In s (kinds r) ->
      (min_time s <= avg_time s <= max_time s)%Qc /\
      (min_time s <= median_time s <= max_time s)%Qc.
Proof.
  assert (HW : (0 < NUM_THREADS Bench.cfg)%Z) by reflexivity.
  split; [exact HW|].
  destruct (block_figures_ordered Bench.cfg Runs.leaky HW) as [r [Hr H]].
  exists r. split; [exact Hr|].
  intros s Hin. destruct (H s Hin) as [_ [_ [Ha Hm]]]. split; assumption.
Defined.

(** * Properties of [cleanup_databases.py] *)

Example cleanup_confirmed :
  Db.run (Cleanup.main Servers.bench (Servers.busy "Y")) =
  ([Db.Connect; Db.LogInfo "Connected to db1";
    Db.OpenCursor; Db.Execute "SHOW DATABASES" []; Db.CloseCursor;
    Db.LogInfo "Found 2 benchmark databases:";
    Db.LogInfo "  - bench_test1"; Db.LogInfo "  - bench_test2";
    Db.Input "Do you want to drop these 2 databases? (y/N): ";
    Db.OpenCursor; Db.Execute "DROP DATABASE IF EXISTS bench_test1" [];
    Db.LogInfo "Dropped database bench_test1"; Db.CloseCursor;
    Db.OpenCursor; Db.Execute "DROP DATABASE IF EXISTS bench_test2" [];
    Db.LogError "Error dropping database bench_test2: access denied";
    Db.CloseCursor;
    Db.CloseConnection; Db.LogInfo "Cleanup completed"],
   inr tt).
Proof. reflexivity. Qed.

Example cleanup_cancelled :
  Db.run (Cleanup.main Servers.bench (Servers.busy "yes")) =
  ([Db.Connect; Db.LogInfo "Connected to db1";
    Db.OpenCursor; Db.Execute "SHOW DATABASES" []; Db.CloseCursor;
    Db.LogInfo "Found 2 benchmark databases:";
    Db.LogInfo "  - bench_test1"; Db.LogInfo "  - bench_test2";
    Db.Input "Do you want to drop these 2 databases? (y/N): ";
    Db.LogInfo "Cleanup cancelled"],
   inr tt).
Proof. reflexivity. Qed.

Section CleanupRun.

Import Db.

Variables (cfg : Cleanup.settings) (W : Cleanup.world).

Lemma for_each_emit {A} (f : A -> event) (l : list A) (tr : list event) :
  for_each l (fun x => emit (f x)) tr = (tr ++ map f l, inr tt).
Proof.
  revert tr. induction l as [|x l IH]; intros tr; simpl.
  - unfold ret. now rewrite app_nil_r.
  - unfold bind, emit. rewrite IH. now rewrite <- app_assoc.
Qed.

(** A call of [drop_database] returns, whether or not the statement
    raises. *)
Lemma drop_database_run (db_name : string) (tr : list event) :
  Cleanup.drop_database W db_name tr =
  (tr ++ drop_events W db_name, inr tt).
Proof.
  unfold Cleanup.drop_database, drop_events, drop_statement,
    try_finally, try_except, bind, emit, attempt, raise, ret.
  destruct (Cleanup.drop W db_name) as [e|]; simpl;
    now rewrite <- !app_assoc.
Qed.

Lemma drop_all_run (dbs : list string) (tr : list event) :
  for_each dbs (Cleanup.drop_database W) tr =
  (tr ++ flat_map (drop_events W) dbs, inr tt).
Proof.
  revert tr. induction dbs as [|db dbs IH]; intros tr; simpl.
  - unfold ret. now rewrite app_nil_r.
  - unfold bind. rewrite drop_database_run, IH. now rewrite <- app_assoc.
Qed.

Lemma bind_emit {A} (e : event) (k : unit -> M A) (tr : list event) :
  bind (emit e) k tr = k tt (tr ++ [e]).
Proof. reflexivity. Qed.

Lemma bind_ret {A B} (a : A) (k : A -> M B) (tr : list event) :
  bind (ret a) k tr = k a tr.
Proof. reflexivity. Qed.

Lemma bind_for_each_emit {A B} (f : A -> event) (l : list A)
    (k : unit -> M B) (tr : list event) :
  bind (for_each l (fun x => emit (f x))) k tr = k tt (tr ++ map f l).
Proof. unfold bind at 1. now rewrite for_each_emit. Qed.

Lemma bind_drop_all {B} (dbs : list string) (k : unit -> M B)
    (tr : list event) :
  bind (for_each dbs (Cleanup.drop_database W)) k tr =
  k tt (tr ++ flat_map (drop_events W) dbs).
Proof. unfold bind at 1. now rewrite drop_all_run. Qed.

Lemma connect_run (tr : list event) :
  Cleanup.connect_to_db cfg W tr =
  match Cleanup.connect W with
  | Some e =>
      (tr ++ [Connect; LogError ("Error connecting to database: " ++ e)],
       inl (Error e))
  | None =>
      (tr ++ [Connect; LogInfo ("Connected to " ++ Cleanup.DB_HOST cfg)],
       inr tt)
  end.
Proof.
  unfold Cleanup.connect_to_db, try_except, bind, emit, attempt, raise, ret.
  destruct (Cleanup.connect W); now rewrite <- app_assoc.
Qed.

Lemma list_databases_run (tr : list event) :
  Cleanup.list_databases W tr =
  match Cleanup.show_databases W with
  | inl e =>
      (tr ++ [OpenCursor; Execute "SHOW DATABASES" [];
              LogError ("Error listing databases: " ++ e); CloseCursor],
       inl (Error e))
  | inr databases =>
      (tr ++ [OpenCursor; Execute "SHOW DATABASES" []; CloseCursor],
       inr databases)
  end.
Proof.
  unfold Cleanup.list_databases, try_finally, try_except, bind, emit, raise,
    ret.
  destruct (Cleanup.show_databases W); now rewrite <- !app_assoc.
Qed.

(** The run of the script, case by case. *)
Lemma main_run :
  run (Cleanup.main cfg W) =
  match Cleanup.connect W with
  | Some e =>
      ([Connect; LogError ("Error connecting to database: " ++ e)],
       inl (Error e))
  | None =>
      match Cleanup.show_databases W with
      | inl e =>
          ([Connect; LogInfo ("Connected to " ++ Cleanup.DB_HOST cfg);
            OpenCursor; Execute "SHOW DATABASES" [];
            LogError ("Error listing databases: " ++ e); CloseCursor],
           inl (Error e))
      | inr databases =>
          match selected cfg databases with
          | [] =>
              (listing_events cfg ++
               [LogInfo ("No databases found with prefix "
                         ++ Cleanup.DB_PREFIX cfg)],
               inr tt)
          | dbs =>
              if String.eqb (Cleanup.lower (Cleanup.answer W)) "y"
              then
                (listing_events cfg ++ prompt_events dbs ++
                 flat_map (drop_events W) dbs ++
                 [CloseConnection; LogInfo "Cleanup completed"],
                 inr tt)
              else
                (listing_events cfg ++ prompt_events dbs ++
                 [LogInfo "Cleanup cancelled"],
                 inr tt)
          end
      end
  end.
Proof.
  unfold run, Cleanup.main. unfold bind at 1. rewrite connect_run.
  destruct (Cleanup.connect W) as [e|]; [reflexivity|].
  unfold bind at 1. rewrite list_databases_run.
  destruct (Cleanup.show_databases W) as [e|databases]; [reflexivity|].
  fold (selected cfg databases).
  destruct (selected cfg databases) as [|db dbs]; [reflexivity|].
  rewrite bind_emit, bind_for_each_emit, bind_emit.
  unfold listing_events, prompt_events.
  destruct (String.eqb (Cleanup.lower (Cleanup.answer W)) "y"); cbn [negb].
  - rewrite bind_drop_all, bind_emit. unfold emit.
    cbn [app]. rewrite <- ?app_assoc. reflexivity.
  - unfold emit. cbn [app]. rewrite <- ?app_assoc. reflexivity.
Qed.

End CleanupRun.

Lemma lower_char_y (c : ascii) :
  Cleanup.lower_char c = "y"%char -> c = "y"%char \/ c = "Y"%char.
Proof.
  destruct c as [[] [] [] [] [] [] [] []]; vm_compute; intros E;
    first [discriminate E | now left | now right].
Qed.

(** Only [y] and [Y] are lowered to [y]. *)
Lemma lower_y (s : string) :
  Cleanup.lower s = "y"%string <-> s = "y"%string \/ s = "Y"%string.
Proof.
  split.
  - destruct s as [|c [|c' s']]; simpl; intros E; try discriminate E.
    injection E as E. apply lower_char_y in E as [->| ->]; auto.
  - intros [->| ->]; reflexivity.
Qed.

Lemma confirmed_iff (W : Cleanup.world) :
  String.eqb (Cleanup.lower (Cleanup.answer W)) "y" = true <->
  Cleanup.answer W = "y"%string \/ Cleanup.answer W = "Y"%string.
Proof. rewrite String.eqb_eq. apply lower_y. Qed.

Lemma executed_app (tr tr' : list Db.event) :
  executed (tr ++ tr') = executed tr ++ executed tr'.
Proof. apply flat_map_app. Qed.

Lemma executed_logs {A} (f : A -> string) (l : list A) :
  executed (map (fun x => Db.LogInfo (f x)) l) = [].
Proof. induction l; simpl; auto. Qed.

Lemma executed_drops (W : Cleanup.world) (dbs : list string) :
  executed (flat_map (drop_events W) dbs) = map drop_statement dbs.
Proof.
  induction dbs as [|db dbs IH]; [reflexivity|].
  cbn [flat_map map]. rewrite executed_app, IH.
  unfold drop_events. now destruct (Cleanup.drop W db).
Qed.

Lemma executed_prompt (dbs : list string) : executed (prompt_events dbs) = [].
Proof.
  unfold prompt_events. rewrite !executed_app, executed_logs. reflexivity.
Qed.

(** The statements of a run of the script. *)
Lemma cleanup_executed (cfg : Cleanup.settings) (W : Cleanup.world) :
  executed (fst (Db.run (Cleanup.main cfg W))) =
  match Cleanup.connect W, Cleanup.show_databases W with
  | Some _, _ => []
  | None, inl _ => ["SHOW DATABASES"%string]
  | None, inr databases =>
      if String.eqb (Cleanup.lower (Cleanup.answer W)) "y"
      then "SHOW DATABASES"%string
           :: map drop_statement (selected cfg databases)
      else ["SHOW DATABASES"%string]
  end.
Proof.
  rewrite main_run.
  destruct (Cleanup.connect W) as [e|]; [reflexivity|].
  destruct (Cleanup.show_databases W) as [e|databases]; [reflexivity|].
  destruct (selected cfg databases) as [|db dbs] eqn:Hsel.
  - now destruct (String.eqb (Cleanup.lower (Cleanup.answer W)) "y").
  - destruct (String.eqb (Cleanup.lower (Cleanup.answer W)) "y");
      cbn [fst]; rewrite !executed_app, executed_prompt, ?executed_drops;
      simpl; rewrite ?app_nil_r; reflexivity.
Qed.

(** X9: The script sends no statement but [SHOW DATABASES] and, for
    databases the server listed and whose name starts with the prefix, [DROP
    DATABASE IF EXISTS]. *)
Theorem cleanup_drops_only_selected (cfg : Cleanup.settings)
    (W : Cleanup.world) (sql : string) :
  In sql (executed (fst (Db.run (Cleanup.main cfg W)))) ->
  sql = "SHOW DATABASES"%string \/
  exists databases db_name,
    Cleanup.show_databases W = inr databases /\
    In db_name databases /\
    String.prefix (Cleanup.DB_PREFIX cfg) db_name = true /\
    sql = drop_statement db_name.
Proof.
  rewrite cleanup_executed.
  destruct (Cleanup.connect W) as [e|]; [contradiction|].
  destruct (Cleanup.show_databases W) as [e|databases].
  { intros [<-|[]]. now left. }
  destruct (String.eqb (Cleanup.lower (Cleanup.answer W)) "y").
  - intros [<-|Hin]; [now left|]. right.
    apply in_map_iff in Hin as [db [<- Hdb]].
    apply filter_In in Hdb as [Hdb Hp].
    exists databases, db. auto.
  - intros [<-|[]]. now left.
Qed.

Lemma cleanup_drops_only_selected_witness :
  In "DROP DATABASE IF EXISTS bench_test2"%string
     (executed (fst (Db.run (Cleanup.main Servers.bench
                                          (Servers.busy "y"))))) /\
  ("DROP DATABASE IF EXISTS bench_test2"%string = "SHOW DATABASES"%string \/
   exists databases db_name,
     Cleanup.show_databases (Servers.busy "y") = inr databases /\
     In db_name databases /\
     String.prefix (Cleanup.DB_PREFIX Servers.bench) db_name = true /\
     "DROP DATABASE IF EXISTS bench_test2"%string = drop_statement db_name).
Proof.
  assert (H : In "DROP DATABASE IF EXISTS bench_test2"%string
                 (executed (fst (Db.run (Cleanup.main Servers.bench
                                           (Servers.busy "y"))))))
    by (vm_compute; auto).
  split; [exact H|].
  exact (cleanup_drops_only_selected Servers.bench (Servers.busy "y") _ H).
Defined.

(** X10: Unless the answer to the prompt is exactly [y] or [Y], the script
    drops nothing: it sends no statement but [SHOW DATABASES], and it
    returns without closing the connection. *)
Theorem cleanup_needs_confirmation (cfg : Cleanup.settings)
    (W : Cleanup.world) :
  Cleanup.answer W <> "y"%string -> Cleanup.answer W <> "Y"%string ->
  (forall sql, In sql (executed (fst (Db.run (Cleanup.main cfg W)))) ->
               sql = "SHOW DATABASES"%string) /\
  ~ In Db.CloseConnection (fst (Db.run (Cleanup.main cfg W))).
Proof.
  intros Hy HY.
  assert (Hno : String.eqb (Cleanup.lower (Cleanup.answer W)) "y" = false).
  { destruct (String.eqb (Cleanup.lower (Cleanup.answer W)) "y") eqn:E;
      [|reflexivity].
    apply confirmed_iff in E as [E|E]; contradiction. }
  split.
  - intros sql. rewrite cleanup_executed, Hno.
    destruct (Cleanup.connect W) as [e|]; [contradiction|].
    destruct (Cleanup.show_databases W) as [e|databases];
      intros [<-|[]]; reflexivity.
  - rewrite main_run, Hno.
    destruct (Cleanup.connect W) as [e|].
    { simpl. intros [E|[E|[]]]; discriminate E. }
    destruct (Cleanup.show_databases W) as [e|databases].
    { simpl. intuition discriminate. }
    destruct (selected cfg databases) as [|db dbs]; cbn [fst].
    + simpl. intuition discriminate.
    + unfold listing_events, prompt_events.
      rewrite !in_app_iff, in_map_iff. simpl.
      intros [H|[[H|[[x [H _]]|H]]|H]]; try discriminate H;
        intuition discriminate.
Qed.

Lemma cleanup_needs_confirmation_witness :
  Cleanup.answer (Servers.busy "yes") <> "y"%string /\
  Cleanup.answer (Servers.busy "yes") <> "Y"%string /\
  executed (fst (Db.run (Cleanup.main Servers.bench (Servers.busy "yes"))))
    = ["SHOW DATABASES"%string] /\
  ~ In Db.CloseConnection
       (fst (Db.run (Cleanup.main Servers.bench (Servers.busy "yes")))).
Proof.
  assert (Hy : Cleanup.answer (Servers.busy "yes") <> "y"%string)
    by discriminate.
  assert (HY : Cleanup.answer (Servers.busy "yes") <> "Y"%string)
    by discriminate.
  split; [exact Hy|]. split; [exact HY|]. split; [reflexivity|].
  exact (proj2 (cleanup_needs_confirmation Servers.bench
                  (Servers.busy "yes") Hy HY)).
Defined.

(** X11: After [y] or [Y], every selected database gets one [DROP DATABASE
    IF EXISTS], in the order of the listing, whether or not earlier drops
    raised; the script then closes the connection and returns. *)
Theorem cleanup_drops_every_selected (cfg : Cleanup.settings)
    (W : Cleanup.world) (databases : list string) :
  Cleanup.connect W = None ->
  Cleanup.show_databases W = inr databases ->
  Cleanup.answer W = "y"%string \/ Cleanup.answer W = "Y"%string ->
  executed (fst (Db.run (Cleanup.main cfg W))) =
    "SHOW DATABASES"%string :: map drop_statement (selected cfg databases) /\
  snd (Db.run (Cleanup.main cfg W)) = inr tt /\
  (selected cfg databases <> [] ->
   In Db.CloseConnection (fst (Db.run (Cleanup.main cfg W)))).
Proof.
  intros Hc Hs Ha. apply confirmed_iff in Ha.
  split; [|split].
  - now rewrite cleanup_executed, Hc, Hs, Ha.
  - rewrite main_run, Hc, Hs, Ha.
    now destruct (selected cfg databases).
  - intros Hne. rewrite main_run, Hc, Hs, Ha.
    destruct (selected cfg databases) as [|db dbs]; [congruence|].
    cbn [fst]. rewrite !in_app_iff. right. right. right. now left.
Qed.

Lemma cleanup_drops_every_selected_witness :
  Cleanup.connect (Servers.busy "Y") = None /\
  (Cleanup.answer (Servers.busy "Y") = "y"%string \/
   Cleanup.answer (Servers.busy "Y") = "Y"%string) /\
  executed (fst (Db.run (Cleanup.main Servers.bench (Servers.busy "Y")))) =
    ["SHOW DATABASES"; "DROP DATABASE IF EXISTS bench_test1";
     "DROP DATABASE IF EXISTS bench_test2"]%string /\
  snd (Db.run (Cleanup.main Servers.bench (Servers.busy "Y"))) = inr tt.
Proof.
  assert (Hc : Cleanup.connect (Servers.busy "Y") = None) by reflexivity.
  assert (Ha : Cleanup.answer (Servers.busy "Y") = "y"%string \/
               Cleanup.answer (Servers.busy "Y") = "Y"%string)
    by (right; reflexivity).
  split; [exact Hc|]. split; [exact Ha|].
  destruct (cleanup_drops_every_selected Servers.bench (Servers.busy "Y")
              _ Hc eq_refl Ha) as [He [Hr _]].
  split; [exact He | exact Hr].
Defined.

(** ** Cursors *)

Lemma cursors_opened_app (tr tr' : list Db.event) :
  cursors_opened (tr ++ tr') = cursors_opened tr + cursors_opened tr'.
Proof. unfold cursors_opened. now rewrite filter_app, length_app. Qed.

Lemma cursors_closed_app (tr tr' : list Db.event) :
  cursors_closed (tr ++ tr') = cursors_closed tr + cursors_closed tr'.
Proof. unfold cursors_closed. now rewrite filter_app, length_app. Qed.

Lemma cursors_logs {A} (f : A -> string) (l : list A) :
  cursors_opened (map (fun x => Db.LogInfo (f x)) l) = 0 /\
  cursors_closed (map (fun x => Db.LogInfo (f x)) l) = 0.
Proof. induction l; simpl; auto. Qed.

Lemma cursors_drops (W : Cleanup.world) (dbs : list string) :
  cursors_opened (flat_map (drop_events W) dbs) = List.length dbs /\
  cursors_closed (flat_map (drop_events W) dbs) = List.length dbs.
Proof.
  induction dbs as [|db dbs [IHo IHc]]; [split; reflexivity|].
  cbn [flat_map List.length].
  rewrite cursors_opened_app, cursors_closed_app, IHo, IHc.
  unfold drop_events. destruct (Cleanup.drop W db); split; reflexivity.
Qed.

(** X12: Every cursor the script opens it closes, on every path: after a
    listing that raised, after a drop that raised, after a cancelled prompt. *)
Theorem cleanup_closes_its_cursors (cfg : Cleanup.settings)
    (W : Cleanup.world) :
  cursors_closed (fst (Db.run (Cleanup.main cfg W))) =
  cursors_opened (fst (Db.run (Cleanup.main cfg W))).
Proof.
  rewrite main_run.
  destruct (Cleanup.connect W) as [e|]; [reflexivity|].
  destruct (Cleanup.show_databases W) as [e|databases]; [reflexivity|].
  destruct (selected cfg databases) as [|db dbs]; [reflexivity|].
  unfold prompt_events.
  destruct (String.eqb (Cleanup.lower (Cleanup.answer W)) "y"); cbn [fst];
    rewrite !cursors_opened_app, !cursors_closed_app;
    rewrite (proj1 (cursors_logs _ _)), (proj2 (cursors_logs _ _));
    rewrite ?(proj1 (cursors_drops _ _)), ?(proj2 (cursors_drops _ _));
    reflexivity.
Qed.

(** ** Failures before the prompt *)

(** X13: A connection that fails, or a listing that raises, ends the script
    with that exception: nothing is asked and nothing is dropped.  After a
    failed listing the cursor is closed and the connection is left open. *)
Theorem cleanup_stops_on_failure (cfg : Cleanup.settings)
    (W : Cleanup.world) :
  (forall e, Cleanup.connect W = Some e ->
     Db.run (Cleanup.main cfg W) =
     ([Db.Connect; Db.LogError ("Error connecting to database: " ++ e)],
      inl (Db.Error e))) /\
  (forall e, Cleanup.connect W = None ->
     Cleanup.show_databases W = inl e ->
     Db.run (Cleanup.main cfg W) =
     ([Db.Connect; Db.LogInfo ("Connected to " ++ Cleanup.DB_HOST cfg);
       Db.OpenCursor; Db.Execute "SHOW DATABASES" [];
       Db.LogError ("Error listing databases: " ++ e); Db.CloseCursor],
      inl (Db.Error e))).
Proof.
  split.
  - intros e Hc. now rewrite main_run, Hc.
  - intros e Hc Hs. now rewrite main_run, Hc, Hs.
Qed.

(** ** The prefix *)

Lemma prefix_empty (s : string) : String.prefix "" s = true.
Proof. now destruct s. Qed.

Lemma selected_all (cfg : Cleanup.settings) (databases : list string) :
  Cleanup.DB_PREFIX cfg = ""%string -> selected cfg databases = databases.
Proof.
  intros H. unfold selected. rewrite H.
  apply filter_all. intros db _. apply prefix_empty.
Qed.

(** X14: With an empty prefix nothing is filtered out: once confirmed, the
    script drops every database the server lists. *)
Theorem cleanup_empty_prefix_drops_all (cfg : Cleanup.settings)
    (W : Cleanup.world) (databases : list string) :
  Cleanup.DB_PREFIX cfg = ""%string ->
  Cleanup.connect W = None ->
  Cleanup.show_databases W = inr databases ->
  Cleanup.answer W = "y"%string \/ Cleanup.answer W = "Y"%string ->
  executed (fst (Db.run (Cleanup.main cfg W))) =
  "SHOW DATABASES"%string :: map drop_statement databases.
Proof.
  intros Hp Hc Hs Ha. apply confirmed_iff in Ha.
  now rewrite cleanup_executed, Hc, Hs, Ha, selected_all.
Qed.

Lemma cleanup_empty_prefix_drops_all_witness :
  Cleanup.DB_PREFIX Servers.unprefixed = ""%string /\
  executed (fst (Db.run (Cleanup.main Servers.unprefixed
                                      (Servers.busy "y")))) =
  ["SHOW DATABASES"; "DROP DATABASE IF EXISTS information_schema";
   "DROP DATABASE IF EXISTS bench_test1"; "DROP DATABASE IF EXISTS mysql";
   "DROP DATABASE IF EXISTS bench_test2"]%string.
Proof.
  split; [reflexivity|].
  exact (cleanup_empty_prefix_drops_all Servers.unprefixed
           (Servers.busy "y") _ eq_refl eq_refl eq_refl
           (or_introl eq_refl)).
Defined.

(** X15: The cleanup, run with the prefix of the load driver, selects every
    database of [DB_NAMES] the server lists: once confirmed, each of them is
    dropped. *)
Theorem cleanup_covers_benchmark_databases (bench : config)
    (cfg : Cleanup.settings) (W : Cleanup.world) (databases : list string)
    (name : string) :
  Cleanup.DB_PREFIX cfg = DB_PREFIX bench ->
  Cleanup.connect W = None ->
  Cleanup.show_databases W = inr databases ->
  Cleanup.answer W = "y"%string \/ Cleanup.answer W = "Y"%string ->
  In name (DB_NAMES bench) -> In name databases ->
  In (drop_statement name) (executed (fst (Db.run (Cleanup.main cfg W)))).
Proof.
  intros Hp Hc Hs Ha Hname Hlisted. apply confirmed_iff in Ha.
  rewrite cleanup_executed, Hc, Hs, Ha. right.
  apply in_map, filter_In. split; [exact Hlisted|].
  rewrite Hp. unfold DB_NAMES in Hname.
  apply in_map_iff in Hname as [i [<- _]]. apply prefix_append.
Qed.

Lemma cleanup_covers_benchmark_databases_witness :
  In "bench_test2"%string (DB_NAMES Bench.cfg) /\
  In (drop_statement "bench_test2")
     (executed (fst (Db.run (Cleanup.main Servers.bench
                                          (Servers.busy "y"))))).
Proof.
  assert (Hn : In "bench_test2"%string (DB_NAMES Bench.cfg))
    by (right; left; reflexivity).
  split; [exact Hn|].
  apply (cleanup_covers_benchmark_databases Bench.cfg Servers.bench
           (Servers.busy "y") _ "bench_test2" eq_refl eq_refl eq_refl
           (or_introl eq_refl) Hn).
  do 3 right. left. reflexivity.
Defined.

(** * Properties of [generate_testdata.py] *)

(** ** Properties of the events a computation adds *)

Section Extends.

Import Db.

Variable P : list event -> Prop.
Hypothesis P_nil : P [].
Hypothesis P_app : forall a b, P a -> P b -> P (a ++ b).

Lemma extends_ret {A} (a : A) : extends P (ret a).
Proof. intros tr. exists []. now rewrite app_nil_r. Qed.

Lemma extends_raise {A} (e : raised) : extends P (@raise A e).
Proof. intros tr. exists []. now rewrite app_nil_r. Qed.

Lemma extends_ask {A} (f : list event -> A) : extends P (Generate.ask f).
Proof. intros tr. exists []. now rewrite app_nil_r. Qed.

Lemma extends_attempt (o : option string) : extends P (attempt o).
Proof. destruct o; [apply extends_raise | apply extends_ret]. Qed.

Lemma extends_emit (e : event) : P [e] -> extends P (emit e).
Proof. intros H tr. exists [e]. auto. Qed.

Lemma extends_execute (W : Generate.world) (sql : string)
    (params : list value) :
  P [Execute sql params] -> extends P (Generate.execute W sql params).
Proof.
  intros H tr. exists [Execute sql params]. unfold Generate.execute.
  destruct (Generate.respond W (tr ++ [Execute sql params])); auto.
Qed.

Lemma extends_commit (W : Generate.world) :
  P [Commit] -> extends P (Generate.commit W).
Proof.
  intros H tr. exists [Commit]. unfold Generate.commit.
  destruct (Generate.respond W (tr ++ [Commit])); auto.
Qed.

Lemma extends_bind {A B} (m : M A) (k : A -> M B) :
  extends P m -> (forall a, extends P (k a)) -> extends P (bind m k).
Proof.
  intros Hm Hk tr. destruct (Hm tr) as [ev [E Hev]]. unfold bind.
  destruct (m tr) as [tr' [e|a]]; simpl in E; subst tr'.
  - exists ev. auto.
  - destruct (Hk a (tr ++ ev)) as [ev' [E' Hev']].
    exists (ev ++ ev'). rewrite E', app_assoc. auto.
Qed.

Lemma extends_try_except {A} (body : M A) (handler : raised -> M A) :
  extends P body -> (forall e, extends P (handler e)) ->
  extends P (try_except body handler).
Proof.
  intros Hb Hh tr. destruct (Hb tr) as [ev [E Hev]]. unfold try_except.
  destruct (body tr) as [tr' [e|a]]; simpl in E; subst tr'.
  - destruct (Hh e (tr ++ ev)) as [ev' [E' Hev']].
    exists (ev ++ ev'). rewrite E', app_assoc. auto.
  - exists ev. auto.
Qed.

Lemma extends_try_finally {A} (body : M A) (final : M unit) :
  extends P body -> extends P final -> extends P (try_finally body final).
Proof.
  intros Hb Hf tr. destruct (Hb tr) as [ev [E Hev]]. unfold try_finally.
  destruct (body tr) as [tr' r]; simpl in E; subst tr'.
  destruct (Hf (tr ++ ev)) as [ev' [E' Hev']].
  exists (ev ++ ev').
  destruct (final (tr ++ ev)) as [tr'' [e|u]]; simpl in E'; subst tr'';
    rewrite app_assoc; auto.
Qed.

Lemma extends_for_each {A} (l : list A) (body : A -> M unit) :
  (forall x, extends P (body x)) -> extends P (for_each l body).
Proof.
  intros Hb. induction l as [|x l IH]; simpl.
  - apply extends_ret.
  - apply extends_bind; auto.
Qed.

Lemma extends_range_step (stop : nat) (step : Z) :
  extends P (Generate.range_step stop step).
Proof.
  unfold Generate.range_step.
  destruct (step =? 0)%Z; [apply extends_raise|].
  destruct (step <? 0)%Z; apply extends_ret.
Qed.

End Extends.

(** ** Properties kept by every function of the script *)

Section Brackets.

Import Db.

Variable P : list event -> Prop.
Hypothesis P_nil : P [].
Hypothesis P_app : forall a b, P a -> P b -> P (a ++ b).
Hypothesis P_neutral : forall e, neutral e = true -> P [e].
Hypothesis P_cursor :
  forall ev, P ev -> P (OpenCursor :: ev ++ [CloseCursor]).

Variable W : Generate.world.

(** [cursor = connection.cursor(); try: body finally: cursor.close()] *)
Lemma extends_cursor {A} (body : M A) :
  extends P body ->
  extends P (emit OpenCursor ;;; try_finally body (emit CloseCursor)).
Proof.
  intros Hb tr. destruct (Hb (tr ++ [OpenCursor])) as [ev [E Hev]].
  exists (OpenCursor :: ev ++ [CloseCursor]). split; [|now apply P_cursor].
  rewrite bind_emit. unfold try_finally, emit.
  destruct (body (tr ++ [OpenCursor])) as [tr' r]. simpl in E. subst tr'.
  cbn [fst]. now rewrite <- !app_assoc.
Qed.

Ltac pieces :=
  repeat first
    [ apply extends_bind; [exact P_app | | intros ]
    | apply extends_try_except; [exact P_app | | intros ]
    | apply extends_emit; apply P_neutral; reflexivity
    | apply extends_execute; apply P_neutral; reflexivity
    | apply extends_commit; apply P_neutral; reflexivity
    | apply extends_ask; exact P_nil
    | apply extends_attempt; exact P_nil
    | apply extends_range_step; exact P_nil
    | apply extends_ret; exact P_nil
    | apply extends_raise; exact P_nil ].

Lemma extends_connect_to_db (cfg : Generate.settings) :
  extends P (Generate.connect_to_db cfg W).
Proof. unfold Generate.connect_to_db. pieces. Qed.

Lemma extends_create_database (db_name : string) :
  extends P (Generate.create_database W db_name).
Proof.
  unfold Generate.create_database. apply extends_cursor. pieces.
Qed.

Lemma extends_create_tables (db_name : string) :
  extends P (Generate.create_tables W db_name).
Proof.
  unfold Generate.create_tables. apply extends_cursor. pieces.
Qed.

Lemma extends_insert_batches (table_name columns placeholders : string)
    (data_list : list Generate.row) (batch_size : Z) (starts : list nat) :
  forall inserted_ids,
    extends P (Generate.insert_batches W table_name columns placeholders
                 data_list batch_size starts inserted_ids).
Proof.
  induction starts as [|i starts IH]; intros ids; simpl.
  - pieces.
  - pieces. apply IH.
Qed.

Lemma extends_insert_data (db_name table_name : string)
    (data_list : list Generate.row) (batch_size : Z) :
  extends P (Generate.insert_data W db_name table_name data_list batch_size).
Proof.
  unfold Generate.insert_data. destruct data_list as [|first rest].
  - pieces.
  - apply extends_cursor. pieces. apply extends_insert_batches.
Qed.

Lemma extends_provision (cfg : Generate.settings) (db_num : nat) :
  extends P (Generate.provision cfg W db_num).
Proof.
  unfold Generate.provision.
  repeat first
    [ apply extends_create_database | apply extends_create_tables
    | apply extends_insert_data
    | apply extends_bind; [exact P_app | | intros ]
    | apply extends_emit; apply P_neutral; reflexivity ].
Qed.


End Brackets.

(** ** Cursors and the connection in [generate_testdata.py] *)

Lemma balanced_nil : balanced [].
Proof. reflexivity. Qed.

Lemma balanced_app (a b : list Db.event) :
  balanced a -> balanced b -> balanced (a ++ b).
Proof.
  unfold balanced. intros Ha Hb.
  rewrite cursors_opened_app, cursors_closed_app. lia.
Qed.

Lemma balanced_neutral (e : Db.event) : neutral e = true -> balanced [e].
Proof. destruct e; simpl; intros H; try discriminate H; reflexivity. Qed.

Lemma balanced_cursor (ev : list Db.event) :
  balanced ev -> balanced (Db.OpenCursor :: ev ++ [Db.CloseCursor]).
Proof.
  intros H. change (balanced ([Db.OpenCursor] ++ ev ++ [Db.CloseCursor])).
  unfold balanced in *.
  rewrite !cursors_opened_app, !cursors_closed_app, H.
  unfold cursors_opened, cursors_closed. simpl. lia.
Qed.





(** X23: Every function of the script closes the cursor it opens, whether
    its statements return or raise: in every run of [main] as many cursors
    are closed as were opened. *)
Theorem generate_closes_its_cursors (cfg : Generate.settings)
    (W : Generate.world) :
  cursors_closed (fst (Db.run (Generate.main cfg W))) =
  cursors_opened (fst (Db.run (Generate.main cfg W))).
Proof.
  assert (H : extends balanced (Generate.main cfg W)).
  { unfold Generate.main.
    apply extends_bind;
      [exact balanced_app
      | apply (extends_connect_to_db balanced balanced_nil balanced_app
                                     balanced_neutral) | intros].
    apply extends_bind;
      [exact balanced_app
      | apply extends_emit; reflexivity | intros].
    apply extends_bind; [exact balanced_app | | intros].
    - apply extends_for_each; [exact balanced_nil | exact balanced_app |].
      intros db_num.
      apply (extends_provision balanced balanced_nil balanced_app
                               balanced_neutral balanced_cursor).
    - apply extends_bind;
        [exact balanced_app | apply extends_emit; reflexivity | intros].
      apply extends_emit. reflexivity. }
  destruct (H []) as [ev [E Hev]]. unfold Db.run. rewrite E. exact Hev.
Qed.

Example generate_full_cursors :
  cursors_opened (fst (Db.run (Generate.main Provision.small
                                             Provision.full))) = 7 /\
  snd (Db.run (Generate.main Provision.small Provision.full)) =
    inl (Db.Error "disk full").
Proof. split; vm_compute; reflexivity. Qed.




Example generate_calm_returns :
  snd (Db.run (Generate.main Provision.small Provision.calm)) = inr tt /\
  created_databases
    (fst (Db.run (Generate.main Provision.small Provision.calm))) =
  ["bench_test1"; "bench_test2"]%string.
Proof. split; vm_compute; reflexivity. Qed.

(** ** Creating a database *)

Section Statements.

Import Db.

Variable W : Generate.world.

Lemma bind_execute {A} (sql : string) (params : list value)
    (k : unit -> M A) (tr : list event) :
  bind (Generate.execute W sql params) k tr =
  match Generate.respond W (tr ++ [Execute sql params]) with
  | None => k tt (tr ++ [Execute sql params])
  | Some e => (tr ++ [Execute sql params], inl (Error e))
  end.
Proof.
  unfold bind, Generate.execute.
  now destruct (Generate.respond W (tr ++ [Execute sql params])).
Qed.

Lemma bind_commit {A} (k : unit -> M A) (tr : list event) :
  bind (Generate.commit W) k tr =
  match Generate.respond W (tr ++ [Commit]) with
  | None => k tt (tr ++ [Commit])
  | Some e => (tr ++ [Commit], inl (Error e))
  end.
Proof.
  unfold bind, Generate.commit.
  now destruct (Generate.respond W (tr ++ [Commit])).
Qed.

Lemma bind_ask {A B} (f : list event -> A) (k : A -> M B)
    (tr : list event) :
  bind (Generate.ask f) k tr = k (f tr) tr.
Proof. reflexivity. Qed.

(** The run of [create_database], case by case. *)
Lemma create_database_run (db_name : string) (tr : list event) :
  Generate.create_database W db_name tr =
  let dropped := tr ++ [OpenCursor; Execute (drop_statement db_name) []] in
  match Generate.respond W dropped with
  | Some e =>
      (dropped ++ [LogError ("Error creating database: " ++ e); CloseCursor],
       inl (Error e))
  | None =>
      let created := dropped ++ [Execute (create_statement db_name) []] in
      match Generate.respond W created with
      | Some e =>
          (created ++ [LogError ("Error creating database: " ++ e);
                       CloseCursor],
           inl (Error e))
      | None =>
          (created ++ [LogInfo ("Created database " ++ db_name); CloseCursor],
           inr tt)
      end
  end.
Proof.
  unfold Generate.create_database. rewrite bind_emit.
  unfold try_finally, try_except. rewrite bind_execute.
  cbv zeta. unfold drop_statement, create_statement.
  rewrite <- !app_assoc. cbn [app].
  destruct (Generate.respond W
              (tr ++ [OpenCursor;
                      Execute ("DROP DATABASE IF EXISTS " ++ db_name) []]))
    as [e|].
  - unfold bind, emit, raise. cbn. now rewrite <- !app_assoc.
  - rewrite bind_execute. rewrite <- !app_assoc. cbn [app].
    destruct (Generate.respond W
                (tr ++ [OpenCursor;
                        Execute ("DROP DATABASE IF EXISTS " ++ db_name) [];
                        Execute ("CREATE DATABASE " ++ db_name) []]))
      as [e|].
    + unfold bind, emit, raise. cbn. now rewrite <- !app_assoc.
    + unfold emit. cbn. now rewrite <- !app_assoc.
Qed.

End Statements.

(** X16: [create_database] replaces the database.  It sends [DROP DATABASE
    IF EXISTS] and then [CREATE DATABASE] exactly when the server let the
    drop return; it returns exactly when both returned, and otherwise
    raises the exception of the statement that raised; it opens one cursor
    and closes it in every case. *)
Theorem create_database_drops_first (W : Generate.world) (db_name : string)
    (tr : list Db.event) :
  let dropped := tr ++ [Db.OpenCursor; Db.Execute (drop_statement db_name) []]
  in
  let created := dropped ++ [Db.Execute (create_statement db_name) []] in
  exists ev,
    fst (Generate.create_database W db_name tr) = tr ++ ev /\
    cursors_opened ev = 1 /\ cursors_closed ev = 1 /\
    executed ev =
      drop_statement db_name ::
      match Generate.respond W dropped with
      | None => [create_statement db_name]
      | Some _ => []
      end /\
    snd (Generate.create_database W db_name tr) =
      match Generate.respond W dropped with
      | Some e => inl (Db.Error e)
      | None =>
          match Generate.respond W created with
          | Some e => inl (Db.Error e)
          | None => inr tt
          end
      end.
Proof.
  rewrite create_database_run. cbv zeta.
  destruct (Generate.respond W _) as [e|];
    [|destruct (Generate.respond W _) as [e|]];
    (eexists; split; [rewrite <- ?app_assoc; reflexivity|]);
    cbn; repeat split.
Qed.

(** On a server that drops nothing the database is not created, and on a
    full one the exception of [CREATE DATABASE] is the one raised. *)
Lemma create_database_drops_first_witness :
  executed (fst (Generate.create_database Provision.readonly "bench_test1"
                   [])) =
    ["DROP DATABASE IF EXISTS bench_test1"] /\
  snd (Generate.create_database Provision.readonly "bench_test1" []) =
    inl (Db.Error "read only") /\
  executed (fst (Generate.create_database Provision.full "bench_test2" [])) =
    ["DROP DATABASE IF EXISTS bench_test2"; "CREATE DATABASE bench_test2"] /\
  snd (Generate.create_database Provision.full "bench_test2" []) =
    inl (Db.Error "disk full").
Proof.
  destruct (create_database_drops_first Provision.readonly "bench_test1" [])
    as [ev [E [_ [_ [Hex Hsnd]]]]].
  destruct (create_database_drops_first Provision.full "bench_test2" [])
    as [ev' [E' [_ [_ [Hex' Hsnd']]]]].
  rewrite E, E', Hsnd, Hsnd'. cbn [app]. rewrite Hex, Hex'.
  repeat split.
Defined.

(** ** The first call that raises *)

Lemma refusal_app (W : Generate.world) (calls calls' : list Db.event) :
  forall tr,
  refusal W tr (calls ++ calls') =
  match refusal W tr calls with
  | Some r => Some r
  | None => refusal W (tr ++ calls) calls'
  end.
Proof.
  induction calls as [|c calls IH]; intros tr.
  - cbn. now rewrite app_nil_r.
  - cbn [app refusal]. destruct (Generate.respond W (tr ++ [c])).
    + reflexivity.
    + rewrite IH. now rewrite <- app_assoc.
Qed.

Lemma refusal_quiet (W : Generate.world) (calls : list Db.event) :
  quiet W -> forall tr, refusal W tr calls = None.
Proof.
  intros Hq. induction calls as [|c calls IH]; intros tr.
  - reflexivity.
  - cbn [refusal]. now rewrite Hq.
Qed.

(** No call is refused exactly when the server lets each of them return. *)
Lemma refusal_None (W : Generate.world) (calls : list Db.event) :
  forall tr,
  refusal W tr calls = None <->
  forall k, k < List.length calls ->
    Generate.respond W (tr ++ firstn (S k) calls) = None.
Proof.
  induction calls as [|c calls IH]; intros tr.
  - cbn. split; [intros _ k Hk; lia | reflexivity].
  - cbn [refusal]. split.
    + intros H k Hk.
      destruct (Generate.respond W (tr ++ [c])) as [e|] eqn:Er;
        [discriminate H|].
      destruct k as [|k]; [exact Er|].
      cbn [firstn]. cbn [List.length] in Hk.
      pose proof (proj1 (IH (tr ++ [c])) H k ltac:(lia)) as Hk'.
      rewrite <- app_assoc in Hk'. exact Hk'.
    + intros H.
      pose proof (H 0 ltac:(cbn; lia)) as H0. cbn [firstn] in H0.
      rewrite H0. apply IH. intros k Hk.
      pose proof (H (S k) ltac:(cbn; lia)) as Hk'.
      cbn [firstn] in Hk'. rewrite <- app_assoc. exact Hk'.
Qed.

(** The same, counting the calls from the one after [c0]. *)
Lemma refusal_None_from (W : Generate.world) (tr : list Db.event)
    (c0 : Db.event) (calls : list Db.event) :
  refusal W (tr ++ [c0]) calls = None <->
  forall k, 1 <= k <= List.length calls ->
    Generate.respond W (tr ++ c0 :: firstn k calls) = None.
Proof.
  rewrite refusal_None. split.
  - intros H [|k] Hk; [lia|].
    specialize (H k ltac:(lia)). now rewrite <- app_assoc in H.
  - intros H k Hk. specialize (H (S k) ltac:(lia)).
    now rewrite <- app_assoc.
Qed.

(** A refused call is the first the server lets raise. *)
Lemma refusal_Some (W : Generate.world) (calls : list Db.event) :
  forall tr sent e,
  refusal W tr calls = Some (sent, e) ->
  exists k, k < List.length calls /\
    sent = tr ++ firstn (S k) calls /\
    Generate.respond W sent = Some e /\
    forall j, j < k ->
      Generate.respond W (tr ++ firstn (S j) calls) = None.
Proof.
  induction calls as [|c calls IH]; intros tr sent e H.
  - discriminate H.
  - cbn [refusal] in H.
    destruct (Generate.respond W (tr ++ [c])) as [e'|] eqn:Er.
    + injection H as <- <-. exists 0. cbn. repeat split; auto; try lia.
    + destruct (IH _ _ _ H) as [k [Hk [-> [Hr Hbefore]]]].
      exists (S k). cbn [List.length firstn]. split; [lia|].
      split; [now rewrite <- app_assoc|]. split; [exact Hr|].
      intros [|j] Hj; [exact Er|].
      cbn [firstn]. pose proof (Hbefore j ltac:(lia)) as Hj'.
      rewrite <- app_assoc in Hj'. exact Hj'.
Qed.

(** The call that raises first is the refused one. *)
Lemma refusal_first (W : Generate.world) (calls : list Db.event) :
  forall tr k e,
  k < List.length calls ->
  (forall j, j < k ->
     Generate.respond W (tr ++ firstn (S j) calls) = None) ->
  Generate.respond W (tr ++ firstn (S k) calls) = Some e ->
  refusal W tr calls = Some (tr ++ firstn (S k) calls, e).
Proof.
  induction calls as [|c calls IH]; intros tr k e Hk Hbefore Hr.
  - cbn in Hk. lia.
  - cbn [refusal]. destruct k as [|k].
    + cbn [firstn] in Hr |- *. now rewrite Hr.
    + pose proof (Hbefore 0 ltac:(lia)) as H0. cbn [firstn] in H0.
      rewrite H0. cbn [firstn].
      rewrite (IH (tr ++ [c]) k e).
      * now rewrite <- app_assoc.
      * cbn in Hk. lia.
      * intros j Hj. pose proof (Hbefore (S j) ltac:(lia)) as Hj'.
        cbn [firstn] in Hj'. now rewrite <- app_assoc.
      * cbn [firstn] in Hr. now rewrite <- app_assoc.
Qed.

Lemma firstn_inserts {A} (k : nat) (l l' : list A) :
  k <= List.length l -> firstn k (l ++ l') = firstn k l.
Proof.
  intros Hk. rewrite firstn_app.
  replace (k - List.length l) with 0 by lia.
  cbn [firstn]. apply app_nil_r.
Qed.

Lemma firstn_subset {A} (x : A) (k : nat) (l : list A) :
  In x (firstn k l) -> In x l.
Proof.
  intros H. rewrite <- (firstn_skipn k l). apply in_app_iff. now left.
Qed.

(** ** The batches of [insert_data] *)

Section Chunks.

Context {A : Type}.
Variable bs : nat.
Hypothesis bs_pos : 0 < bs.

Lemma slice_chunk (l : list A) (k : nat) :
  Generate.slice l (k * bs) (k * bs + bs) = firstn bs (skipn (k * bs) l).
Proof. unfold Generate.slice. f_equal. lia. Qed.

Lemma chunks_cover (m : nat) :
  forall l : list A, List.length l <= m * bs ->
  List.concat (map (fun k => Generate.slice l (k * bs) (k * bs + bs))
                   (seq 0 m)) = l.
Proof.
  induction m as [|m IH]; intros l Hl.
  - simpl in *. destruct l; [reflexivity | simpl in Hl; lia].
  - cbn [seq map List.concat]. rewrite slice_chunk. cbn [Nat.mul skipn].
    rewrite <- seq_shift, map_map.
    transitivity (firstn bs l ++ skipn bs l); [|apply firstn_skipn].
    f_equal.
    etransitivity; [|apply (IH (skipn bs l))].
    + f_equal. apply map_ext. intros k. rewrite !slice_chunk.
      f_equal. rewrite skipn_skipn. f_equal. lia.
    + rewrite length_skipn. simpl in Hl. lia.
Qed.

Lemma ceil_covers (n : nat) : n <= (n + bs - 1) / bs * bs.
Proof.
  pose proof (Nat.mul_succ_div_gt (n + bs - 1) bs ltac:(lia)). nia.
Qed.

Lemma ceil_tight (n k : nat) : k < (n + bs - 1) / bs -> k * bs < n.
Proof.
  intros Hk. pose proof (Nat.Div0.mul_div_le (n + bs - 1) bs). nia.
Qed.

(** The batches are the list, cut. *)
Lemma batches_cover (l : list A) : List.concat (batches l bs) = l.
Proof. apply chunks_cover, ceil_covers. Qed.

(** No batch is empty, none is longer than the batch size. *)
Lemma batches_sizes (l : list A) :
  Forall (fun b => 1 <= List.length b <= bs) (batches l bs).
Proof.
  apply Forall_forall. intros b Hb. unfold batches in Hb.
  apply in_map_iff in Hb as [k [<- Hk]]. apply in_seq in Hk.
  rewrite slice_chunk, length_firstn, length_skipn.
  pose proof (ceil_tight (List.length l) k ltac:(lia)). lia.
Qed.

End Chunks.

Example batches_five :
  batches [1; 2; 3; 4; 5] 2 = [[1; 2]; [3; 4]; [5]].
Proof. reflexivity. Qed.

Section InsertData.

Import Db.

Variables (W : Generate.world) (db_name table_name : string).
Variables (first : Generate.row) (rest : list Generate.row).
Variable batch_size : Z.

(** The loop sends the batches in order up to the first INSERT that
    raises. *)
Lemma insert_batches_refusal (starts : list nat) :
  forall inserted_ids tr,
  match refusal W tr
          (map (batch_event table_name first (first :: rest) batch_size)
               starts) with
  | Some (sent, e) =>
      Generate.insert_batches W table_name (columns_of first)
        (placeholders_of first) (first :: rest) batch_size starts
        inserted_ids tr = (sent, inl (Error e))
  | None =>
      exists ids,
        Generate.insert_batches W table_name (columns_of first)
          (placeholders_of first) (first :: rest) batch_size starts
          inserted_ids tr =
        (tr ++ map (batch_event table_name first (first :: rest) batch_size)
                   starts,
         inr ids)
  end.
Proof.
  induction starts as [|i starts IH]; intros ids tr.
  - exists ids. cbn. now rewrite app_nil_r.
  - cbn [map refusal Generate.insert_batches].
    unfold Generate.insert_query. rewrite bind_execute.
    match goal with
    | |- context [Generate.respond W (tr ++ [Execute ?q ?p])] =>
        change (Execute q p)
          with (batch_event table_name first (first :: rest) batch_size i)
    end.
    destruct (Generate.respond W _) as [e|]; [reflexivity|].
    rewrite bind_ask.
    match goal with
    | |- context [Generate.insert_batches _ _ _ _ _ _ _ ?ids' ?tr'] =>
        specialize (IH ids' tr')
    end.
    destruct (refusal W _ _) as [[sent e]|].
    + exact IH.
    + destruct IH as [ids' E]. exists ids'. rewrite E.
      now rewrite <- app_assoc.
Qed.

Hypothesis W_quiet : quiet W.

Lemma insert_batches_quiet (starts : list nat) :
  forall inserted_ids tr,
  exists ids,
    Generate.insert_batches W table_name (columns_of first)
      (placeholders_of first) (first :: rest) batch_size starts
      inserted_ids tr =
    (tr ++ map (batch_event table_name first (first :: rest) batch_size)
               starts,
     inr ids).
Proof.
  induction starts as [|i starts IH]; intros ids tr.
  - exists ids. simpl. now rewrite app_nil_r.
  - cbn [Generate.insert_batches]. unfold Generate.insert_query.
    rewrite bind_execute, W_quiet, bind_ask.
    match goal with
    | |- context [Generate.insert_batches _ _ _ _ _ _ _ ?ids' ?tr'] =>
        destruct (IH ids' tr') as [ids'' E]
    end.
    exists ids''. rewrite E. cbn [map]. now rewrite <- app_assoc.
Qed.

End InsertData.

Lemma bind_returns {A B} (m : Db.M A) (k : A -> Db.M B)
    (tr tr' : list Db.event) (a : A) :
  m tr = (tr', inr a) -> Db.bind m k tr = k a tr'.
Proof. intros E. unfold Db.bind. now rewrite E. Qed.

Lemma bind_raises {A B} (m : Db.M A) (k : A -> Db.M B)
    (tr tr' : list Db.event) (e : Db.raised) :
  m tr = (tr', inl e) -> Db.bind m k tr = (tr', inl e).
Proof. intros E. unfold Db.bind. now rewrite E. Qed.

Lemma range_step_positive (stop : nat) (step : Z) :
  (0 < step)%Z ->
  Generate.range_step stop step =
  Db.ret (map (fun k => k * Z.to_nat step)
              (seq 0 ((stop + Z.to_nat step - 1) / Z.to_nat step))).
Proof.
  intros H. unfold Generate.range_step.
  destruct (Z.eqb_spec step 0); [lia|].
  destruct (Z.ltb_spec step 0); [lia|]. reflexivity.
Qed.

Lemma batch_events (table_name : string) (first : Generate.row)
    (data_list : list Generate.row) (batch_size : Z) :
  map (batch_event table_name first data_list batch_size)
      (map (fun k => k * Z.to_nat batch_size)
           (seq 0 ((List.length data_list + Z.to_nat batch_size - 1)
                   / Z.to_nat batch_size))) =
  map (insert_event table_name first)
      (batches data_list (Z.to_nat batch_size)).
Proof.
  unfold batches. rewrite !map_map. reflexivity.
Qed.

(** The run of [insert_data] on a list that is not empty, for a positive
    batch size: the calls are made in order up to the first that raises. *)
Lemma insert_data_run (W : Generate.world) (db_name table_name : string)
    (first : Generate.row) (rest : list Generate.row) (batch_size : Z)
    (tr : list Db.event) :
  (0 < batch_size)%Z ->
  Generate.insert_data W db_name table_name (first :: rest) batch_size tr =
  match refusal W (tr ++ [Db.OpenCursor])
          (insert_calls db_name table_name (first :: rest) batch_size
           ++ read_back_calls table_name) with
  | Some (sent, e) =>
      (sent ++ [Db.LogError ("Error inserting data into " ++ table_name
                             ++ ": " ++ e);
                Db.CloseCursor],
       inl (Db.Error e))
  | None =>
      let read :=
        tr ++ [Db.OpenCursor]
           ++ insert_calls db_name table_name (first :: rest) batch_size
           ++ read_back_calls table_name in
      (read ++ [Db.LogInfo ("Inserted "
                            ++ str (List.length (Generate.fetchall W read))
                            ++ " rows into " ++ db_name ++ "." ++ table_name);
                Db.CloseCursor],
       inr (Generate.fetchall W read))
  end.
Proof.
  intros Hbs. unfold Generate.insert_data.
  rewrite bind_emit. unfold Db.try_finally, Db.try_except.
  unfold insert_calls. cbn [hd app refusal]. rewrite bind_execute.
  destruct (Generate.respond W _) as [e|].
  { unfold Db.bind, Db.emit, Db.raise. cbn. now rewrite <- !app_assoc. }
  cbv zeta. rewrite range_step_positive by exact Hbs. rewrite bind_ret.
  rewrite refusal_app, <- batch_events.
  match goal with
  | |- context [Db.bind (Generate.insert_batches _ _ _ _ _ _ ?starts ?ids0)
                        _ ?tr0] =>
      pose proof (insert_batches_refusal W table_name first rest batch_size
                    starts ids0 tr0) as Hloop
  end.
  unfold columns_of, placeholders_of in Hloop.
  destruct (refusal W _ _) as [[sent e]|].
  { rewrite (bind_raises _ _ _ _ _ Hloop).
    unfold Db.bind, Db.emit, Db.raise. cbn. now rewrite <- !app_assoc. }
  destruct Hloop as [ids Hloop]. rewrite (bind_returns _ _ _ _ _ Hloop).
  unfold read_back_calls. cbn [refusal]. rewrite bind_commit.
  destruct (Generate.respond W _) as [e|].
  { unfold Db.bind, Db.emit, Db.raise. cbn. now rewrite <- !app_assoc. }
  rewrite bind_execute. rewrite <- !app_assoc. cbn [app].
  destruct (Generate.respond W _) as [e|].
  { unfold Db.bind, Db.emit, Db.raise. cbn. now rewrite <- !app_assoc. }
  rewrite bind_ask, bind_emit. unfold Db.ret, Db.emit. cbv beta iota zeta.
  rewrite <- !app_assoc. cbn [app]. rewrite <- !app_assoc. reflexivity.
Qed.

Lemma commit_not_in_inserts (db_name table_name : string)
    (data_list : list Generate.row) (batch_size : Z) :
  ~ In Db.Commit (insert_calls db_name table_name data_list batch_size).
Proof.
  unfold insert_calls. intros [H|H]; [discriminate H|].
  apply in_map_iff in H as [b [E _]].
  unfold insert_event, Generate.insert_query in E. discriminate E.
Qed.

(** On a server that never raises, with a positive batch size. *)
Lemma insert_data_quiet_run (W : Generate.world)
    (db_name table_name : string) (first : Generate.row)
    (rest : list Generate.row) (batch_size : Z) (tr : list Db.event) :
  quiet W -> (0 < batch_size)%Z ->
  exists ids,
    Generate.insert_data W db_name table_name (first :: rest) batch_size tr =
    (tr ++
     [Db.OpenCursor; Db.Execute ("USE " ++ db_name) []] ++
     map (insert_event table_name first)
         (batches (first :: rest) (Z.to_nat batch_size)) ++
     [Db.Commit;
      Db.Execute ("SELECT id FROM " ++ table_name ++ " ORDER BY id") [];
      Db.LogInfo ("Inserted " ++ str (List.length ids) ++ " rows into "
                  ++ db_name ++ "." ++ table_name);
      Db.CloseCursor],
     inr ids).
Proof.
  intros Hq Hbs. unfold Generate.insert_data.
  rewrite bind_emit. unfold Db.try_finally, Db.try_except.
  rewrite bind_execute, Hq. cbv zeta.
  rewrite range_step_positive by exact Hbs. rewrite bind_ret.
  match goal with
  | |- context [Db.bind (Generate.insert_batches _ _ _ _ _ _ ?starts ?ids0)
                        _ ?tr0] =>
      destruct (insert_batches_quiet W table_name first rest batch_size Hq
                  starts ids0 tr0) as [ids E]
  end.
  unfold columns_of, placeholders_of in E.
  rewrite (bind_returns _ _ _ _ _ E).
  rewrite bind_commit, Hq, bind_execute, Hq, bind_ask, bind_emit.
  eexists. unfold Db.ret, Db.emit. cbv beta iota.
  rewrite batch_events. f_equal.
  rewrite <- !app_assoc. cbn [app]. reflexivity.
Qed.

(** X17: With a positive batch size and no exception, [insert_data] sends
    every row once, in order, in batches of at most [batch_size] rows, none
    empty, one INSERT per batch, then commits once and returns
    [actual_ids], the ids the cursor holds after the SELECT, which are also
    the ones it counts in its log line; the ids it computed from
    [lastrowid] are not returned. *)
Theorem insert_data_batches (W : Generate.world)
    (db_name table_name : string) (first : Generate.row)
    (rest : list Generate.row) (batch_size : Z) :
  quiet W -> (0 < batch_size)%Z ->
  let sent :=
    [Db.OpenCursor; Db.Execute ("USE " ++ db_name) []] ++
    map (insert_event table_name first)
        (batches (first :: rest) (Z.to_nat batch_size)) ++
    [Db.Commit;
     Db.Execute ("SELECT id FROM " ++ table_name ++ " ORDER BY id") []] in
  let actual_ids := Generate.fetchall W sent in
  Db.run (Generate.insert_data W db_name table_name (first :: rest)
            batch_size) =
  (sent ++
   [Db.LogInfo ("Inserted " ++ str (List.length actual_ids) ++ " rows into "
                ++ db_name ++ "." ++ table_name);
    Db.CloseCursor],
   inr actual_ids) /\
  List.concat (batches (first :: rest) (Z.to_nat batch_size))
    = first :: rest /\
  Forall (fun b => 1 <= List.length b <= Z.to_nat batch_size)
         (batches (first :: rest) (Z.to_nat batch_size)) /\
  List.length (batches (first :: rest) (Z.to_nat batch_size)) =
    (List.length (first :: rest) + Z.to_nat batch_size - 1)
    / Z.to_nat batch_size.
Proof.
  intros Hq Hbs. cbv zeta.
  assert (Hpos : 0 < Z.to_nat batch_size) by lia.
  split; [|split; [apply batches_cover, Hpos|
                   split; [apply batches_sizes, Hpos|]]].
  - unfold Db.run. rewrite insert_data_run by exact Hbs.
    rewrite refusal_quiet by exact Hq. reflexivity.
  - unfold batches. now rewrite length_map, length_seq.
Qed.

Lemma insert_data_batches_witness :
  quiet Provision.calm /\ (0 < 2)%Z /\
  snd (Db.run (Generate.insert_data Provision.calm "bench_test1" "t"
                 Provision.five 2)) = inr [1; 2; 3]%Z /\
  map (fun b => List.length b) (batches Provision.five 2) = [2; 2; 1].
Proof.
  assert (Hq : quiet Provision.calm) by (intros tr; reflexivity).
  assert (Hbs : (0 < 2)%Z) by reflexivity.
  split; [exact Hq|]. split; [exact Hbs|].
  destruct (insert_data_batches Provision.calm "bench_test1" "t"
              (hd [] Provision.five) (tl Provision.five) 2 Hq Hbs)
    as [E _].
  split.
  - change (hd [] Provision.five :: tl Provision.five) with Provision.five
      in E.
    rewrite E. reflexivity.
  - reflexivity.
Defined.

(** X18: [insert_data] makes its calls in order, [USE], the INSERT of each
    batch, the commit and the SELECT, up to the first that the server lets
    raise.  The commit is sent exactly when the server let [USE] and every
    INSERT return, and then after all of them; [insert_data] returns
    exactly when the server let every call return, the commit included;
    when a call raises, no further call is made, the error is logged, the
    cursor closed and the same exception raised. *)
Theorem insert_data_commits_last (W : Generate.world)
    (db_name table_name : string) (first : Generate.row)
    (rest : list Generate.row) (batch_size : Z) (tr : list Db.event) :
  (0 < batch_size)%Z ->
  let inserts :=
    Db.Execute ("USE " ++ db_name) [] ::
    map (insert_event table_name first)
        (batches (first :: rest) (Z.to_nat batch_size)) in
  let calls :=
    inserts ++
    [Db.Commit;
     Db.Execute ("SELECT id FROM " ++ table_name ++ " ORDER BY id") []] in
  let upto k := tr ++ Db.OpenCursor :: firstn k calls in
  (exists ev,
     fst (Generate.insert_data W db_name table_name (first :: rest)
            batch_size tr) = tr ++ ev /\
     (In Db.Commit ev <->
      forall k, 1 <= k <= List.length inserts ->
        Generate.respond W (upto k) = None) /\
     (In Db.Commit ev ->
      exists tail, ev = Db.OpenCursor :: inserts ++ Db.Commit :: tail) /\
     (forall ids,
        snd (Generate.insert_data W db_name table_name (first :: rest)
               batch_size tr) = inr ids ->
        In Db.Commit ev)) /\
  ((exists ids,
      snd (Generate.insert_data W db_name table_name (first :: rest)
             batch_size tr) = inr ids) <->
   forall k, 1 <= k <= List.length calls ->
     Generate.respond W (upto k) = None) /\
  (forall k e,
     1 <= k <= List.length calls ->
     (forall j, 1 <= j < k -> Generate.respond W (upto j) = None) ->
     Generate.respond W (upto k) = Some e ->
     Generate.insert_data W db_name table_name (first :: rest) batch_size tr
     = (upto k ++
        [Db.LogError ("Error inserting data into " ++ table_name ++ ": "
                      ++ e);
         Db.CloseCursor],
        inl (Db.Error e))).
Proof.
  intros Hbs inserts calls upto.
  pose proof (insert_data_run W db_name table_name first rest batch_size tr
                Hbs) as Hrun.
  change (insert_calls db_name table_name (first :: rest) batch_size
          ++ read_back_calls table_name) with calls in Hrun.
  assert (Hupto : forall k, k <= List.length inserts ->
            upto k = tr ++ Db.OpenCursor :: firstn k inserts).
  { intros k Hk. unfold upto, calls. now rewrite firstn_inserts. }
  assert (Hinserts :
    refusal W (tr ++ [Db.OpenCursor]) inserts = None <->
    forall k, 1 <= k <= List.length inserts ->
      Generate.respond W (upto k) = None).
  { rewrite refusal_None_from. split; intros H k Hk.
    - rewrite Hupto by lia. now apply H.
    - rewrite <- Hupto by lia. now apply H. }
  split; [|split].
  - (* the events *)
    unfold calls in Hrun. rewrite refusal_app in Hrun.
    destruct (refusal W (tr ++ [Db.OpenCursor]) inserts)
      as [[sent e]|] eqn:Ei.
    + (* [USE] or an INSERT raises *)
      destruct (refusal_Some _ _ _ _ _ Ei) as [k [Hk [-> _]]].
      rewrite Hrun. eexists. split.
      { cbn [fst]. rewrite <- !app_assoc. reflexivity. }
      assert (Hno : ~ In Db.Commit
                      ([Db.OpenCursor] ++ firstn (S k) inserts ++
                       [Db.LogError ("Error inserting data into "
                                     ++ table_name ++ ": " ++ e);
                        Db.CloseCursor])).
      { intros H. apply in_app_iff in H as [H|H].
        { cbn in H. intuition discriminate. }
        apply in_app_iff in H as [H|H].
        - apply firstn_subset in H.
          exact (commit_not_in_inserts db_name table_name (first :: rest)
                   batch_size H).
        - cbn in H. intuition discriminate. }
      split; [|split].
      * split; [intros H; now destruct Hno|].
        intros H. apply Hinserts in H. discriminate H.
      * intros H. now destruct Hno.
      * intros ids H. discriminate H.
    + (* every INSERT returned: the commit is sent *)
      assert (Hev : exists tail,
                fst (Generate.insert_data W db_name table_name
                       (first :: rest) batch_size tr) =
                tr ++ Db.OpenCursor :: inserts ++ Db.Commit :: tail).
      { rewrite Hrun. cbn [refusal].
        destruct (Generate.respond W _) as [e|].
        - eexists. cbn [fst]. rewrite <- !app_assoc. cbn [app]. reflexivity.
        - destruct (Generate.respond W _) as [e|].
          + eexists. cbn [fst]. rewrite <- !app_assoc. cbn [app].
            reflexivity.
          + eexists. cbv zeta. cbn [fst]. unfold calls.
            rewrite <- !app_assoc. cbn [app]. reflexivity. }
      destruct Hev as [tail Hev].
      exists (Db.OpenCursor :: inserts ++ Db.Commit :: tail).
      assert (Hin : In Db.Commit
                      (Db.OpenCursor :: inserts ++ Db.Commit :: tail)).
      { right. apply in_app_iff. right. now left. }
      split; [exact Hev|]. split; [|split].
      * split; [intros _; now apply Hinserts | intros _; exact Hin].
      * intros _. now exists tail.
      * intros ids _. exact Hin.
  - (* the return *)
    unfold upto. rewrite <- refusal_None_from. rewrite Hrun.
    destruct (refusal W (tr ++ [Db.OpenCursor]) calls) as [[sent e]|].
    + split; [intros [ids H]; discriminate H | intros H; discriminate H].
    + split; [reflexivity | intros _; eexists; reflexivity].
  - (* the first call that raises *)
    intros k e Hk Hbefore Hr. rewrite Hrun.
    destruct k as [|k]; [lia|].
    rewrite (refusal_first W calls (tr ++ [Db.OpenCursor]) k e).
    + unfold upto. now rewrite <- !app_assoc.
    + lia.
    + intros j Hj. specialize (Hbefore (S j) ltac:(lia)).
      unfold upto in Hbefore. now rewrite <- app_assoc.
    + unfold upto in Hr. now rewrite <- app_assoc.
Qed.

(** On a server that refuses the INSERT of the last batch nothing is
    committed. *)
Lemma insert_data_commits_last_witness :
  (0 < 2)%Z /\
  Generate.insert_data Provision.choosy "bench_test1" "t" Provision.five 2 []
  = ([Db.OpenCursor;
      Db.Execute "USE bench_test1" [];
      Db.Execute "INSERT INTO t (n) VALUES (%s), (%s)"
                 [Db.VInt 1; Db.VInt 2];
      Db.Execute "INSERT INTO t (n) VALUES (%s), (%s)"
                 [Db.VInt 3; Db.VInt 4];
      Db.Execute "INSERT INTO t (n) VALUES (%s)" [Db.VInt 5];
      Db.LogError "Error inserting data into t: odd row";
      Db.CloseCursor],
     inl (Db.Error "odd row")).
Proof.
  assert (Hbs : (0 < 2)%Z) by reflexivity.
  split; [exact Hbs|].
  destruct (insert_data_commits_last Provision.choosy "bench_test1" "t"
              (hd [] Provision.five) (tl Provision.five) 2 [] Hbs)
    as [_ [_ Hraise]].
  apply (Hraise 4 "odd row").
  - vm_compute. lia.
  - intros [|[|[|[|j]]]] Hj; try lia; reflexivity.
  - reflexivity.
Defined.





(** ** The ids the generated rows refer to *)

Lemma choice_In {A} (x : A) (l : list A) (r : nat) :
  In (Generate.choice x l r) (x :: l).
Proof.
  unfold Generate.choice. apply nth_In. cbn [List.length].
  apply Nat.mod_upper_bound. discriminate.
Qed.

Lemma choose_id_In (ids : list Z) (r : nat) :
  In (Generate.choose_id ids r) ids \/
  (ids = [] /\ Generate.choose_id ids r = 1%Z).
Proof.
  destruct ids as [|id ids]; simpl.
  - right. split; [reflexivity|].
    destruct (choice_In 1%Z [] r) as [E|[]]. now rewrite <- E.
  - left. apply (choice_In id ids r).
Qed.

(** X21: [generate_order_data] and [generate_order_item_data] return [count]
    rows (none when [count] is not positive); every order refers to one of
    the given user ids, every order item to one of the given order ids and
    one of the given product ids, and to id 1 where the list given is empty. *)
Theorem generated_rows_reference_given_ids (count : Z)
    (user_ids order_ids product_ids : list Z)
    (orders : nat -> Generate.order_draws)
    (items : nat -> Generate.order_item_draws) :
  List.length (Generate.generate_order_data count user_ids orders)
    = Z.to_nat count /\
  List.length (Generate.generate_order_item_data count order_ids product_ids
                 items) = Z.to_nat count /\
  Forall (fun r =>
            exists id, field r "user_id" = Some (Db.VInt id) /\
                       (In id user_ids \/ (user_ids = [] /\ id = 1%Z)))
         (Generate.generate_order_data count user_ids orders) /\
  Forall (fun r =>
            exists o p,
              field r "order_id" = Some (Db.VInt o) /\
              field r "product_id" = Some (Db.VInt p) /\
              (In o order_ids \/ (order_ids = [] /\ o = 1%Z)) /\
              (In p product_ids \/ (product_ids = [] /\ p = 1%Z)))
         (Generate.generate_order_item_data count order_ids product_ids
            items).
Proof.
  unfold Generate.generate_order_data, Generate.generate_order_item_data.
  rewrite !length_map, !length_range.
  split; [reflexivity|]. split; [reflexivity|].
  split; apply Forall_forall; intros r Hr;
    apply in_map_iff in Hr as [i [<- _]].
  - eexists. split; [reflexivity|]. apply choose_id_In.
  - do 2 eexists. split; [reflexivity|]. split; [reflexivity|].
    split; apply choose_id_In.
Qed.

Example orders_without_users :
  map (fun r => field r "user_id")
      (Generate.generate_order_data 2 [] Provision.some_order) =
  [Some (Db.VInt 1); Some (Db.VInt 1)].
Proof. reflexivity. Qed.

(** ** The databases [main] creates *)

Lemma created_databases_app (tr tr' : list Db.event) :
  created_databases (tr ++ tr') =
  created_databases tr ++ created_databases tr'.
Proof.
  unfold created_databases. now rewrite executed_app, flat_map_app.
Qed.

Lemma strip_prefix_append (p s : string) :
  strip_prefix p (p ++ s) = Some s.
Proof.
  induction p as [|c p IH]; simpl.
  - now destruct s.
  - now rewrite Ascii.eqb_refl.
Qed.

Section Creates.

Import Db.

Variable W : Generate.world.
Hypothesis W_quiet : quiet W.

Lemma creates_ret {A} (a : A) : creates [] (ret a).
Proof. intros tr. exists [], a. now rewrite app_nil_r. Qed.

Lemma creates_ask {A} (f : list event -> A) : creates [] (Generate.ask f).
Proof. intros tr. exists [], (f tr). now rewrite app_nil_r. Qed.

Lemma creates_emit (e : event) : executed [e] = [] -> creates [] (emit e).
Proof.
  intros H tr. exists [e], tt. split; [reflexivity|].
  unfold created_databases. now rewrite H.
Qed.

Lemma creates_execute (sql : string) (params : list value)
    (names : list string) :
  created_databases [Execute sql params] = names ->
  creates names (Generate.execute W sql params).
Proof.
  intros H tr. exists [Execute sql params], tt.
  unfold Generate.execute. now rewrite W_quiet.
Qed.

Lemma creates_commit : creates [] (Generate.commit W).
Proof.
  intros tr. exists [Commit], tt.
  unfold Generate.commit. now rewrite W_quiet.
Qed.

Lemma creates_bind {A B} (m : M A) (k : A -> M B) (n1 n2 : list string) :
  creates n1 m -> (forall a, creates n2 (k a)) ->
  creates (n1 ++ n2) (bind m k).
Proof.
  intros Hm Hk tr. destruct (Hm tr) as [ev [a [E Hev]]].
  destruct (Hk a (tr ++ ev)) as [ev' [b [E' Hev']]].
  exists (ev ++ ev'), b. rewrite (bind_returns _ _ _ _ _ E), E'.
  now rewrite app_assoc, created_databases_app, Hev, Hev'.
Qed.

Lemma creates_try_except {A} (body : M A) (handler : raised -> M A)
    (names : list string) :
  creates names body -> creates names (try_except body handler).
Proof.
  intros Hb tr. destruct (Hb tr) as [ev [a [E Hev]]].
  exists ev, a. unfold try_except. now rewrite E.
Qed.

Lemma creates_cursor {A} (body : M A) (names : list string) :
  creates names body ->
  creates names (emit OpenCursor ;;; try_finally body (emit CloseCursor)).
Proof.
  intros Hb tr. destruct (Hb (tr ++ [OpenCursor])) as [ev [a [E Hev]]].
  exists (OpenCursor :: ev ++ [CloseCursor]), a.
  rewrite bind_emit. unfold try_finally, emit. rewrite E. split.
  - now rewrite <- !app_assoc.
  - change (OpenCursor :: ev ++ [CloseCursor])
      with ([OpenCursor] ++ ev ++ [CloseCursor]).
    rewrite !created_databases_app, Hev. cbn. now rewrite app_nil_r.
Qed.

Lemma creates_for_each {A} (f : A -> list string) (l : list A)
    (body : A -> M unit) :
  (forall x, creates (f x) (body x)) ->
  creates (flat_map f l) (for_each l body).
Proof.
  intros Hb. induction l as [|x l IH]; simpl.
  - apply creates_ret.
  - apply creates_bind; auto.
Qed.

Lemma creates_connect_to_db (cfg : Generate.settings) :
  Generate.connect W = None -> creates [] (Generate.connect_to_db cfg W).
Proof.
  intros Hc tr.
  exists [Connect; LogInfo ("Connected to " ++ Generate.DB_HOST cfg)], tt.
  unfold Generate.connect_to_db, try_except, bind, emit, attempt, ret.
  rewrite Hc. cbn. now rewrite <- app_assoc.
Qed.

Lemma creates_create_database (db_name : string) :
  creates [db_name] (Generate.create_database W db_name).
Proof.
  unfold Generate.create_database.
  apply creates_cursor, creates_try_except.
  change [db_name] with ([] ++ [db_name] ++ []).
  apply creates_bind; [now apply creates_execute | intros].
  apply creates_bind; [|intros; now apply creates_emit].
  apply creates_execute. unfold created_databases. cbn [executed flat_map app].
  now rewrite strip_prefix_append.
Qed.

Lemma creates_create_tables (db_name : string) :
  creates [] (Generate.create_tables W db_name).
Proof.
  unfold Generate.create_tables.
  apply creates_cursor, creates_try_except.
  repeat first
    [ apply (creates_bind _ _ [] []); [|intros]
    | now apply creates_execute
    | now apply creates_emit ].
Qed.

Lemma created_by_batches (table_name : string) (first : Generate.row)
    (l : list (list Generate.row)) :
  created_databases (map (insert_event table_name first) l) = [].
Proof.
  induction l as [|b l IH]; [reflexivity|].
  cbn [map]. change (?x :: ?t) with ([x] ++ t).
  now rewrite created_databases_app, IH.
Qed.

Lemma creates_insert_data (db_name table_name : string)
    (data_list : list Generate.row) :
  creates [] (Generate.insert_data W db_name table_name data_list 1000).
Proof.
  destruct data_list as [|first rest]; [apply creates_ret|].
  intros tr.
  destruct (insert_data_quiet_run W db_name table_name first rest 1000 tr
              W_quiet eq_refl) as [ids E].
  eexists. exists ids. split; [exact E|].
  rewrite !created_databases_app, created_by_batches. reflexivity.
Qed.

Lemma creates_provision (cfg : Generate.settings) (db_num : nat) :
  creates [(Generate.DB_PREFIX cfg ++ "test" ++ str db_num)%string]
          (Generate.provision cfg W db_num).
Proof.
  unfold Generate.provision. cbv zeta.
  apply (creates_bind _ _ [] [_]); [now apply creates_emit | intros].
  apply (creates_bind _ _ [_] []);
    [apply creates_create_database | intros].
  repeat first
    [ apply creates_create_tables | apply creates_insert_data
    | apply (creates_bind _ _ [] []); [|intros]
    | now apply creates_emit ].
Qed.

End Creates.

Lemma flat_map_singleton {A B} (f : A -> B) (l : list A) :
  flat_map (fun x => [f x]) l = map f l.
Proof. induction l as [|x l IH]; simpl; congruence. Qed.

Lemma creates_main (cfg : Generate.settings) (W : Generate.world) :
  quiet W -> Generate.connect W = None ->
  creates (map (fun i => (Generate.DB_PREFIX cfg ++ "test" ++ str i)%string)
               (seq 1 (Z.to_nat (Generate.NUM_DATABASES cfg))))
          (Generate.main cfg W).
Proof.
  intros Hq Hc. unfold Generate.main.
  match goal with
  | |- creates ?names _ =>
      replace names with ([] ++ [] ++ names ++ [] ++ [])
        by (cbn [app]; now rewrite app_nil_r)
  end.
  apply creates_bind; [now apply creates_connect_to_db | intros].
  apply creates_bind; [now apply creates_emit | intros].
  apply creates_bind.
  - rewrite <- flat_map_singleton. apply creates_for_each.
    intros db_num. now apply creates_provision.
  - intros. apply creates_bind; [|intros]; now apply creates_emit.
Qed.

(** X22: When the server never raises, [main] returns after creating exactly
    the databases the load driver will draw from: the names of [DB_NAMES]
    for the same prefix and number, in order. *)
Theorem generate_creates_DB_NAMES (bench : config)
    (cfg : Generate.settings) (W : Generate.world) :
  Generate.DB_PREFIX cfg = DB_PREFIX bench ->
  Generate.NUM_DATABASES cfg = NUM_DATABASES bench ->
  quiet W -> Generate.connect W = None ->
  snd (Db.run (Generate.main cfg W)) = inr tt /\
  created_databases (fst (Db.run (Generate.main cfg W))) = DB_NAMES bench.
Proof.
  intros Hp Hn Hq Hc.
  destruct (creates_main cfg W Hq Hc []) as [ev [[] [E Hev]]].
  unfold Db.run. rewrite E. cbn [fst snd app].
  split; [reflexivity|].
  rewrite Hev. unfold DB_NAMES. now rewrite Hp, Hn.
Qed.

Lemma generate_creates_DB_NAMES_witness :
  Generate.DB_PREFIX Provision.small = DB_PREFIX Bench.cfg /\
  Generate.NUM_DATABASES Provision.small = NUM_DATABASES Bench.cfg /\
  quiet Provision.calm /\
  snd (Db.run (Generate.main Provision.small Provision.calm)) = inr tt /\
  created_databases
    (fst (Db.run (Generate.main Provision.small Provision.calm))) =
  DB_NAMES Bench.cfg.
Proof.
  assert (Hq : quiet Provision.calm) by (intros tr; reflexivity).
  split; [reflexivity|]. split; [reflexivity|]. split; [exact Hq|].
  exact (generate_creates_DB_NAMES Bench.cfg Provision.small Provision.calm
           eq_refl eq_refl Hq eq_refl).
Defined.

(** ** Placeholders and parameters *)

Lemma count_char_append (c : ascii) (s t : string) :
  count_char c (s ++ t) = count_char c s + count_char c t.
Proof.
  induction s as [|x s IH]; simpl; [reflexivity|]. rewrite IH. lia.
Qed.

(** Joining with a separator free of [c] adds no [c]. *)
Lemma count_char_concat (c : ascii) (sep : string) (l : list string) :
  count_char c sep = 0 ->
  count_char c (String.concat sep l) = list_sum (map (count_char c) l).
Proof.
  intros Hsep. induction l as [|x l IH]; [reflexivity|].
  destruct l as [|y l].
  - simpl. lia.
  - change (String.concat sep (x :: y :: l))
      with (x ++ sep ++ String.concat sep (y :: l))%string.
    rewrite !count_char_append, Hsep, IH. simpl. lia.
Qed.

Lemma list_sum_constant {A} (f : A -> nat) (n : nat) (l : list A) :
  (forall x, In x l -> f x = n) -> list_sum (map f l) = List.length l * n.
Proof.
  induction l as [|x l IH]; intros H; simpl; [reflexivity|].
  rewrite (H x) by now left. rewrite IH; [lia|].
  intros y Hy. apply H. now right.
Qed.

Lemma count_placeholders (first : Generate.row) :
  count_char "%" (placeholders_of first) = List.length first.
Proof.
  unfold placeholders_of. rewrite count_char_concat by reflexivity.
  rewrite (list_sum_constant _ 1).
  - rewrite repeat_length. lia.
  - intros x Hx. apply repeat_spec in Hx. now subst x.
Qed.

Lemma count_columns (first : Generate.row) :
  Forall (fun column => count_char "%" (fst column) = 0) first ->
  count_char "%" (columns_of first) = 0.
Proof.
  intros H. unfold columns_of. rewrite count_char_concat by reflexivity.
  rewrite map_map, (list_sum_constant _ 0); [lia|].
  intros x Hx. rewrite Forall_forall in H. now apply H.
Qed.

(** X20: When the table and column names hold no [%] and every row of the
    batch has as many values as the first row of the data, the INSERT
    statement of the batch has exactly as many [%s] placeholders as
    parameters. *)
Theorem insert_query_placeholders (table_name : string)
    (first : Generate.row) (batch : list Generate.row) :
  count_char "%" table_name = 0 ->
  Forall (fun column => count_char "%" (fst column) = 0) first ->
  Forall (fun data => List.length data = List.length first) batch ->
  count_char "%"
    (fst (Generate.insert_query table_name (columns_of first)
            (placeholders_of first) batch)) =
  List.length
    (snd (Generate.insert_query table_name (columns_of first)
            (placeholders_of first) batch)).
Proof.
  intros Ht Hc Hrows. unfold Generate.insert_query. cbn [fst snd].
  rewrite !count_char_append, Ht, (count_columns first Hc).
  rewrite count_char_concat by reflexivity.
  rewrite map_map.
  rewrite (list_sum_constant _ (List.length first)).
  - rewrite flat_map_concat_map, length_concat, map_map.
    rewrite (list_sum_constant _ (List.length first)); [reflexivity|].
    intros data Hd. rewrite length_map.
    rewrite Forall_forall in Hrows. now apply Hrows.
  - intros data _. rewrite !count_char_append, count_placeholders.
    simpl. lia.
Qed.

Lemma insert_query_placeholders_witness :
  count_char "%" "users" = 0 /\
  Generate.insert_query "users"
    (columns_of (hd [] (Generate.generate_user_data 2 Provision.some_user)))
    (placeholders_of
       (hd [] (Generate.generate_user_data 2 Provision.some_user)))
    (Generate.generate_user_data 2 Provision.some_user) =
  ("INSERT INTO users (username, email, first_name, last_name, status) VALUES (%s, %s, %s, %s, %s), (%s, %s, %s, %s, %s)"%string,
   [Db.VStr "ann"; Db.VStr "ann@example.org"; Db.VStr "Ann"; Db.VStr "Lee";
    Db.VStr "active";
    Db.VStr "ann"; Db.VStr "ann@example.org"; Db.VStr "Ann"; Db.VStr "Lee";
    Db.VStr "inactive"]) /\
  count_char "%"
    (fst (Generate.insert_query "users"
            (columns_of
               (hd [] (Generate.generate_user_data 2 Provision.some_user)))
            (placeholders_of
               (hd [] (Generate.generate_user_data 2 Provision.some_user)))
            (Generate.generate_user_data 2 Provision.some_user))) = 10.
Proof.
  split; [reflexivity|]. split; [reflexivity|].
  rewrite (insert_query_placeholders "users"
             (hd [] (Generate.generate_user_data 2 Provision.some_user))
             (Generate.generate_user_data 2 Provision.some_user)).
  - reflexivity.
  - reflexivity.
  - repeat constructor.
  - repeat constructor.
Defined.

(** ** The databases [main] creates when statements raise *)

Section CreatesInOrder.

Import Db.

Variable W : Generate.world.



















End CreatesInOrder.


